(** * pymap: the demo session backend, the connection state machine and
      the STATUS attribute parser, embedded and verified.

    Sources embedded here:
    - [pymap/demo/session.py]   (class [Session])
    - [pymap/state.py]          (class [ConnectionState])
    - [pymap/parsing/specials/statusattr.py] (class [StatusAttribute])

    Python integers are unbounded; message counts, sequence numbers and
    UIDs are natural numbers and are modelled by [nat].  A [bytes] value
    is a [string] (a list of 8-bit characters).  Dictionaries are [gmap]s,
    sets are [gset]s, lists are [list]s. *)

From Stdlib Require Import Ascii String.
From stdpp Require Import base option list gmap sets strings sorting.

Set Warnings "-clear-no-such-hyp".

(** ** Exceptions and results *)

Inductive Exn :=
| MailboxNotFound (name : string)
| MailboxConflict (name : string)
| KeyError (name : string)
| IndexError
| ValueError (arg : string)
| InvalidContent (buf : string)
| NotParseable (buf : string)
| UnicodeDecodeError
| AttributeError.

Inductive Result (A : Type) :=
| Ok (a : A)
| Raise (e : Exn).
Arguments Ok {A} a.
Arguments Raise {A} e.

(** ** Python helpers *)

(** [sorted(xs, key=...)]: a stable sort, here by insertion, for a
    boolean "less or equal" test on keys. *)
Fixpoint insert_sorted {A} (le : A → A → bool) (x : A) (l : list A) : list A :=
  match l with
  | [] => [x]
  | y :: l' => if le x y then x :: l else y :: insert_sorted le x l'
  end.

Definition sorted {A} (le : A → A → bool) (l : list A) : list A :=
  foldr (insert_sorted le) [] l.

(** [bytes.upper()] and [str.lower()]: only the ASCII letters change. *)
Definition upper_ascii (c : ascii) : ascii :=
  let n := nat_of_ascii c in
  if (97 <=? n) && (n <=? 122) then ascii_of_nat (n - 32) else c.

Definition lower_ascii (c : ascii) : ascii :=
  let n := nat_of_ascii c in
  if (65 <=? n) && (n <=? 90) then ascii_of_nat (n + 32) else c.

Fixpoint map_string (f : ascii → ascii) (s : string) : string :=
  match s with
  | EmptyString => EmptyString
  | String c s' => String (f c) (map_string f s')
  end.

Definition upper (s : string) : string := map_string upper_ascii s.
Definition lower (s : string) : string := map_string lower_ascii s.

(** * The demo backend: [pymap/demo/session.py] *)

Module Session.

(** ** Data model *)

(** Modelled from the spec: a flag ([pymap/parsing/specials/flag.py] is
    not in src) by its name; [Deleted], [Recent] and [Seen] are the
    system flags of these names. *)
Definition Flag := string.
Definition Deleted : Flag := "\Deleted"%string.
Definition Recent : Flag := "\Recent"%string.
Definition Seen : Flag := "\Seen"%string.

(** Modelled from the spec: [FlagOp] of [pymap/flags.py]. *)
Inductive FlagOp := REPLACE | ADD | REMOVE.

(** Modelled from the spec: class [Message] of [pymap/demo/state.py] is
    not in src.  A message has a uid, immutable contents, an internal
    date and the persistent flags attached to it. *)
Record Message := mkMessage {
  uid : nat;
  contents : string;
  internal_date : nat;
  flags : gset Flag
}.

(** Modelled from the spec: the updates a [SelectedMailbox] queues. *)
Inductive Update :=
| Exists (n : nat)
| RecentCount (n : nat)
| Expunge (seq : nat)
| Fetch (seq : nat) (fl : gset Flag).

(** Modelled from the spec: the per-UID overlay of a selection
    ([session_flags]); it holds the [\Recent] claims and the
    session-scoped flags. *)
Record SessionFlags := mkSessionFlags {
  sf_recent : gset nat;
  sf_flags : gmap nat (gset Flag)
}.

(** Modelled from the spec: class [SelectedMailbox] of
    [pymap/demo/state.py] is not in src.  A value of [SelectedMailbox] is
    the reference to the object: its identity and the attributes that
    never change.  The attributes that change live in the store of
    [State], under that identity. *)
Record SelectedMailbox := mkSelectedMailbox {
  sel_id : nat;
  name : string;
  readonly : bool
}.

(** Modelled from the spec: the attributes of a [SelectedMailbox] that
    change, that is the overlay [session_flags], the queue [pending] of
    updates and the signal [updated]. *)
Record SelectedData := mkSelectedData {
  session_flags : SessionFlags;
  pending : list Update;
  updated : bool
}.

(** Modelled from the spec: one entry of [State.mailboxes].  [sessions]
    is the registry of the selections on this mailbox, by identity. *)
Record MailboxState := mkMailboxState {
  messages : list Message;
  next_uid : nat;
  uid_validity : nat;
  permanent_flags : gset Flag;
  recent : gset nat;
  subscribed : bool;
  sessions : gset nat
}.

(** The process-wide [State]: the mailboxes by name and the store of the
    [SelectedMailbox] objects. *)
Record State := mkState {
  mailboxes : gmap string MailboxState;
  selections : gmap nat SelectedData
}.

(** Modelled from the spec: class [Mailbox] of [pymap/demo/mailbox.py] is
    not in src.  It is the view of one entry of [State.mailboxes], the
    one of the name it is kept under: [messages], [exists],
    [highest_uid], [uid_to_idx], [permanent_flags] and [uid_validity] are
    read from that entry. *)
Record Mailbox := mkMailbox {
  mbx_readonly : bool
}.

(** [self] of a [Session]: [self.mailboxes]. *)
Record SessionSelf := mkSessionSelf {
  user : string;
  self_mailboxes : gmap string Mailbox
}.

(** Field updates. *)
Definition set_messages (l : list Message) (m : MailboxState) : MailboxState :=
  mkMailboxState l (next_uid m) (uid_validity m) (permanent_flags m)
                 (recent m) (subscribed m) (sessions m).
Definition set_next_uid (n : nat) (m : MailboxState) : MailboxState :=
  mkMailboxState (messages m) n (uid_validity m) (permanent_flags m)
                 (recent m) (subscribed m) (sessions m).
Definition set_recent (r : gset nat) (m : MailboxState) : MailboxState :=
  mkMailboxState (messages m) (next_uid m) (uid_validity m) (permanent_flags m)
                 r (subscribed m) (sessions m).
Definition set_subscribed (b : bool) (m : MailboxState) : MailboxState :=
  mkMailboxState (messages m) (next_uid m) (uid_validity m) (permanent_flags m)
                 (recent m) b (sessions m).

Definition set_mailboxes (mb : gmap string MailboxState) (st : State) : State :=
  mkState mb (selections st).
Definition set_selections (h : gmap nat SelectedData) (st : State) : State :=
  mkState (mailboxes st) h.

(** ** The collaborators of [Session] that are not in src *)

(** Modelled from the spec: a bound of a range of a sequence set, a
    number or [*]. *)
Inductive SeqBound :=
| SeqNum (n : nat)
| SeqStar.

(** Modelled from the spec: [SequenceSet] (pymap/parsing/specials) is not
    in src.  A sequence set is a list of ranges; [uid] tells whether it
    ranges over UIDs. *)
Record SequenceSet := mkSequenceSet {
  seq_uid : bool;
  seq_ranges : list (SeqBound * SeqBound)
}.

Definition bound_value (upper : nat) (b : SeqBound) : nat :=
  match b with SeqNum n => n | SeqStar => upper end.

Definition in_range (upper n : nat) (r : SeqBound * SeqBound) : bool :=
  let a := bound_value upper r.1 in
  let b := bound_value upper r.2 in
  (Nat.min a b <=? n) && (n <=? Nat.max a b).

Definition ranges_top (upper : nat) (rs : list (SeqBound * SeqBound)) : nat :=
  foldr (λ r acc, Nat.max (Nat.max (bound_value upper r.1) (bound_value upper r.2)) acc)
        0 rs.

(** Modelled from the spec: [SequenceSet.iter(upper)] expands [*] to
    [upper] and yields the values of the union of the ranges in
    ascending order without duplicates, and nothing when [upper] is 0.
    Values beyond [upper] are yielded as they are. *)
Definition SequenceSet_iter (s : SequenceSet) (upper : nat) : list nat :=
  if upper =? 0 then []
  else filter (λ n, existsb (in_range upper n) (seq_ranges s) = true)
              (seq 1 (ranges_top upper (seq_ranges s))).

(** Modelled from the spec: [Message.parse(uid, contents, flags,
    internal_date=when)] builds the message; the parsing of the contents
    belongs to the message source and is opaque here. *)
Definition Message_parse (msg_uid : nat) (message : string)
    (flag_set : gset Flag) (when : nat) : Message :=
  mkMessage msg_uid message when flag_set.

(** Modelled from the spec: [Message.get_flags(selected)] is the union of
    the persistent flags of the message and of the overlay of the
    selection for its uid; [\Recent] is there when the selection has
    claimed the uid. *)
Definition get_flags (sf : SessionFlags) (msg : Message) : gset Flag :=
  flags msg ∪ default ∅ (sf_flags sf !! uid msg)
            ∪ (if decide (uid msg ∈ sf_recent sf) then {[Recent]} else ∅).

(** Modelled from the spec: [session_flags.add_recent(uid)]. *)
Definition add_recent (msg_uid : nat) (sf : SessionFlags) : SessionFlags :=
  mkSessionFlags (sf_recent sf ∪ {[msg_uid]}) (sf_flags sf).

(** Modelled from the spec: [add_message], [remove_message] and
    [add_fetch] of [SelectedMailbox] enqueue the corresponding update
    and set [updated]. *)
Definition enqueue (us : list Update) (d : SelectedData) : SelectedData :=
  mkSelectedData (session_flags d) (pending d ++ us) true.

(** Modelled from the spec: [SelectedMailbox.add_message(seq, uid,
    flags)] enqueues [Exists] and [Fetch(seq, flags)]. *)
Definition add_message (msg_seq msg_uid : nat) (flag_set : gset Flag)
    (d : SelectedData) : SelectedData :=
  enqueue [Exists msg_seq; Fetch msg_seq flag_set] d.

(** Modelled from the spec: [SelectedMailbox.remove_message(seq, uid)]
    enqueues [Expunge(seq)]. *)
Definition remove_message (msg_seq msg_uid : nat) (d : SelectedData) : SelectedData :=
  enqueue [Expunge msg_seq] d.

(** Modelled from the spec: [SelectedMailbox.add_fetch(seq, flags)]
    enqueues [Fetch(seq, flags)]. *)
Definition add_fetch (msg_seq : nat) (flag_set : gset Flag)
    (d : SelectedData) : SelectedData :=
  enqueue [Fetch msg_seq flag_set] d.

(** Modelled from the spec: [updated.set()] sets the signal of the
    selection. *)
Definition updated_set (d : SelectedData) : SelectedData :=
  mkSelectedData (session_flags d) (pending d) true.

Definition set_session_flags (sf : SessionFlags) (d : SelectedData) : SelectedData :=
  mkSelectedData sf (pending d) (updated d).

(** The overlay of a selection, read from the store. *)
Definition flags_of (h : gmap nat SelectedData) (selected : SelectedMailbox) : SessionFlags :=
  match h !! sel_id selected with
  | Some d => session_flags d
  | None => mkSessionFlags ∅ ∅
  end.

(** Modelled from the spec: [Mailbox.exists] is the number of
    messages. *)
Definition exists_ (m : MailboxState) : nat := length (messages m).

(** Modelled from the spec: [Mailbox.highest_uid] is [next_uid - 1]. *)
Definition highest_uid (m : MailboxState) : nat := next_uid m - 1.

(** Modelled from the spec: [Mailbox.uid_to_idx] maps the uid of a
    message to its index in [messages]. *)
Definition uid_to_idx (m : MailboxState) (msg_uid : nat) : option nat :=
  fst <$> list_find (λ msg, uid msg = msg_uid) (messages m).

(** Modelled from the spec: the three operations of [FlagOp]
    (pymap/flags.py is not in src) on a set of flags. *)
Definition flagop_apply (mode : FlagOp) (cur fs : gset Flag) : gset Flag :=
  match mode with
  | REPLACE => fs
  | ADD => cur ∪ fs
  | REMOVE => cur ∖ fs
  end.

(** Modelled from the spec: [Mailbox.update_flags(selected, msg, flag_set,
    mode)] applies the operation to the persistent flags of the message,
    with the flags that the mailbox keeps ([permanent_flags]), and
    returns the new flags. *)
Definition Mailbox_update_flags (perm : gset Flag) (msg : Message)
    (flag_set : gset Flag) (mode : FlagOp) : Message * gset Flag :=
  let new_flags := flagop_apply mode (flags msg) (flag_set ∩ perm) in
  (mkMessage (uid msg) (contents msg) (internal_date msg) new_flags, new_flags).

(** ** Control: loops that an exception can leave *)

Fixpoint for_each {S A} (body : A → S → S * option Exn) (xs : list A) (s : S)
    : S * option Exn :=
  match xs with
  | [] => (s, None)
  | x :: xs' =>
      match body x s with
      | (s', None) => for_each body xs' s'
      | (s', Some e) => (s', Some e)
      end
  end.

(** [for session in sessions: body(session)], for a body that changes
    the object of that session only. *)
Definition for_sessions (ss : gset nat) (body : nat → SelectedData → SelectedData)
    (h : gmap nat SelectedData) : gmap nat SelectedData :=
  foldl (λ h sid, alter (body sid) sid h) h (elements ss).

(** A [dict] kept in insertion order: [d[k] = v]. *)
Fixpoint dict_set {V} (k : nat) (v : V) (d : list (nat * V)) : list (nat * V) :=
  match d with
  | [] => [(k, v)]
  | (k', v') :: d' => if decide (k' = k) then (k, v) :: d' else (k', v') :: dict_set k v d'
  end.

(** ** The methods of [Session] *)

(** [_sessions(name)] is [sessions m] for the entry [m] of the name. *)

Definition _get_updates (st : State) (selected : option SelectedMailbox)
    : option SelectedMailbox :=
  match selected with
  | Some sel => if decide (name sel ∈ dom (mailboxes st)) then Some sel else None
  | None => None
  end.

(** The view kept under [self.mailboxes[name]] is the view of
    [State.mailboxes[name]]: [select_mailbox] stores [Mailbox.load(name,
    readonly)] under [name] and nothing else writes there. *)
Definition _check_selected (self : SessionSelf) (st : State)
    (selected : SelectedMailbox) : Result (Mailbox * SelectedMailbox) :=
  let nm := name selected in
  if decide (nm ∈ dom (mailboxes st)) then
    match self_mailboxes self !! nm with
    | Some mbx => Ok (mbx, selected)
    | None => Raise (KeyError nm)
    end
  else Raise (MailboxNotFound nm).

(** Modelled from the spec: [Mailbox.load(name, readonly)] gives the
    view of the mailbox.  The [SelectedMailbox] that it makes as well is
    left out: of the methods here only [_get_mailbox] calls it, with
    [readonly=True], and drops that selection at once, and the registry
    of a mailbox is weak, so it is not kept. *)
Definition Mailbox_load (nm : string) (readonly_ : bool) : Mailbox :=
  mkMailbox readonly_.

Definition _get_mailbox (self : SessionSelf) (st : State) (nm : string)
    (selected : option SelectedMailbox) : Result (Mailbox * option SelectedMailbox) :=
  if decide (nm ∈ dom (mailboxes st)) then
    match self_mailboxes self !! nm with
    | Some mbx => Ok (mbx, _get_updates st selected)
    | None => Ok (Mailbox_load nm true, _get_updates st selected)
    end
  else Raise (MailboxNotFound nm).

(** The generator [_iter_messages(mbx, sequences)]: [iter_numbers] are
    the numbers it walks through, fixed when it starts; [iter_resolve]
    is what it does with one of them, on the mailbox as it is then.
    [Ok None] is a number that is skipped. *)
Definition iter_numbers (m : MailboxState) (sequences : SequenceSet) : list nat :=
  match messages m with
  | [] => []
  | _ =>
      if seq_uid sequences then SequenceSet_iter sequences (highest_uid m)
      else SequenceSet_iter sequences (exists_ m)
  end.

Definition iter_resolve (sequences : SequenceSet) (m : MailboxState) (n : nat)
    : Result (option (nat * Message)) :=
  if seq_uid sequences then
    match uid_to_idx m n with
    | Some msg_idx =>
        match messages m !! msg_idx with
        | Some msg => Ok (Some (msg_idx + 1, msg))
        | None => Raise IndexError
        end
    | None => Ok None
    end
  else
    match messages m !! (n - 1) with
    | Some msg => Ok (Some (n, msg))
    | None => Raise IndexError
    end.

(** [list_mailboxes]: [ref_name] and [filter_] are not used.
    [Mailbox.SEP] is ["."], as the tests have it. *)
Definition list_mailboxes (st : State) (ref_name filter_ : string) (subscribed_ : bool)
    (selected : option SelectedMailbox)
    : list (string * string * list (string * bool)) * option SelectedMailbox :=
  let names : gset string :=
    if subscribed_
    then dom (filter (λ kv, subscribed kv.2 = true) (mailboxes st)) ∪ {["INBOX"%string]}
    else dom (mailboxes st) in
  ((λ nm, (nm, "."%string, [])) <$> sorted String.leb (elements names),
   _get_updates st selected).

Definition delete_mailbox (self : SessionSelf) (st : State) (nm : string)
    (selected : option SelectedMailbox)
    : SessionSelf * State * Result (option SelectedMailbox) :=
  if decide (nm ∈ dom (mailboxes st)) then
    let st' := set_mailboxes (delete nm (mailboxes st)) st in
    let self' := mkSessionSelf (user self) (delete nm (self_mailboxes self)) in
    (self', st', Ok (_get_updates st' selected))
  else (self, st, Raise (MailboxNotFound nm)).

Definition rename_mailbox (st : State) (before_name after_name : string)
    (selected : option SelectedMailbox) : State * Result (option SelectedMailbox) :=
  match mailboxes st !! after_name, mailboxes st !! before_name with
  | Some _, _ => (st, Raise (MailboxConflict after_name))
  | None, None => (st, Raise (MailboxNotFound before_name))
  | None, Some m =>
      let st' := set_mailboxes (delete before_name (<[after_name := m]> (mailboxes st))) st in
      (st', Ok (_get_updates st' selected))
  end.

Definition subscribe (st : State) (nm : string) (selected : option SelectedMailbox)
    : State * Result (option SelectedMailbox) :=
  if decide (nm ∈ dom (mailboxes st)) then
    let st' := set_mailboxes (alter (set_subscribed true) nm (mailboxes st)) st in
    (st', Ok (_get_updates st' selected))
  else (st, Raise (MailboxNotFound nm)).

Definition unsubscribe (st : State) (nm : string) (selected : option SelectedMailbox)
    : State * Result (option SelectedMailbox) :=
  if decide (nm ∈ dom (mailboxes st)) then
    let st' := set_mailboxes (alter (set_subscribed false) nm (mailboxes st)) st in
    (st', Ok (_get_updates st' selected))
  else (st, Raise (MailboxNotFound nm)).

(** [_increment_next_uid], on the entry of the name. *)
Definition _increment_next_uid (m : MailboxState) : nat * MailboxState :=
  (next_uid m, set_next_uid (next_uid m + 1) m).

(** An element of [messages] in [append_messages]: the contents, the
    flags and the date (a fourth component is not used). *)
Record AppendMessage := mkAppendMessage {
  am_message : string;
  am_flag_set : gset Flag;
  am_when : nat
}.

Inductive AppendUid := mkAppendUid (validity : nat) (uids : list nat).
Inductive CopyUid := mkCopyUid (validity : nat) (source_uids dest_uids : list nat).

(** The body of the loop of [append_messages], on the entry of the
    mailbox, the store of the selections and [msg_uids]. *)
Definition append_body (perm : gset Flag)
    (acc : MailboxState * gmap nat SelectedData * list nat) (am : AppendMessage)
    : MailboxState * gmap nat SelectedData * list nat :=
  let '(m, h, msg_uids) := acc in
  let '(msg_uid, m1) := _increment_next_uid m in
  let msg := Message_parse msg_uid (am_message am) (am_flag_set am ∩ perm) (am_when am) in
  let m2 := set_messages (messages m1 ++ [msg]) m1 in
  let msg_seq := length (messages m2) in
  if decide (sessions m2 ≠ ∅) then
    (m2, for_sessions (sessions m2)
           (λ _ d, updated_set (add_message msg_seq msg_uid (am_flag_set am) d)) h,
     msg_uids ++ [msg_uid])
  else
    (set_recent (recent m2 ∪ {[msg_uid]}) m2, h, msg_uids ++ [msg_uid]).

Definition append_messages (self : SessionSelf) (st : State) (nm : string)
    (msgs : list AppendMessage) (selected : option SelectedMailbox)
    : State * Result (AppendUid * option SelectedMailbox) :=
  match _get_mailbox self st nm selected, mailboxes st !! nm with
  | Ok (mbx, selected'), Some m =>
      let '(m', h', msg_uids) :=
        foldl (append_body (permanent_flags m)) (m, selections st, []) msgs in
      let st' := mkState (<[nm := m']> (mailboxes st)) h' in
      (st', Ok (mkAppendUid (uid_validity m') msg_uids, _get_updates st' selected'))
  | Raise e, _ => (st, Raise e)
  | Ok _, None => (st, Raise (MailboxNotFound nm))
  end.

(** The body of the loop of [expunge_mailbox] over the indices, on the
    entry of the mailbox and the dictionary [expunged]. *)
Definition expunge_body (sf : SessionFlags) (msg_idx : nat)
    (acc : MailboxState * list (nat * nat))
    : MailboxState * list (nat * nat) * option Exn :=
  let '(m, expunged) := acc in
  match messages m !! msg_idx with
  | None => (acc, Some IndexError)
  | Some msg =>
      if decide (Deleted ∈ get_flags sf msg) then
        ((set_messages (delete msg_idx (messages m)) m,
          dict_set (msg_idx + 1) (uid msg) expunged), None)
      else (acc, None)
  end.

(** The iterable [messages] of [expunge_mailbox]. *)
Definition expunge_candidates (m : MailboxState) (uid_set : option SequenceSet)
    : list nat :=
  match uid_set with
  | None => reverse (seq 0 (exists_ m))
  | Some us => reverse (omap (uid_to_idx m) (SequenceSet_iter us (highest_uid m)))
  end.

Definition sorted_expunged (expunged : list (nat * nat)) : list (nat * nat) :=
  sorted (λ a b, a.1 <=? b.1) expunged.

Definition expunge_notify (expunged : list (nat * nat)) (d : SelectedData)
    : SelectedData :=
  updated_set (foldl (λ d t, remove_message t.1 t.2 d) d (sorted_expunged expunged)).

Definition expunge_mailbox (self : SessionSelf) (st : State)
    (selected : SelectedMailbox) (uid_set : option SequenceSet)
    : State * Result SelectedMailbox :=
  match _check_selected self st selected, mailboxes st !! name selected with
  | Ok (mbx, selected'), Some m =>
      let '(m', expunged, err) :=
        for_each (expunge_body (flags_of (selections st) selected'))
                 (expunge_candidates m uid_set) (m, []) in
      let mb' := <[name selected' := m']> (mailboxes st) in
      match err, expunged with
      | Some e, _ => (mkState mb' (selections st), Raise e)
      | None, [] => (mkState mb' (selections st), Ok selected')
      | None, _ :: _ =>
          (mkState mb' (for_sessions (sessions m') (λ _, expunge_notify expunged)
                                     (selections st)),
           Ok selected')
      end
  | Raise e, _ => (st, Raise e)
  | Ok _, None => (st, Raise (MailboxNotFound (name selected)))
  end.

(** The body of the first loop of [copy_messages], on the entry of the
    destination, [results] and [source_uids].  [src_of d] is the entry
    that the generator reads: the destination itself when a mailbox is
    copied into itself, the source otherwise. *)
Definition copy_body (sf : SessionFlags) (sequences : SequenceSet)
    (src_of : MailboxState → MailboxState) (n : nat)
    (acc : MailboxState * list (nat * Message) * list nat)
    : MailboxState * list (nat * Message) * list nat * option Exn :=
  let '(d, results, source_uids) := acc in
  match iter_resolve sequences (src_of d) n with
  | Raise e => (acc, Some e)
  | Ok None => (acc, None)
  | Ok (Some (msg_seq, msg)) =>
      let '(dest_uid, d1) := _increment_next_uid d in
      let dest_msg := mkMessage dest_uid (contents msg) (internal_date msg) ∅ in
      let dest_flags := get_flags sf msg in
      let dest_msg' := (Mailbox_update_flags (permanent_flags d1) dest_msg dest_flags REPLACE).1 in
      let d2 := set_recent (recent d1 ∪ {[dest_uid]}) d1 in
      let d3 := set_messages (messages d2 ++ [dest_msg']) d2 in
      let dest_seq := length (messages d3) in
      ((d3, results ++ [(dest_seq, dest_msg')], source_uids ++ [uid msg]), None)
  end.

(** The second loop of [copy_messages]: for one session and one result,
    on the [recent] set of the destination and the object of the
    session. *)
Definition copy_notify_one (acc : gset nat * SelectedData) (r : nat * Message)
    : gset nat * SelectedData :=
  let '(rec, d) := acc in
  let '(rec1, d1) :=
    if decide (uid r.2 ∈ rec)
    then (rec ∖ {[uid r.2]}, set_session_flags (add_recent (uid r.2) (session_flags d)) d)
    else (rec, d) in
  (rec1, add_fetch r.1 (get_flags (session_flags d1) r.2) d1).

Definition copy_notify_session (results : list (nat * Message))
    (acc : gset nat * gmap nat SelectedData) (sid : nat)
    : gset nat * gmap nat SelectedData :=
  let '(rec, h) := acc in
  match h !! sid with
  | Some d =>
      let '(rec', d') := foldl copy_notify_one (rec, d) results in
      (rec', <[sid := updated_set d']> h)
  | None => (rec, h)
  end.

Definition copy_messages (self : SessionSelf) (st : State)
    (selected : SelectedMailbox) (sequences : SequenceSet) (mailbox : string)
    : State * Result (option CopyUid * SelectedMailbox) :=
  match _check_selected self st selected with
  | Raise e => (st, Raise e)
  | Ok (mbx, selected') =>
      match _get_mailbox self st mailbox (Some selected'),
            mailboxes st !! name selected', mailboxes st !! mailbox with
      | Ok (dest, _), Some src, Some dst =>
          let src_of d := if decide (name selected' = mailbox) then d else src in
          let '(d1, results, source_uids, err) :=
            for_each (copy_body (flags_of (selections st) selected') sequences src_of)
                     (iter_numbers src sequences) (dst, [], []) in
          match err with
          | Some e => (mkState (<[mailbox := d1]> (mailboxes st)) (selections st), Raise e)
          | None =>
              let '(rec, h) :=
                foldl (copy_notify_session results) (recent d1, selections st)
                      (elements (sessions d1)) in
              let d2 := set_recent rec d1 in
              let dest_uids := (λ r, uid r.2) <$> results in
              let copy_uid :=
                match source_uids, dest_uids with
                | _ :: _, _ :: _ => Some (mkCopyUid (uid_validity d2) source_uids dest_uids)
                | _, _ => None
                end in
              (mkState (<[mailbox := d2]> (mailboxes st)) h, Ok (copy_uid, selected'))
          end
      | Raise e, _, _ => (st, Raise e)
      | Ok _, _, _ => (st, Raise (MailboxNotFound mailbox))
      end
  end.

(** The body of the loop of [update_flags], on the entry of the mailbox,
    the store of the selections and [results].  The message object is
    changed in place: it stays where it is in [messages]. *)
Definition update_flags_body (selected : SelectedMailbox) (sequences : SequenceSet)
    (flag_set : gset Flag) (mode : FlagOp) (n : nat)
    (acc : MailboxState * gmap nat SelectedData * list (nat * Message))
    : MailboxState * gmap nat SelectedData * list (nat * Message) * option Exn :=
  let '(m, h, results) := acc in
  match iter_resolve sequences m n with
  | Raise e => (acc, Some e)
  | Ok None => (acc, None)
  | Ok (Some (msg_seq, msg)) =>
      let '(msg', new_flags) := Mailbox_update_flags (permanent_flags m) msg flag_set mode in
      let m1 := set_messages (<[msg_seq - 1 := msg']> (messages m)) m in
      let h1 :=
        for_sessions (sessions m1)
          (λ sid d, if decide (sid ≠ sel_id selected)
                    then updated_set (add_fetch msg_seq new_flags d) else d) h in
      ((m1, h1, results ++ [(msg_seq, msg')]), None)
  end.

Definition update_flags (self : SessionSelf) (st : State)
    (selected : SelectedMailbox) (sequences : SequenceSet)
    (flag_set : gset Flag) (mode : FlagOp)
    : State * Result (list (nat * Message) * SelectedMailbox) :=
  match _check_selected self st selected, mailboxes st !! name selected with
  | Ok (mbx, selected'), Some m =>
      let '(m', h', results, err) :=
        for_each (update_flags_body selected' sequences flag_set mode)
                 (iter_numbers m sequences) (m, selections st, []) in
      let st' := mkState (<[name selected' := m']> (mailboxes st)) h' in
      match err with
      | Some e => (st', Raise e)
      | None => (st', Ok (results, selected'))
      end
  | Raise e, _ => (st, Raise e)
  | Ok _, None => (st, Raise (MailboxNotFound (name selected)))
  end.

(** ** The operations of a session on the state, as one type *)

Inductive Op :=
| OpAppend (nm : string) (msgs : list AppendMessage) (selected : option SelectedMailbox)
| OpCopy (selected : SelectedMailbox) (sequences : SequenceSet) (mailbox : string)
| OpExpunge (selected : SelectedMailbox) (uid_set : option SequenceSet)
| OpUpdateFlags (selected : SelectedMailbox) (sequences : SequenceSet)
                (flag_set : gset Flag) (mode : FlagOp)
| OpDelete (nm : string) (selected : option SelectedMailbox)
| OpRename (before_name after_name : string) (selected : option SelectedMailbox)
| OpSubscribe (nm : string) (selected : option SelectedMailbox)
| OpUnsubscribe (nm : string) (selected : option SelectedMailbox).

(** The session and the state after an operation, whether it returned
    or raised. *)
Definition run (op : Op) (self : SessionSelf) (st : State) : SessionSelf * State :=
  match op with
  | OpAppend nm msgs selected => (self, (append_messages self st nm msgs selected).1)
  | OpCopy selected sequences mailbox =>
      (self, (copy_messages self st selected sequences mailbox).1)
  | OpExpunge selected uid_set => (self, (expunge_mailbox self st selected uid_set).1)
  | OpUpdateFlags selected sequences flag_set mode =>
      (self, (update_flags self st selected sequences flag_set mode).1)
  | OpDelete nm selected => (delete_mailbox self st nm selected).1
  | OpRename before_name after_name selected =>
      (self, (rename_mailbox st before_name after_name selected).1)
  | OpSubscribe nm selected => (self, (subscribe st nm selected).1)
  | OpUnsubscribe nm selected => (self, (unsubscribe st nm selected).1)
  end.

(** The operations that allocate UIDs. *)
Definition allocates (op : Op) : bool :=
  match op with
  | OpAppend _ _ _ | OpCopy _ _ _ => true
  | _ => false
  end.

(** ** What the specification says of the state *)

(** The UIDs of the messages increase strictly with the index and all
    are below [next_uid]. *)
Definition mailbox_wf (m : MailboxState) : Prop :=
  StronglySorted lt (uid <$> messages m)
  ∧ Forall (λ msg, uid msg < next_uid m) (messages m).

Definition state_wf (st : State) : Prop :=
  ∀ nm m, mailboxes st !! nm = Some m → mailbox_wf m.

(** The messages that [append_messages] adds, from the UID [u] on. *)
Fixpoint appended (perm : gset Flag) (u : nat) (msgs : list AppendMessage)
    : list Message :=
  match msgs with
  | [] => []
  | am :: rest =>
      Message_parse u (am_message am) (am_flag_set am ∩ perm) (am_when am)
      :: appended perm (S u) rest
  end.

(** The updates of an append to a mailbox of [n] messages: for each
    message an [Exists] and a [Fetch] with its sequence number. *)
Fixpoint append_updates (n : nat) (msgs : list AppendMessage) : list Update :=
  match msgs with
  | [] => []
  | am :: rest =>
      Exists (S n) :: Fetch (S n) (am_flag_set am) :: append_updates (S n) rest
  end.

(** A queue that got the updates [us]: nothing happens to the object
    when there is none. *)
Definition enqueued (us : list Update) (d : SelectedData) : SelectedData :=
  match us with
  | [] => d
  | _ => enqueue us d
  end.

(** The update that tells of the flags of a result of [update_flags]. *)
Definition fetch_of (r : nat * Message) : Update := Fetch r.1 (flags r.2).

(** The results of [update_flags] for the messages that the generator
    yields: each with the flags that [Mailbox.update_flags] gives it. *)
Definition updated_results (perm flag_set : gset Flag) (mode : FlagOp)
    (msgs : list (nat * Message)) : list (nat * Message) :=
  (λ r, (r.1, (Mailbox_update_flags perm r.2 flag_set mode).1)) <$> msgs.

(** What an operation does to one mailbox: it keeps [mailbox_wf], and
    [next_uid] does not go down, and stays when nothing is allocated. *)
Definition evolves (alloc : bool) (m m' : MailboxState) : Prop :=
  (mailbox_wf m → mailbox_wf m')
  ∧ next_uid m ≤ next_uid m'
  ∧ (alloc = false → next_uid m' = next_uid m).

(** What an operation does to the mailboxes: a mailbox of the state
    after comes from a mailbox of the state before, and from the one of
    the same name when there was one. *)
Definition effect (alloc : bool) (mb mb' : gmap string MailboxState) : Prop :=
  ∀ nm m', mb' !! nm = Some m' →
    ∃ nm0 m, mb !! nm0 = Some m
      ∧ (mailbox_wf m → mailbox_wf m')
      ∧ ∀ m1, mb !! nm = Some m1 →
          next_uid m1 ≤ next_uid m' ∧ (alloc = false → next_uid m' = next_uid m1).

(** A message that [expunge_mailbox] is to remove: the UID set has it,
    when there is one, and it is deleted in the view of the selection. *)
Definition doomed (sf : SessionFlags) (m : MailboxState) (uid_set : option SequenceSet)
    (msg : Message) : bool :=
  match uid_set with
  | None => true
  | Some us => bool_decide (uid msg ∈ SequenceSet_iter us (highest_uid m))
  end
  && bool_decide (Deleted ∈ get_flags sf msg).

(** The indices, from [n] on, of the messages that [C] holds of. *)
Fixpoint positions (C : Message → bool) (n : nat) (l : list Message) : list nat :=
  match l with
  | [] => []
  | x :: r => (if C x then [n] else []) ++ positions C (S n) r
  end.

(** The sequence numbers and UIDs of the messages that [P] holds of,
    in ascending order; the first message has the sequence number
    [n + 1]. *)
Fixpoint expunged_items (P : Message → bool) (n : nat) (l : list Message)
    : list (nat * nat) :=
  match l with
  | [] => []
  | x :: r => (if P x then [(S n, uid x)] else []) ++ expunged_items P (S n) r
  end.

(** ** More methods of [Session] *)

(** The generator [_iter_messages] run to its end on a mailbox that
    does not change meanwhile, as in [list(self._iter_messages(mbx,
    sequences))]: what it yielded, and the exception that ended it when
    there is one. *)
Definition _iter_messages (m : MailboxState) (sequences : SequenceSet)
    : list (nat * Message) * option Exn :=
  for_each (λ n acc,
              match iter_resolve sequences m n with
              | Raise e => (acc, Some e)
              | Ok None => (acc, None)
              | Ok (Some r) => (acc ++ [r], None)
              end)
           (iter_numbers m sequences) [].

(** [fetch_messages]: the attributes are not read. *)
Definition fetch_messages (self : SessionSelf) (st : State)
    (selected : SelectedMailbox) (sequences : SequenceSet) (attributes : gset string)
    : Result (list (nat * Message) * SelectedMailbox) :=
  match _check_selected self st selected, mailboxes st !! name selected with
  | Ok (mbx, selected'), Some m =>
      match _iter_messages m sequences with
      | (msgs, None) => Ok (msgs, selected')
      | (_, Some e) => Raise e
      end
  | Raise e, _ => Raise e
  | Ok _, None => Raise (MailboxNotFound (name selected))
  end.

(** What [await] gives in one step: the value, or the coroutine waits. *)
Inductive Awaited (A : Type) :=
| Ready (a : A)
| Waiting.
Arguments Ready {A} a.
Arguments Waiting {A}.

(** [check_mailbox]: with [block], [await selected.updated.wait()]
    returns at once when the signal is set and waits otherwise; then the
    signal is cleared.  [housekeeping] is not read. *)
Definition check_mailbox (self : SessionSelf) (st : State)
    (selected : SelectedMailbox) (block housekeeping : bool)
    : State * Awaited (Result SelectedMailbox) :=
  match _check_selected self st selected with
  | Raise e => (st, Ready (Raise e))
  | Ok (_, selected') =>
      if block then
        match selections st !! sel_id selected' with
        | Some d =>
            if updated d then
              (set_selections
                 (<[sel_id selected' := mkSelectedData (session_flags d) (pending d) false]>
                    (selections st)) st,
               Ready (Ok selected'))
            else (st, Waiting)
        | None => (st, Waiting)
        end
      else (st, Ready (Ok selected'))
  end.

Section Search.

(** [SearchCriteriaSet] (pymap/search.py) is not in src: [matches keys
    st selected max_seq max_uid msg_seq msg] is what
    [SearchCriteriaSet(keys, SearchParams(selected, max_seq=...,
    max_uid=...)).matches(msg_seq, msg)] answers. *)
Context {SearchKey : Type}.
Variable matches : SearchKey → State → SelectedMailbox → nat → nat → nat → Message → bool.

(** Modelled from the spec: [mbx.highest_seq] is [mbx.exists], the
    number of messages. *)
Definition search_mailbox (self : SessionSelf) (st : State)
    (selected : SelectedMailbox) (keys : SearchKey)
    : Result (list (nat * Message) * SelectedMailbox) :=
  match _check_selected self st selected, mailboxes st !! name selected with
  | Ok (mbx, selected'), Some m =>
      Ok (filter (λ r, matches keys st selected' (exists_ m) (highest_uid m) r.1 r.2 = true)
                 (imap (λ msg_idx msg, (msg_idx + 1, msg)) (messages m)),
          selected')
  | Raise e, _ => Raise e
  | Ok _, None => Raise (MailboxNotFound (name selected))
  end.

End Search.

Section Create.

(** The factory of [State.mailboxes] is not in src: a lookup of a name
    that is not there makes the entry [new_mailbox name]. *)
Variable new_mailbox : string → MailboxState.

Definition create_mailbox (st : State) (nm : string) (selected : option SelectedMailbox)
    : State * Result (option SelectedMailbox) :=
  if decide (nm ∈ dom (mailboxes st)) then (st, Raise (MailboxConflict nm))
  else
    let st' := set_mailboxes (<[nm := new_mailbox nm]> (mailboxes st)) st in
    (st', Ok (_get_updates st' selected)).

End Create.

(** The messages with their sequence numbers, from [n + 1] on. *)
Definition numbered (n : nat) (l : list Message) : list (nat * Message) :=
  imap (λ i msg, (n + i + 1, msg)) l.

(** The uid of the message is one of [S]. *)
Definition uid_in (S : list nat) (msg : Message) : bool := bool_decide (uid msg ∈ S).

End Session.

(** * The STATUS attribute: [pymap/parsing/specials/statusattr.py] *)

Module StatusAttribute.

(** The set of valid status attributes. *)
Definition valid_statuses : gset string :=
  {[ "MESSAGES"%string; "RECENT"%string; "UIDNEXT"%string;
     "UIDVALIDITY"%string; "UNSEEN"%string ]}.

Record StatusAttribute := mkStatusAttribute { status : string }.

Definition __init__ (status_ : string) : Result StatusAttribute :=
  let status_ := upper status_ in
  if decide (status_ ∈ valid_statuses) then Ok (mkStatusAttribute status_)
  else Raise (ValueError status_).

Definition value (self : StatusAttribute) : string := status self.

(** What [__eq__] can be given. *)
Inductive Other :=
| OtherStatusAttribute (a : StatusAttribute)
| OtherBytes (b : string)
| OtherObject.

(** [None] is [NotImplemented]. *)
Definition __eq__ (self : StatusAttribute) (other : Other) : option bool :=
  match other with
  | OtherStatusAttribute o => Some (bool_decide (value self = value o))
  | OtherBytes b => Some (bool_decide (value self = b))
  | OtherObject => None
  end.

Definition __bytes__ (self : StatusAttribute) : string := value self.

Section Parse.

(** The parsers of the primitives are not in src: [Space.parse] and
    [Atom.parse] give the parsed value and the rest of the buffer, or
    raise.  [hash] is the hash of Python on [bytes]. *)
Variable Space_parse : string → Result (unit * string).
Variable Atom_parse : string → Result (string * string).
Variable hash : string → Z.




End Parse.




End StatusAttribute.

(** * The connection state machine: [pymap/state.py] *)

Module ConnState.

(** Modelled from the spec: the classes of commands of
    [pymap.parsing.command] are not in src.  A command is made by one of
    four classes. *)
Inductive CommandClass := CommandAny | CommandAuth | CommandNonAuth | CommandSelect.

Global Instance CommandClass_eq_dec : EqDecision CommandClass.
Proof. solve_decision. Defined.

(** [issubclass(c, base)].  In pymap [CommandSelect] derives from
    [CommandAuth]: the commands of the selected state are commands of the
    authenticated state as well, and a FETCH on a connection with no
    session is answered with [Must authenticate first.].  The three other
    classes derive from [Command] only. *)
Definition issubclass (c base : CommandClass) : bool :=
  match c, base with
  | CommandSelect, CommandAuth => true
  | _, _ => bool_decide (c = base)
  end.

(** Modelled from the spec: a parsed command, with the attributes that
    [ConnectionState] reads. *)
Record Command := mkCommand {
  tag : string;
  command : string;
  cmd_class : CommandClass;
  ref_name : string;
  filter_ : string;
  no_expunge_response : bool
}.

(** [isinstance(cmd, cls)]: true for the class that made the command and
    for the classes that it derives from. *)
Definition isinstance (cmd : Command) (cls : CommandClass) : bool :=
  issubclass (cmd_class cmd) cls.

(** Modelled from the spec: the responses of [pymap.parsing.response]
    are not in src.  A response has a tag, a condition, a text and the
    untagged data added to it. *)
Inductive Condition := OK | NO | BAD.

Inductive ResponseData :=
| ListResponse (name sep : string) (marked : bool)
| LSubResponse (name sep : string)
| ExistsResponse (n : nat)
| RecentResponse (n : nat)
| ExpungeResponse (seq : nat)
| FetchResponse (seq : nat) (fetch_data : string)
| ResponseBye (text : string).

Record Response := mkResponse {
  r_tag : string;
  r_condition : Condition;
  r_text : string;
  r_data : list ResponseData
}.

Definition ResponseOk (tag_ text : string) : Response := mkResponse tag_ OK text [].
Definition ResponseNo (tag_ text : string) : Response := mkResponse tag_ NO text [].
Definition ResponseBad (tag_ text : string) : Response := mkResponse tag_ BAD text [].
Definition add_data (d : ResponseData) (r : Response) : Response :=
  mkResponse (r_tag r) (r_condition r) (r_text r) (r_data r ++ [d]).

(** How a handler ends: it returns a response, or raises; [Closed] is
    [CloseConnection(response)]. *)
Inductive Outcome :=
| Returned (r : Response)
| Raised (e : Exn)
| Closed (r : Response).

(** What the backend gives for a mailbox in [do_list] and [do_lsub]. *)
Record MailboxEntry := mkMailboxEntry {
  mbx_name : string;
  mbx_sep : string;
  mbx_recent : nat
}.

(** What [poll()] gives: the keys that are present in [updates]. *)
Record Updates := mkUpdates {
  upd_exists : option nat;
  upd_recent : option nat;
  upd_expunge : option (list nat);
  upd_fetch : option (list (nat * string))
}.

Section Backend.

(** The backend is not in src: [Sess] is what [self.backend] returns
    on a login, [Mbx] is a mailbox object of the backend.  [mbx_id] is
    the identity of the object, [poll] empties its queue of updates
    and [list_mailboxes] lists the mailboxes of the session
    ([subscribed=True] for LSUB).  In a fetched message of [poll] the
    second component is what [msg.fetch([FLAGS])] returns. *)
Context {Sess Mbx : Type}.
Variable mbx_id : Mbx → nat.
Variable poll : Mbx → Updates * Mbx.
Variable list_mailboxes : Sess → bool → list MailboxEntry.

Record ConnectionState := mkConnectionState {
  session : option Sess;
  selected : option Mbx
}.

Definition Handler := Command → ConnectionState → ConnectionState * Outcome.

(** [getattr(self, func_name)]: the methods of the object by name. *)
Variable handlers : string → option Handler.

Definition do_noop : Handler :=
  λ cmd cs, (cs, Returned (ResponseOk (tag cmd) "NOOP completed.")).

Definition do_check : Handler :=
  λ cmd cs, (cs, Returned (ResponseOk (tag cmd) "CHECK completed.")).

Definition do_logout : Handler :=
  λ cmd cs,
    let response := ResponseOk (tag cmd) "Logout successful." in
    (cs, Closed (add_data (ResponseBye "Logging out.") response)).

Definition _mailbox_matches (name sep ref_name filter : string) : bool := true.

Definition do_list : Handler :=
  λ cmd cs,
    match session cs with
    | None => (cs, Raised AttributeError)
    | Some s =>
        let mailboxes := list_mailboxes s false in
        let resp := ResponseOk (tag cmd) "LIST completed." in
        (cs, Returned
               (foldl (λ resp mbx,
                         if _mailbox_matches (mbx_name mbx) (mbx_sep mbx)
                                             (ref_name cmd) (filter_ cmd)
                         then add_data (ListResponse (mbx_name mbx) (mbx_sep mbx)
                                                     (negb (mbx_recent mbx =? 0))) resp
                         else resp)
                      resp mailboxes))
    end.

Definition do_lsub : Handler :=
  λ cmd cs,
    match session cs with
    | None => (cs, Raised AttributeError)
    | Some s =>
        let mailboxes := list_mailboxes s true in
        let resp := ResponseOk (tag cmd) "LSUB completed." in
        (cs, Returned
               (foldl (λ resp mbx,
                         if _mailbox_matches (mbx_name mbx) (mbx_sep mbx)
                                             (ref_name cmd) (filter_ cmd)
                         then add_data (LSubResponse (mbx_name mbx) (mbx_sep mbx)) resp
                         else resp)
                      resp mailboxes))
    end.

Definition _check_mailbox_updates (cmd : Command) (resp : Response)
    (cs : ConnectionState) : ConnectionState * Response :=
  match selected cs with
  | None => (cs, resp)
  | Some mbx =>
      let send_expunge := negb (no_expunge_response cmd) in
      let '(updates, mbx') := poll mbx in
      let resp1 :=
        match upd_exists updates with
        | Some n => add_data (ExistsResponse n) resp
        | None => resp
        end in
      let resp2 :=
        match upd_recent updates with
        | Some n => add_data (RecentResponse n) resp1
        | None => resp1
        end in
      let resp3 :=
        match upd_expunge updates with
        | Some seqs =>
            if send_expunge
            then foldl (λ r seq, add_data (ExpungeResponse seq) r) resp2 seqs
            else resp2
        | None => resp2
        end in
      let resp4 :=
        match upd_fetch updates with
        | Some msgs => foldl (λ r msg, add_data (FetchResponse msg.1 msg.2) r) resp3 msgs
        | None => resp3
        end in
      (mkConnectionState (session cs) (Some mbx'), resp4)
  end.

Definition is_ascii (s : string) : bool :=
  forallb (λ c, nat_of_ascii c <? 128) (list_ascii_of_string s).

(** [do_command]: the third component is the list of the names of the
    handlers that were called. *)
Definition do_command (cmd : Command) (cs : ConnectionState)
    : ConnectionState * Outcome * list string :=
  if bool_decide (is_Some (session cs)) && isinstance cmd CommandNonAuth
  then (cs, Returned (ResponseBad (tag cmd) (command cmd +:+ ": Already authenticated.")), [])
  else if bool_decide (session cs = None) && isinstance cmd CommandAuth
  then (cs, Returned (ResponseBad (tag cmd) (command cmd +:+ ": Must authenticate first.")), [])
  else if bool_decide (selected cs = None) && isinstance cmd CommandSelect
  then (cs, Returned (ResponseBad (tag cmd) (command cmd +:+ ": Must select a mailbox first.")), [])
  else
    let pre_selected := selected cs in
    if is_ascii (command cmd) then
      let func_name := ("do_" +:+ lower (command cmd))%string in
      match handlers func_name with
      | None => (cs, Returned (ResponseNo (tag cmd) (command cmd +:+ ": Not Implemented")), [])
      | Some func =>
          match func cmd cs with
          | (cs', Returned resp) =>
              match selected cs', pre_selected with
              | Some now, Some pre =>
                  if mbx_id now =? mbx_id pre then
                    let '(cs'', resp') := _check_mailbox_updates cmd resp cs' in
                    (cs'', Returned resp', [func_name])
                  else (cs', Returned resp, [func_name])
              | _, _ => (cs', Returned resp, [func_name])
              end
          | (cs', out) => (cs', out, [func_name])
          end
      end
    else (cs, Raised UnicodeDecodeError, []).

End Backend.

(** The pattern of LIST as the specification words it: [*] matches any
    characters, [%] any characters but the hierarchy separator. *)
Fixpoint wildcard_match (sep : ascii) (pat : list ascii) : list ascii → bool :=
  match pat with
  | [] => λ nm, match nm with [] => true | _ => false end
  | c :: pat' =>
      if bool_decide (c = "*"%char) then
        fix star (nm : list ascii) : bool :=
          wildcard_match sep pat' nm
          || match nm with [] => false | _ :: nm' => star nm' end
      else if bool_decide (c = "%"%char) then
        fix percent (nm : list ascii) : bool :=
          wildcard_match sep pat' nm
          || match nm with
             | [] => false
             | x :: nm' => negb (bool_decide (x = sep)) && percent nm'
             end
      else
        λ nm, match nm with
              | [] => false
              | x :: nm' => bool_decide (x = c) && wildcard_match sep pat' nm'
              end
  end.

Definition pattern_matches (sep : ascii) (ref_name filter name : string) : bool :=
  wildcard_match sep (list_ascii_of_string (ref_name +:+ filter))
                 (list_ascii_of_string name).

(** The names of the mailboxes that a response lists. *)
Definition listed_names (r : Response) : list string :=
  omap (λ d, match d with
             | ListResponse nm _ _ => Some nm
             | LSubResponse nm _ => Some nm
             | _ => None
             end) (r_data r).

End ConnState.

(** * More handlers of [pymap/state.py] *)

Module Handlers.

Import ConnState.

(** A Python string value: Python 3 keeps [str] and [bytes] apart, and a
    [str] never equals a [bytes]. *)
Inductive PyString :=
| Str (s : string)
| Bytes (b : string).

Definition py_eq (a b : PyString) : bool :=
  match a, b with
  | Str x, Str y => bool_decide (x = y)
  | Bytes x, Bytes y => bool_decide (x = y)
  | _, _ => false
  end.

(** What a call of the backend raises, when it raises. *)
Inductive BackendError :=
| NotFound
| Conflict
| HasChildren
| OtherError (e : Exn).

(** How one of these handlers ends: with a response, or with the
    exception of the backend that it does not catch. *)
Inductive Answer :=
| Sent (r : Response)
| Failed (e : BackendError).

(** What [mbx.expunge()] does: it returns the sequence numbers, or
    raises [MailboxReadOnly], or something else. *)
Inductive Expunged :=
| ExpungedSeqs (seqs : list nat)
| ReadOnlyMailbox
| ExpungeRaised (e : Exn).

(** What [do_status] reads of the mailbox object. *)
Record MailboxStatus := mkMailboxStatus {
  st_exists : nat;
  st_recent : nat;
  st_unseen : nat;
  st_next_uid : nat;
  st_uid_validity : nat
}.

(** An element of the list that [do_status] builds. *)
Inductive StatusItem :=
| ItemAttribute (a : StatusAttribute.StatusAttribute)
| ItemNumber (n : nat).

(** The loop of [do_status] over [cmd.status_list]. *)
Definition status_list_of (mbx : MailboxStatus)
    (status_list : list StatusAttribute.StatusAttribute) : list StatusItem :=
  foldl (λ value status_item,
           let value := value ++ [ItemAttribute status_item] in
           if decide (StatusAttribute.value status_item = "MESSAGES"%string)
           then value ++ [ItemNumber (st_exists mbx)]
           else if decide (StatusAttribute.value status_item = "RECENT"%string)
           then value ++ [ItemNumber (st_recent mbx)]
           else if decide (StatusAttribute.value status_item = "UNSEEN"%string)
           then value ++ [ItemNumber (st_unseen mbx)]
           else if decide (StatusAttribute.value status_item = "UIDNEXT"%string)
           then value ++ [ItemNumber (st_next_uid mbx)]
           else if decide (StatusAttribute.value status_item = "UIDVALIDITY"%string)
           then value ++ [ItemNumber (st_uid_validity mbx)]
           else value)
        [] status_list.

(** The number that goes with a status attribute. *)
Definition status_number (mbx : MailboxStatus) (a : StatusAttribute.StatusAttribute)
    (n : nat) : Prop :=
  (StatusAttribute.value a = "MESSAGES"%string ∧ n = st_exists mbx)
  ∨ (StatusAttribute.value a = "RECENT"%string ∧ n = st_recent mbx)
  ∨ (StatusAttribute.value a = "UNSEEN"%string ∧ n = st_unseen mbx)
  ∨ (StatusAttribute.value a = "UIDNEXT"%string ∧ n = st_next_uid mbx)
  ∨ (StatusAttribute.value a = "UIDVALIDITY"%string ∧ n = st_uid_validity mbx).

Section Backend.

(** The backend is not in src, as in [ConnState]: [backend] is
    [self.backend], which gives the session of the credentials or
    nothing; the three methods of the session give what they raise, when
    they raise; [expunge] is [mbx.expunge()]. *)
Context {Sess Mbx Creds : Type}.
Variable backend : Creds → option Sess.
Variable create_mailbox : Sess → PyString → option BackendError.
Variable delete_mailbox : Sess → PyString → option BackendError.
Variable rename_mailbox : Sess → PyString → PyString → option BackendError.
Variable expunge : Mbx → Expunged.

(** [do_authenticate(cmd, result)]. *)
Definition do_authenticate (cmd : Command) (result : Creds)
    (cs : @ConnectionState Sess Mbx) : @ConnectionState Sess Mbx * Outcome :=
  let user := backend result in
  (mkConnectionState user (selected cs),
   Returned (match user with
             | Some _ => ResponseOk (tag cmd) "Authentication successful."
             | None => ResponseNo (tag cmd) "Invalid authentication credentials."
             end)).

(** [do_create], [do_delete] and [do_rename], for a command with the
    tag and the mailbox names given.  Without a session the call of its
    method raises [AttributeError]. *)
Definition do_create (tag_ : string) (mailbox : PyString)
    (cs : @ConnectionState Sess Mbx) : Answer :=
  if py_eq mailbox (Str "INBOX") then Sent (ResponseNo tag_ "Cannot create INBOX.")
  else
    match session cs with
    | None => Failed (OtherError AttributeError)
    | Some s =>
        match create_mailbox s mailbox with
        | Some Conflict => Sent (ResponseNo tag_ "Mailbox already exists.")
        | Some e => Failed e
        | None => Sent (ResponseOk tag_ "Mailbox created successfully.")
        end
    end.

Definition do_delete (tag_ : string) (mailbox : PyString)
    (cs : @ConnectionState Sess Mbx) : Answer :=
  if py_eq mailbox (Str "INBOX") then Sent (ResponseNo tag_ "Cannot delete INBOX.")
  else
    match session cs with
    | None => Failed (OtherError AttributeError)
    | Some s =>
        match delete_mailbox s mailbox with
        | Some NotFound => Sent (ResponseNo tag_ "Mailbox not found.")
        | Some HasChildren =>
            Sent (ResponseNo tag_ "Mailbox has inferior hierarchical names.")
        | Some e => Failed e
        | None => Sent (ResponseOk tag_ "Mailbox deleted successfully.")
        end
    end.

Definition do_rename (tag_ : string) (from_mailbox to_mailbox : PyString)
    (cs : @ConnectionState Sess Mbx) : Answer :=
  if py_eq to_mailbox (Bytes "INBOX") then Sent (ResponseNo tag_ "Cannot rename to INBOX.")
  else
    match session cs with
    | None => Failed (OtherError AttributeError)
    | Some s =>
        match rename_mailbox s from_mailbox to_mailbox with
        | Some NotFound => Sent (ResponseNo tag_ "Mailbox not found.")
        | Some Conflict => Sent (ResponseNo tag_ "Mailbox already exists.")
        | Some e => Failed e
        | None => Sent (ResponseOk tag_ "Mailbox renamed successfully.")
        end
    end.

(** [do_close]. *)
Definition do_close : @Handler Sess Mbx :=
  λ cmd cs,
    match selected cs with
    | None => (cs, Raised AttributeError)
    | Some mbx =>
        match expunge mbx with
        | ExpungeRaised e => (cs, Raised e)
        | _ => (mkConnectionState (session cs) None,
                Returned (ResponseOk (tag cmd) "CLOSE completed."))
        end
    end.

End Backend.

(** The unsolicited data that [_check_mailbox_updates] adds for what
    [poll] gave, in the order in which it adds it. *)
Definition updates_data (send_expunge : bool) (updates : Updates) : list ResponseData :=
  option_list (ExistsResponse <$> upd_exists updates)
  ++ option_list (RecentResponse <$> upd_recent updates)
  ++ (if send_expunge then ExpungeResponse <$> default [] (upd_expunge updates) else [])
  ++ ((λ msg, FetchResponse msg.1 msg.2) <$> default [] (upd_fetch updates)).

End Handlers.

(** * Concrete states and inputs used in the examples below *)

Module Examples.

Import Session.

Definition msg (u : nat) (fl : gset Flag) : Message := mkMessage u "body" 0 fl.

Definition no_data : SelectedData := mkSelectedData (mkSessionFlags ∅ ∅) [] false.

(** A mailbox with the UIDs 101 to 104, where 102 and 104 are deleted,
    and the selections 1 and 2 on it. *)
Definition inbox : MailboxState :=
  mkMailboxState [msg 101 ∅; msg 102 {[Deleted]}; msg 103 ∅; msg 104 {[Deleted]}]
                 105 7 {[Deleted; Seen]} ∅ false {[1; 2]}.

(** The same mailbox with no selection on it. *)
Definition inbox_alone : MailboxState :=
  mkMailboxState (messages inbox) 105 7 {[Deleted; Seen]} ∅ false ∅.

Definition target : MailboxState :=
  mkMailboxState [] 10 9 {[Deleted; Seen]} ∅ false ∅.

Definition st0 : State :=
  mkState {[ "INBOX"%string := inbox ]} {[ 1 := no_data; 2 := no_data ]}.

Definition st_alone : State :=
  mkState {[ "INBOX"%string := inbox_alone ]} ∅.

(** INBOX selected by 1 and 2, and [Target] with no selection. *)
Definition st_two : State :=
  mkState {[ "INBOX"%string := inbox; "Target"%string := target ]}
          {[ 1 := no_data; 2 := no_data ]}.

(** The mailboxes [INBOX], [A] and [A.B]. *)
Definition st_tree : State :=
  mkState {[ "INBOX"%string := inbox_alone; "A"%string := target; "A.B"%string := target ]} ∅.

Definition sel1 : SelectedMailbox := mkSelectedMailbox 1 "INBOX" false.
Definition self1 : SessionSelf :=
  mkSessionSelf "demouser" {[ "INBOX"%string := mkMailbox false ]}.

Definition seq_1 : SequenceSet := mkSequenceSet false [(SeqNum 1, SeqNum 1)].
Definition seq_1_2 : SequenceSet := mkSequenceSet false [(SeqNum 1, SeqNum 2)].
Definition one_message : list AppendMessage := [mkAppendMessage "test message" {[Seen]} 3].
Definition uid_102_up : SequenceSet := mkSequenceSet true [(SeqNum 102, SeqStar)].

(** A backend for [ConnectionState]: a session is a unit, a mailbox
    object is its identity, nothing is pending. *)
Definition the_poll (m : nat) : ConnState.Updates * nat :=
  (ConnState.mkUpdates None None None None, m).

Definition the_mailboxes (s : unit) (subscribed_ : bool) : list ConnState.MailboxEntry :=
  [ConnState.mkMailboxEntry "INBOX" "." 1;
   ConnState.mkMailboxEntry "Sent" "." 0;
   ConnState.mkMailboxEntry "Trash" "." 0].

Definition the_handlers (func_name : string) : option (@ConnState.Handler unit nat) :=
  if decide (func_name = "do_noop"%string) then Some ConnState.do_noop
  else if decide (func_name = "do_list"%string) then Some (ConnState.do_list the_mailboxes)
  else None.

Definition login_cmd : ConnState.Command :=
  ConnState.mkCommand "a4" "LOGIN" ConnState.CommandNonAuth "" "" false.
Definition create_cmd : ConnState.Command :=
  ConnState.mkCommand "a1" "CREATE" ConnState.CommandAuth "" "" false.
Definition fetch_cmd : ConnState.Command :=
  ConnState.mkCommand "a2" "FETCH" ConnState.CommandSelect "" "" false.
Definition list_cmd : ConnState.Command :=
  ConnState.mkCommand "list1" "LIST" ConnState.CommandAuth "" "Sent" false.



Definition fresh_connection : @ConnState.ConnectionState unit nat :=
  ConnState.mkConnectionState None None.
Definition authenticated : @ConnState.ConnectionState unit nat :=
  ConnState.mkConnectionState (Some ()) None.

(** A factory of mailboxes: a new mailbox is empty and its next UID is 1.
    Search criteria: a key is a UID, and matches the message that has it. *)
Definition the_new_mailbox (nm : string) : MailboxState :=
  mkMailboxState [] 1 1 {[Deleted; Seen]} ∅ false ∅.

Definition the_matches (key : nat) (st : State) (selected : SelectedMailbox)
    (max_seq max_uid msg_seq : nat) (m : Message) : bool :=
  uid m =? key.

(** A mailbox object with updates pending. *)
Definition busy_poll (m : nat) : ConnState.Updates * nat :=
  (ConnState.mkUpdates (Some 5) (Some 1) (Some [2; 4]) (Some [(1, "FLAGS (\Seen)"%string)]), m).

(** A backend that knows one secret, makes every mailbox but [Sent],
    which is there, deletes none but [Sent] and renames every one; its
    mailboxes are read-only. *)
Definition the_backend (secret : string) : option unit :=
  if decide (secret = "demopass"%string) then Some () else None.

Definition the_create (s : unit) (mailbox : Handlers.PyString)
    : option Handlers.BackendError :=
  if Handlers.py_eq mailbox (Handlers.Str "Sent") then Some Handlers.Conflict else None.

Definition the_delete (s : unit) (mailbox : Handlers.PyString)
    : option Handlers.BackendError :=
  if Handlers.py_eq mailbox (Handlers.Str "Sent") then None else Some Handlers.NotFound.

Definition the_rename (s : unit) (from_mailbox to_mailbox : Handlers.PyString)
    : option Handlers.BackendError := None.

Definition the_expunge (m : nat) : Handlers.Expunged := Handlers.ReadOnlyMailbox.

Definition close_handlers (func_name : string) : option (@ConnState.Handler unit nat) :=
  if decide (func_name = "do_close"%string) then Some (Handlers.do_close the_expunge)
  else None.

Definition close_cmd : ConnState.Command :=
  ConnState.mkCommand "a3" "CLOSE" ConnState.CommandSelect "" "" false.
Definition selected_connection : @ConnState.ConnectionState unit nat :=
  ConnState.mkConnectionState (Some ()) (Some 1).

Definition the_status : Handlers.MailboxStatus := Handlers.mkMailboxStatus 4 1 2 105 7.

End Examples.

(** * The connection state machine: what is proved *)

Section DoCommand.

Import ConnState.

Context {Sess Mbx : Type}.
Variable mbx_id : Mbx → nat.
Variable poll : Mbx → Updates * Mbx.
Variable handlers : string → option (@Handler Sess Mbx).

(** C2, as the code has it. The three tests of [do_command] are tried
    in their order, and [isinstance] holds for a Select command and the
    class of the Auth commands too.  A NonAuth command with a session
    present is answered by BAD [Already authenticated.]; a command that
    is an instance of the Auth class, a Select command included, with
    no session is answered by BAD [Must authenticate first.]; a Select
    command with a session present and no mailbox selected is answered
    by BAD [Must select a mailbox first.].  Each text comes after the
    name of the command; the state of the connection is as before and no
    handler is called, whatever the handlers are. *)
Theorem do_command_gating (cmd : Command) (cs : ConnectionState) :
  (is_Some (session cs) → cmd_class cmd = CommandNonAuth →
     do_command mbx_id poll handlers cmd cs
     = (cs, Returned (ResponseBad (tag cmd) (command cmd +:+ ": Already authenticated.")), []))
  ∧ (session cs = None → isinstance cmd CommandAuth = true →
     do_command mbx_id poll handlers cmd cs
     = (cs, Returned (ResponseBad (tag cmd) (command cmd +:+ ": Must authenticate first.")), []))
  ∧ (isinstance cmd CommandAuth = true ↔
     cmd_class cmd = CommandAuth ∨ cmd_class cmd = CommandSelect)
  ∧ (is_Some (session cs) → selected cs = None → cmd_class cmd = CommandSelect →
     do_command mbx_id poll handlers cmd cs
     = (cs, Returned (ResponseBad (tag cmd) (command cmd +:+ ": Must select a mailbox first.")), [])).
Proof.
  unfold do_command, isinstance. repeat split.
  - intros Hs Hc. rewrite (bool_decide_eq_true_2 _ Hs), Hc. done.
  - intros Hs Hc. rewrite Hc, Hs. simpl. done.
  - destruct (cmd_class cmd); simpl; intros H; try discriminate H; auto.
  - intros [H|H]; rewrite H; done.
  - intros Hs Hsel Hc. rewrite Hc, Hsel. simpl.
    rewrite (bool_decide_eq_true_2 _ Hs). destruct Hs as [s Hs]. rewrite Hs. simpl. done.
Qed.

End DoCommand.

(** C2 on the connection of the examples: LOGIN when authenticated,
    CREATE and FETCH on a fresh connection, and FETCH when authenticated
    with no mailbox selected. *)
Lemma do_command_gating_witness :
  ConnState.do_command id Examples.the_poll Examples.the_handlers
      Examples.login_cmd Examples.authenticated
    = (Examples.authenticated,
       ConnState.Returned (ConnState.ResponseBad "a4" "LOGIN: Already authenticated."), [])
  ∧ ConnState.do_command id Examples.the_poll Examples.the_handlers
      Examples.create_cmd Examples.fresh_connection
    = (Examples.fresh_connection,
       ConnState.Returned (ConnState.ResponseBad "a1" "CREATE: Must authenticate first."), [])
  ∧ ConnState.do_command id Examples.the_poll Examples.the_handlers
      Examples.fetch_cmd Examples.fresh_connection
    = (Examples.fresh_connection,
       ConnState.Returned (ConnState.ResponseBad "a2" "FETCH: Must authenticate first."), [])
  ∧ ConnState.do_command id Examples.the_poll Examples.the_handlers
      Examples.fetch_cmd Examples.authenticated
    = (Examples.authenticated,
       ConnState.Returned (ConnState.ResponseBad "a2" "FETCH: Must select a mailbox first."), []).
Proof.
  split; [|split; [|split]].
  - apply (proj1 (do_command_gating id Examples.the_poll Examples.the_handlers
                    Examples.login_cmd Examples.authenticated));
      [by eexists | reflexivity].
  - apply (proj1 (proj2 (do_command_gating id Examples.the_poll Examples.the_handlers
                    Examples.create_cmd Examples.fresh_connection))); reflexivity.
  - apply (proj1 (proj2 (do_command_gating id Examples.the_poll Examples.the_handlers
                    Examples.fetch_cmd Examples.fresh_connection))); reflexivity.
  - apply (proj2 (proj2 (proj2 (do_command_gating id Examples.the_poll Examples.the_handlers
                    Examples.fetch_cmd Examples.authenticated))));
      [by eexists | reflexivity | reflexivity].
Defined.

(** C2 as it is stated fails: FETCH is a Select command and no mailbox
    is selected on a fresh connection, and the answer is [Must
    authenticate first.], not [Must select a mailbox first.]. *)
Lemma do_command_gating_counterexample :
  ConnState.cmd_class Examples.fetch_cmd = ConnState.CommandSelect
  ∧ ConnState.selected Examples.fresh_connection = None
  ∧ ConnState.do_command id Examples.the_poll Examples.the_handlers
      Examples.fetch_cmd Examples.fresh_connection
    = (Examples.fresh_connection,
       ConnState.Returned (ConnState.ResponseBad "a2" "FETCH: Must authenticate first."), [])
  ∧ ConnState.do_command id Examples.the_poll Examples.the_handlers
      Examples.fetch_cmd Examples.fresh_connection
    ≠ (Examples.fresh_connection,
       ConnState.Returned (ConnState.ResponseBad "a2" "FETCH: Must select a mailbox first."), []).
Proof.
  split; [reflexivity|]. split; [reflexivity|].
  assert (H : ConnState.do_command id Examples.the_poll Examples.the_handlers
                Examples.fetch_cmd Examples.fresh_connection
    = (Examples.fresh_connection,
       ConnState.Returned (ConnState.ResponseBad "a2" "FETCH: Must authenticate first."), []))
    by (vm_compute; reflexivity).
  split; [exact H|]. rewrite H. discriminate.
Qed.


Section DoList.

Import ConnState.

Context {Sess Mbx : Type}.
Variable list_mailboxes : Sess → bool → list MailboxEntry.

Lemma foldl_add_data {A} (f : A → ResponseData) (l : list A) (r : Response) :
  foldl (λ resp x, add_data (f x) resp) r l
  = mkResponse (r_tag r) (r_condition r) (r_text r) (r_data r ++ (f <$> l)).
Proof.
  revert r. induction l as [|x l IH]; intros r; simpl.
  - rewrite app_nil_r. by destruct r.
  - rewrite IH. simpl. by rewrite <- app_assoc.
Qed.

(** C6, as the code has it. LIST answers with every mailbox that the
    backend lists and LSUB with every subscribed one, in the order of the
    backend, whatever the reference name and the pattern of the command
    are; and [list_mailboxes] of the demo backend does not read them
    either. *)
Theorem do_list_lists_every_mailbox (s : Sess) (sel : option Mbx) (cmd : Command) :
  let cs := mkConnectionState (Some s) sel in
  do_list list_mailboxes cmd cs
    = (cs, Returned (mkResponse (tag cmd) OK "LIST completed."
                       ((λ mbx, ListResponse (mbx_name mbx) (mbx_sep mbx)
                                             (negb (mbx_recent mbx =? 0)))
                          <$> list_mailboxes s false)))
  ∧ do_lsub list_mailboxes cmd cs
    = (cs, Returned (mkResponse (tag cmd) OK "LSUB completed."
                       ((λ mbx, LSubResponse (mbx_name mbx) (mbx_sep mbx))
                          <$> list_mailboxes s true)))
  ∧ (∀ st r1 f1 r2 f2 sub sl,
       Session.list_mailboxes st r1 f1 sub sl = Session.list_mailboxes st r2 f2 sub sl).
Proof.
  simpl. unfold do_list, do_lsub, _mailbox_matches. simpl.
  rewrite !foldl_add_data. done.
Qed.

End DoList.

(** C6 as it is stated fails: with the mailboxes INBOX, Sent and Trash,
    [LIST "" Sent] lists INBOX, which the pattern does not match. *)
Lemma do_list_pattern_counterexample :
  ¬ (∀ resp,
       (ConnState.do_list Examples.the_mailboxes Examples.list_cmd
                          Examples.authenticated).2 = ConnState.Returned resp →
       ∀ nm, nm ∈ ConnState.listed_names resp →
             ConnState.pattern_matches "." (ConnState.ref_name Examples.list_cmd)
                                       (ConnState.filter_ Examples.list_cmd) nm = true).
Proof.
  intros H. specialize (H _ eq_refl "INBOX"%string).
  assert (Hin : "INBOX"%string ∈ ["INBOX"; "Sent"; "Trash"]%string) by (left).
  specialize (H Hin). vm_compute in H. discriminate.
Qed.

(** * The demo backend: what is proved *)

Section SessionFacts.

Import Session.

Lemma foldl_alter_lookup (body : nat → SelectedData → SelectedData) (l : list nat)
    (h : gmap nat SelectedData) (sid : nat) :
  NoDup l →
  foldl (λ h s, alter (body s) s h) h l !! sid
  = if decide (sid ∈ l) then body sid <$> h !! sid else h !! sid.
Proof.
  intros Hnd. revert h. induction Hnd as [|x l Hx Hnd IH]; intros h; simpl.
  - done.
  - rewrite IH. destruct (decide (sid = x)) as [->|Hne].
    + rewrite (decide_False _ _ Hx), decide_True by left.
      by rewrite lookup_alter_eq.
    + rewrite lookup_alter_ne by done.
      destruct (decide (sid ∈ l)) as [Hin|Hin].
      * rewrite decide_True by (by right). done.
      * rewrite decide_False; [done|]. rewrite elem_of_cons. tauto.
Qed.

Lemma for_sessions_lookup (ss : gset nat) body (h : gmap nat SelectedData) (sid : nat) :
  for_sessions ss body h !! sid
  = if decide (sid ∈ ss) then body sid <$> h !! sid else h !! sid.
Proof.
  unfold for_sessions. rewrite foldl_alter_lookup by apply NoDup_elements.
  destruct (decide (sid ∈ ss)) as [Hin|Hin].
  - rewrite decide_True; [done | by apply elem_of_elements].
  - rewrite decide_False; [done | by rewrite elem_of_elements].
Qed.

Lemma enqueue_enqueue us1 us2 d :
  enqueue us2 (enqueue us1 d) = enqueue (us1 ++ us2) d.
Proof. unfold enqueue. simpl. by rewrite app_assoc. Qed.

Lemma enqueued_enqueue us1 us2 d :
  us2 ≠ [] → enqueued us2 (enqueued us1 d) = enqueued (us1 ++ us2) d.
Proof.
  intros H. destruct us1 as [|u us1]; simpl; [done|].
  destruct us2 as [|u2 us2]; [done|]. simpl.
  unfold enqueue. simpl. by rewrite <- app_assoc.
Qed.

(** The loop of [append_messages] in closed form. *)
Lemma append_loop (perm : gset Flag) (msgs : list AppendMessage)
    (m : MailboxState) (h : gmap nat SelectedData) (us : list nat) :
  ∃ h',
    foldl (append_body perm) (m, h, us) msgs
    = (mkMailboxState (messages m ++ appended perm (next_uid m) msgs)
                      (next_uid m + length msgs) (uid_validity m) (permanent_flags m)
                      (if decide (sessions m = ∅)
                       then recent m ∪ list_to_set (seq (next_uid m) (length msgs))
                       else recent m)
                      (subscribed m) (sessions m),
       h', us ++ seq (next_uid m) (length msgs))
    ∧ ∀ sid, h' !! sid
             = if decide (sid ∈ sessions m)
               then enqueued (append_updates (length (messages m)) msgs) <$> h !! sid
               else h !! sid.
Proof.
  revert m h us. induction msgs as [|am msgs IH]; intros m h us.
  - exists h. simpl. split.
    + rewrite !app_nil_r, Nat.add_0_r. destruct m; simpl. f_equal. f_equal. f_equal.
      case_decide; [|done]. by rewrite union_empty_r_L.
    + intros sid. case_decide; [|done]. by destruct (h !! sid).
  - cbn [foldl length appended append_updates].
    assert (Hstep : append_body perm (m, h, us) am =
       let msg := Message_parse (next_uid m) (am_message am) (am_flag_set am ∩ perm) (am_when am) in
       let m2 := set_messages (messages m ++ [msg]) (set_next_uid (next_uid m + 1) m) in
       if decide (sessions m ≠ ∅) then
         (m2, for_sessions (sessions m)
           (λ _ d, updated_set (add_message (length (messages m ++ [msg])) (next_uid m) (am_flag_set am) d)) h,
          us ++ [next_uid m])
       else (set_recent (recent m ∪ {[next_uid m]}) m2, h, us ++ [next_uid m])) by reflexivity.
    rewrite Hstep. clear Hstep. cbv zeta.
    rewrite !Nat.add_1_r, length_app. cbn [length]. rewrite Nat.add_1_r.
    destruct (decide (sessions m ≠ ∅)) as [Hs|Hs].
    + edestruct IH as (h' & -> & Hh'). exists h'. cbn. split.
      * rewrite !(decide_False (P := sessions m = ∅)) by done.
        rewrite <- !app_assoc. cbn. do 3 f_equal. lia.
      * intros sid. rewrite Hh'. cbn. rewrite for_sessions_lookup.
        rewrite length_app. cbn. rewrite Nat.add_1_r.
        destruct (decide (sid ∈ sessions m)); [|done].
        destruct (h !! sid) as [d|]; [|done]. cbn. f_equal.
        destruct (append_updates (S (length (messages m))) msgs) eqn:E; cbn; [done|].
        unfold enqueue, updated_set, add_message, enqueue. cbn. by rewrite <- app_assoc.
    + apply dec_stable in Hs.
      edestruct IH as (h' & -> & Hh'). exists h'. cbn. split.
      * rewrite !(decide_True (P := sessions m = ∅)) by done.
        rewrite <- !app_assoc. cbn. do 2 f_equal.
        f_equal; [lia|]. by rewrite <- (assoc_L (∪)).
      * intros sid. rewrite Hh'. cbn. rewrite Hs.
        rewrite decide_False by set_solver. done.
Qed.


(** C4. An append to a mailbox returns the UIDs from [next_uid] on and
    puts the messages at the end.  When the mailbox has a registered
    selection, each registered selection gets, for every message, an
    [Exists] and a [Fetch] with the sequence number and the flags of the
    message, in the order of the messages, and is signalled, and [recent]
    is as before; when it has none, the UIDs are added to [recent] and
    the store of the selections is as before. *)
Theorem append_messages_notifies (self : SessionSelf) (st : State) (nm : string)
    (msgs : list AppendMessage) (selected : option SelectedMailbox) (m : MailboxState) :
  mailboxes st !! nm = Some m →
  ∃ st' m' upd,
    append_messages self st nm msgs selected
    = (st', Ok (mkAppendUid (uid_validity m) (seq (next_uid m) (length msgs)), upd))
    ∧ mailboxes st' !! nm = Some m'
    ∧ messages m' = messages m ++ appended (permanent_flags m) (next_uid m) msgs
    ∧ sessions m' = sessions m
    ∧ (sessions m ≠ ∅ →
         recent m' = recent m
         ∧ ∀ sid, sid ∈ sessions m →
             selections st' !! sid
             = enqueued (append_updates (length (messages m)) msgs) <$> selections st !! sid)
    ∧ (sessions m = ∅ →
         recent m' = recent m ∪ list_to_set (seq (next_uid m) (length msgs))
         ∧ selections st' = selections st).
Proof.
  intros Hm. unfold append_messages, _get_mailbox.
  rewrite decide_True by (apply elem_of_dom; eauto). rewrite Hm.
  destruct (append_loop (permanent_flags m) msgs m (selections st) []) as (h' & Hl & Hh').
  assert (Hgoal : ∀ sel',
    ∃ st' m' upd,
      (let '(m', h', msg_uids) :=
         foldl (append_body (permanent_flags m)) (m, selections st, []) msgs in
       let st' := mkState (<[nm := m']> (mailboxes st)) h' in
       (st', Ok (mkAppendUid (uid_validity m') msg_uids, _get_updates st' sel')))
      = (st', Ok (mkAppendUid (uid_validity m) (seq (next_uid m) (length msgs)), upd))
      ∧ mailboxes st' !! nm = Some m'
      ∧ messages m' = messages m ++ appended (permanent_flags m) (next_uid m) msgs
      ∧ sessions m' = sessions m
      ∧ (sessions m ≠ ∅ →
           recent m' = recent m
           ∧ ∀ sid, sid ∈ sessions m →
               selections st' !! sid
               = enqueued (append_updates (length (messages m)) msgs) <$> selections st !! sid)
      ∧ (sessions m = ∅ →
           recent m' = recent m ∪ list_to_set (seq (next_uid m) (length msgs))
           ∧ selections st' = selections st)).
  { intros sel'. rewrite Hl. eexists _, _, _. split; [reflexivity|]. cbn.
    split; [by rewrite lookup_insert_eq|]. split; [done|]. split; [done|]. split.
    - intros Hs. rewrite decide_False by done. split; [done|].
      intros sid Hsid. rewrite Hh'. by rewrite decide_True.
    - intros Hs. rewrite decide_True by done. split; [done|].
      apply map_eq. intros sid. rewrite Hh', Hs. by rewrite decide_False by set_solver. }
  destruct (self_mailboxes self !! nm); apply Hgoal.
Qed.

Lemma iter_resolve_lookup (sequences : SequenceSet) (m : MailboxState) (n s : nat)
    (msg : Message) :
  iter_resolve sequences m n = Ok (Some (s, msg)) → messages m !! (s - 1) = Some msg.
Proof.
  unfold iter_resolve. destruct (seq_uid sequences).
  - destruct (uid_to_idx m n) as [i|]; [|done].
    destruct (messages m !! i) as [x|] eqn:E; [|done].
    intros [= <- <-]. by rewrite Nat.add_sub.
  - destruct (messages m !! (n - 1)) as [x|] eqn:E; [|done].
    by intros [= <- <-].
Qed.

(** The loop of [update_flags]. *)
Lemma update_flags_loop (sel : SelectedMailbox) (sequences : SequenceSet)
    (fs : gset Flag) (mode : FlagOp) (ns : list nat)
    (m : MailboxState) (h : gmap nat SelectedData) (res : list (nat * Message)) :
  ∃ m' h' new err,
    for_each (update_flags_body sel sequences fs mode) ns (m, h, res)
    = (m', h', res ++ new, err)
    ∧ sessions m' = sessions m
    ∧ next_uid m' = next_uid m
    ∧ uid <$> messages m' = uid <$> messages m
    ∧ ∀ sid, h' !! sid
             = if decide (sid ∈ sessions m ∧ sid ≠ sel_id sel)
               then enqueued (fetch_of <$> new) <$> h !! sid
               else h !! sid.
Proof.
  revert m h res. induction ns as [|n ns IH]; intros m h res.
  - exists m, h, [], None. cbn. rewrite app_nil_r. repeat split; try done.
    intros sid. case_decide; [|done]. by destruct (h !! sid).
  - cbn [for_each]. unfold update_flags_body at 1.
    destruct (iter_resolve sequences m n) as [[[s msg]|]|e] eqn:Hr.
    + cbn. apply iter_resolve_lookup in Hr.
      match goal with |- context [for_each _ ns (?m1, ?h1, ?r1)] =>
        destruct (IH m1 h1 r1) as (m' & h' & new & err & -> & Hs & Hn & Hu & Hh') end.
      cbn in Hs, Hn, Hu.
      eexists m', h', (_ :: new), err. rewrite <- app_assoc. cbn.
      split; [done|]. split; [done|]. split; [done|]. split.
      * rewrite Hu, list_fmap_insert. apply list_insert_id.
        rewrite list_lookup_fmap, Hr. done.
      * intros sid. rewrite Hh'. cbn. rewrite for_sessions_lookup.
        destruct (decide (sid ∈ sessions m ∧ sid ≠ sel_id sel)) as [[H1 H2]|Hno].
        -- rewrite decide_True by done.
           destruct (h !! sid) as [d|]; [|done]. cbn. rewrite decide_True by done.
           f_equal. destruct new; cbn; [done|].
           unfold enqueue, updated_set, add_fetch, enqueue. cbn. by rewrite <- app_assoc.
        -- destruct (decide (sid ∈ sessions m)) as [Hin|Hin]; [|done].
           destruct (h !! sid) as [d|]; [|done]. cbn.
           rewrite decide_False by tauto. done.
    + destruct (IH m h res) as (m' & h' & new & err & -> & Hs & Hn & Hu & Hh').
      by exists m', h', new, err.
    + exists m, h, [], (Some e). rewrite app_nil_r. repeat split; try done.
      intros sid. case_decide; [|done]. by destruct (h !! sid).
Qed.

Lemma Mailbox_update_flags_idemp (perm fs : gset Flag) (mode : FlagOp) (x : Message) :
  (Mailbox_update_flags perm (Mailbox_update_flags perm x fs mode).1 fs mode).1
  = (Mailbox_update_flags perm x fs mode).1.
Proof.
  unfold Mailbox_update_flags. cbn. f_equal.
  destruct mode; cbn; [done| |]; apply set_eq; intros f; set_solver.
Qed.

Lemma uid_to_idx_uids (m m0 : MailboxState) (n : nat) :
  uid <$> messages m = uid <$> messages m0 → uid_to_idx m n = uid_to_idx m0 n.
Proof.
  intros H. unfold uid_to_idx.
  assert (E : ∀ l, fst <$> list_find (λ msg, uid msg = n) l
                   = fst <$> list_find (λ u, u = n) (uid <$> l)).
  { intros l. rewrite list_find_fmap. by destruct (list_find _ l) as [[??]|]. }
  by rewrite !E, H.
Qed.

(** What the generator does with a number on a mailbox whose messages
    have got new flags is what it does on the mailbox as it was, up to
    these flags. *)
Lemma iter_resolve_updated (sequences : SequenceSet) (upd : Message → Message)
    (m m0 : MailboxState) (n : nat) :
  uid <$> messages m = uid <$> messages m0 →
  upd <$> messages m = upd <$> messages m0 →
  match iter_resolve sequences m0 n, iter_resolve sequences m n with
  | Ok (Some r0), Ok (Some r) => r.1 = r0.1 ∧ upd r.2 = upd r0.2
  | Ok None, Ok None => True
  | Raise e0, Raise e => e = e0
  | _, _ => False
  end.
Proof.
  intros Hu Hf. unfold iter_resolve.
  assert (Hl : ∀ i, match messages m0 !! i, messages m !! i with
                    | Some y, Some x => upd x = upd y
                    | None, None => True
                    | _, _ => False
                    end).
  { intros i. pose proof (f_equal (λ l, l !! i) Hf) as E. cbn in E.
    rewrite !list_lookup_fmap in E.
    destruct (messages m0 !! i), (messages m !! i); cbn in E;
      [by injection E | done | done | done]. }
  destruct (seq_uid sequences).
  - rewrite (uid_to_idx_uids m m0 n Hu). destruct (uid_to_idx m0 n) as [i|]; [|done].
    specialize (Hl i). destruct (messages m0 !! i), (messages m !! i); done.
  - specialize (Hl (n - 1)). destruct (messages m0 !! (n - 1)), (messages m !! (n - 1)); done.
Qed.

Lemma iter_loop_app (sequences : SequenceSet) (m : MailboxState) (ns : list nat)
    (acc : list (nat * Message)) :
  for_each (λ n acc, match iter_resolve sequences m n with
                     | Raise e => (acc, Some e)
                     | Ok None => (acc, None)
                     | Ok (Some r) => (acc ++ [r], None)
                     end) ns acc
  = (acc ++ (for_each (λ n acc, match iter_resolve sequences m n with
                                | Raise e => (acc, Some e)
                                | Ok None => (acc, None)
                                | Ok (Some r) => (acc ++ [r], None)
                                end) ns []).1,
     (for_each (λ n acc, match iter_resolve sequences m n with
                         | Raise e => (acc, Some e)
                         | Ok None => (acc, None)
                         | Ok (Some r) => (acc ++ [r], None)
                         end) ns []).2).
Proof.
  set (body := λ n acc, _).
  revert acc. induction ns as [|n ns IH]; intros acc; cbn.
  - by rewrite app_nil_r.
  - unfold body at 1 3 5. destruct (iter_resolve sequences m n) as [[r|]|e]; cbn.
    + rewrite (IH (acc ++ [r])), (IH [r]). cbn. by rewrite <- app_assoc.
    + apply IH.
    + by rewrite app_nil_r.
Qed.

(** The results of the loop of [update_flags] are the messages that the
    generator yields on the mailbox as it was, with their new flags. *)
Lemma update_flags_loop_results (sel : SelectedMailbox) (sequences : SequenceSet)
    (fs : gset Flag) (mode : FlagOp) (m0 : MailboxState) (ns : list nat)
    (m : MailboxState) (h : gmap nat SelectedData) (res : list (nat * Message)) :
  let upd x := (Mailbox_update_flags (permanent_flags m0) x fs mode).1 in
  let it := for_each (λ n acc, match iter_resolve sequences m0 n with
                               | Raise e => (acc, Some e)
                               | Ok None => (acc, None)
                               | Ok (Some r) => (acc ++ [r], None)
                               end) ns [] in
  permanent_flags m = permanent_flags m0 →
  uid <$> messages m = uid <$> messages m0 →
  upd <$> messages m = upd <$> messages m0 →
  ∃ m' h',
    for_each (update_flags_body sel sequences fs mode) ns (m, h, res)
    = (m', h', res ++ updated_results (permanent_flags m0) fs mode it.1, it.2).
Proof.
  intros upd it. unfold it. clear it.
  revert m h res. induction ns as [|n ns IH]; intros m h res Hp Hu Hf.
  - exists m, h. cbn. by rewrite app_nil_r.
  - cbn [for_each]. unfold update_flags_body at 1.
    pose proof (iter_resolve_updated sequences upd m m0 n Hu Hf) as Hr.
    destruct (iter_resolve sequences m0 n) as [[[s0 y]|]|e0] eqn:H0;
      destruct (iter_resolve sequences m n) as [[[s x]|]|e] eqn:H1; try done.
    + cbn in Hr. destruct Hr as [-> Hxy].
      rewrite iter_loop_app. cbn [fst snd app].
      apply iter_resolve_lookup in H1.
      unfold Mailbox_update_flags at 1. cbv zeta.
      match goal with |- context [for_each _ ns (?m1, ?h1, ?r1)] =>
        destruct (IH m1 h1 r1) as (m' & h' & ->) end.
      * done.
      * cbn. rewrite list_fmap_insert. cbn. rewrite list_insert_id; [done|].
        rewrite list_lookup_fmap, H1. done.
      * cbn. rewrite list_fmap_insert.
        rewrite list_insert_id; [done|].
        rewrite list_lookup_fmap, H1. cbn. f_equal.
        rewrite Hp. symmetry. apply (Mailbox_update_flags_idemp (permanent_flags m0) fs mode x).
      * exists m', h'. f_equal. f_equal. rewrite <- app_assoc. f_equal.
        unfold updated_results. cbn. f_equal. f_equal.
        rewrite Hp. fold (upd x). fold (upd y). by rewrite Hxy.
    + destruct (IH m h res Hp Hu Hf) as (m' & h' & ->). by exists m', h'.
    + subst e. exists m, h. cbn. by rewrite app_nil_r.
Qed.

(** C9. [update_flags] on a selected mailbox: the results are the
    messages that the sequence set yields, each with the flags that
    [Mailbox.update_flags] gives it, and they are returned unless the
    generator raised.  Every selection registered on the mailbox other
    than the calling one gets, for each result in order, a [Fetch] with
    its sequence number and its new flags, and is signalled; the object
    of the calling selection, its queue included, and those of the
    selections that are not registered are as before.  When the mailbox
    of the selection is not there, the call raises and changes
    nothing. *)
Theorem update_flags_skips_caller (self : SessionSelf) (st : State)
    (selected : SelectedMailbox) (sequences : SequenceSet)
    (flag_set : gset Flag) (mode : FlagOp) :
  let r := update_flags self st selected sequences flag_set mode in
  (mailboxes st !! name selected = None ∨ self_mailboxes self !! name selected = None →
     r.1 = st ∧ ∃ e, r.2 = Raise e)
  ∧ (∀ m mbx, mailboxes st !! name selected = Some m →
       self_mailboxes self !! name selected = Some mbx →
       let yielded := _iter_messages m sequences in
       let results := updated_results (permanent_flags m) flag_set mode yielded.1 in
       r.2 = match yielded.2 with
             | None => Ok (results, selected)
             | Some e => Raise e
             end
       ∧ selections r.1 !! sel_id selected = selections st !! sel_id selected
       ∧ (∀ sid, selections r.1 !! sid
                 = if decide (sid ∈ sessions m ∧ sid ≠ sel_id selected)
                   then enqueued (fetch_of <$> results) <$> selections st !! sid
                   else selections st !! sid)
       ∧ (∀ sid d, sid ∈ sessions m → sid ≠ sel_id selected →
            selections st !! sid = Some d → results ≠ [] →
            selections r.1 !! sid
            = Some (mkSelectedData (session_flags d)
                      (pending d ++ (fetch_of <$> results)) true))
       ∧ fetch_of <$> results
         = (λ x, Fetch x.1 (flagop_apply mode (flags x.2) (flag_set ∩ permanent_flags m)))
             <$> yielded.1).
Proof.
  cbn. unfold update_flags, _check_selected. split.
  - intros [H|H].
    + rewrite decide_False by (by apply not_elem_of_dom). cbn. eauto.
    + case_decide; rewrite ?H; cbn; eauto.
  - intros m mbx Hm Hmbx.
    rewrite decide_True by (apply elem_of_dom; eauto). rewrite Hmbx, Hm.
    destruct (update_flags_loop selected sequences flag_set mode (iter_numbers m sequences)
                m (selections st) []) as (m' & h' & new & err & Hloop & Hs & Hn & Hu & Hh').
    destruct (update_flags_loop_results selected sequences flag_set mode m
                (iter_numbers m sequences) m (selections st) [] eq_refl eq_refl eq_refl)
      as (m2 & h2 & Hloop2).
    fold (_iter_messages m sequences) in Hloop2.
    rewrite Hloop in Hloop2. cbn [app] in Hloop2. injection Hloop2 as -> -> Hnew Herr.
    rewrite Hloop. cbn [app]. subst new err.
    set (results := updated_results (permanent_flags m) flag_set mode
                      (_iter_messages m sequences).1) in *.
    assert (Hsel : ∀ sid, selections
        (let st' := mkState (<[name selected := m2]> (mailboxes st)) h2 in
         match (_iter_messages m sequences).2 with
         | Some e => (st', @Raise (list (nat * Message) * SelectedMailbox) e)
         | None => (st', Ok (results, selected))
         end).1 !! sid
        = if decide (sid ∈ sessions m ∧ sid ≠ sel_id selected)
          then enqueued (fetch_of <$> results) <$> selections st !! sid
          else selections st !! sid).
    { intros sid. destruct (_iter_messages m sequences).2; cbn; apply Hh'. }
    split; [by destruct (_iter_messages m sequences).2|].
    split; [rewrite Hsel; by rewrite decide_False by tauto|].
    split; [exact Hsel|]. split.
    + intros sid d H1 H2 Hd Hne. rewrite Hsel, decide_True, Hd by done. cbn.
      unfold enqueued. destruct (fetch_of <$> results) eqn:E; [|done].
      apply fmap_nil_inv in E. done.
    + unfold results, updated_results. rewrite <- list_fmap_compose. done.
Qed.

Lemma StronglySorted_sublist {A} (R : relation A) (l1 l2 : list A) :
  l1 `sublist_of` l2 → StronglySorted R l2 → StronglySorted R l1.
Proof.
  induction 1 as [|x l1 l2 Hsub IH|x l1 l2 Hsub IH]; intros Hs.
  - constructor.
  - apply StronglySorted_cons in Hs as [Hx Hs]. apply StronglySorted_cons. split; [|auto].
    rewrite Forall_forall in Hx |- *. intros y Hy. eapply Hx, elem_of_sublist; eauto.
  - apply StronglySorted_cons in Hs as [_ Hs]. auto.
Qed.

Lemma mailbox_wf_alt (m : MailboxState) :
  mailbox_wf m ↔
  StronglySorted lt (uid <$> messages m) ∧ Forall (λ u, u < next_uid m) (uid <$> messages m).
Proof. unfold mailbox_wf. by rewrite Forall_fmap. Qed.

Lemma wf_sublist (m m' : MailboxState) :
  messages m' `sublist_of` messages m → next_uid m' = next_uid m →
  mailbox_wf m → mailbox_wf m'.
Proof.
  intros Hsub Hn [Hs Hf]. split.
  - eapply StronglySorted_sublist; [|done]. by apply fmap_sublist.
  - rewrite Hn. rewrite Forall_forall in Hf |- *. intros x Hx.
    eapply Hf, elem_of_sublist; eauto.
Qed.

Lemma wf_same_uids (m m' : MailboxState) :
  uid <$> messages m' = uid <$> messages m → next_uid m' = next_uid m →
  mailbox_wf m → mailbox_wf m'.
Proof. rewrite !mailbox_wf_alt. intros -> ->. done. Qed.

Lemma StronglySorted_seq (j n : nat) : StronglySorted lt (seq j n).
Proof.
  revert j. induction n as [|n IH]; intros j; cbn; constructor; [apply IH|].
  apply Forall_forall. intros x Hx. apply elem_of_seq in Hx. lia.
Qed.

Lemma wf_app (m m' : MailboxState) (k : nat) :
  uid <$> messages m' = (uid <$> messages m) ++ seq (next_uid m) k →
  next_uid m' = next_uid m + k →
  mailbox_wf m → mailbox_wf m'.
Proof.
  rewrite !mailbox_wf_alt. intros -> ->. intros [Hs Hf]. split.
  - apply StronglySorted_app. split; [|split; [done | apply StronglySorted_seq]].
    intros x1 x2 H1 H2. rewrite Forall_forall in Hf. apply Hf in H1.
    apply elem_of_seq in H2. lia.
  - apply Forall_app. split.
    + eapply Forall_impl; [done|]. cbn. intros. lia.
    + apply Forall_forall. intros x Hx. apply elem_of_seq in Hx. lia.
Qed.

Lemma appended_uids (perm : gset Flag) (u : nat) (msgs : list AppendMessage) :
  uid <$> appended perm u msgs = seq u (length msgs).
Proof. revert u. induction msgs as [|am msgs IH]; intros u; cbn; [done|]. by rewrite IH. Qed.

(** The first loop of [copy_messages]. *)
Lemma copy_loop (sf : SessionFlags) (sequences : SequenceSet)
    (src_of : MailboxState → MailboxState) (ns : list nat)
    (d : MailboxState) (res : list (nat * Message)) (su : list nat) :
  ∃ d' new srcs err,
    for_each (copy_body sf sequences src_of) ns (d, res, su)
    = (d', res ++ new, su ++ srcs, err)
    ∧ messages d' = messages d ++ new.*2
    ∧ uid <$> new.*2 = seq (next_uid d) (length new)
    ∧ next_uid d' = next_uid d + length new
    ∧ recent d' = recent d ∪ list_to_set (seq (next_uid d) (length new))
    ∧ sessions d' = sessions d
    ∧ uid_validity d' = uid_validity d
    ∧ length srcs = length new.
Proof.
  revert d res su. induction ns as [|n ns IH]; intros d res su.
  - exists d, [], [], None. cbn. rewrite !app_nil_r, Nat.add_0_r, union_empty_r_L. done.
  - cbn [for_each]. unfold copy_body at 1.
    destruct (iter_resolve sequences (src_of d) n) as [[[s msg]|]|e] eqn:Hr.
    + cbn.
      match goal with |- context [for_each _ ns (?d1, ?r1, ?s1)] =>
        destruct (IH d1 r1 s1) as (d' & new & srcs & err & -> & Hm & Hu & Hn & Hrec & Hs & Hv & Hl) end.
      cbn in Hm, Hu, Hn, Hrec, Hs, Hv.
      eexists d', (_ :: new), (_ :: srcs), err. rewrite <- !app_assoc. cbn.
      split; [done|]. rewrite <- app_assoc in Hm. cbn in Hm.
      split; [done|]. rewrite Nat.add_1_r in Hu, Hn, Hrec.
      split; [by rewrite Hu|]. split; [lia|]. split; [by rewrite Hrec, <- (assoc_L (∪))|].
      split; [done|]. split; [done|]. by rewrite Hl.
    + destruct (IH d res su) as (d' & new & srcs & err & -> & H). by exists d', new, srcs, err.
    + exists d, [], [], (Some e). cbn. rewrite !app_nil_r, Nat.add_0_r, union_empty_r_L. done.
Qed.

Lemma dict_set_length_pos {V} (k : nat) (v : V) (d : list (nat * V)) : dict_set k v d ≠ [].
Proof. destruct d as [|[k' v'] d]; cbn; [done|]. case_decide; done. Qed.

(** The loop of [expunge_mailbox]: messages are only taken away. *)
Lemma expunge_loop_sublist (sf : SessionFlags) (cands : list nat)
    (m : MailboxState) (ex : list (nat * nat)) :
  ∃ m' ex' err,
    for_each (expunge_body sf) cands (m, ex) = (m', ex', err)
    ∧ messages m' `sublist_of` messages m
    ∧ next_uid m' = next_uid m
    ∧ sessions m' = sessions m
    ∧ recent m' = recent m.
Proof.
  revert m ex. induction cands as [|i cands IH]; intros m ex.
  - by exists m, ex, None.
  - cbn [for_each]. unfold expunge_body at 1.
    destruct (messages m !! i) as [msg|] eqn:Hi; [|by exists m, ex, (Some IndexError)].
    destruct (decide (Deleted ∈ get_flags sf msg)).
    + match goal with |- context [for_each _ cands (?m1, ?e1)] =>
        destruct (IH m1 e1) as (m' & ex' & err & -> & Hsub & Hn & Hs & Hr) end.
      exists m', ex', err. cbn in *. split; [done|]. split; [|done].
      etrans; [done|]. apply sublist_delete.
    + apply IH.
Qed.


Lemma effect_refl (alloc : bool) (mb : gmap string MailboxState) : effect alloc mb mb.
Proof.
  intros nm m' H. exists nm, m'. split; [done|]. split; [done|].
  intros m1 H1. rewrite H in H1. injection H1 as <-. done.
Qed.

Lemma effect_insert (alloc : bool) (mb : gmap string MailboxState) (nm0 : string)
    (m0 m0' : MailboxState) :
  mb !! nm0 = Some m0 → evolves alloc m0 m0' → effect alloc mb (<[nm0 := m0']> mb).
Proof.
  intros H0 (Hwf & Hle & Heq) nm m' H. destruct (decide (nm0 = nm)) as [->|Hne].
  - rewrite lookup_insert_eq in H. injection H as <-.
    exists nm, m0. split; [done|]. split; [done|].
    intros m1 H1. rewrite H0 in H1. injection H1 as <-. done.
  - rewrite lookup_insert_ne in H by done. by apply effect_refl.
Qed.

Lemma run_effect (op : Op) (self : SessionSelf) (st : State) :
  effect (allocates op) (mailboxes st) (mailboxes (run op self st).2).
Proof.
  destruct op as [nm msgs sel|sel sequences mailbox|sel uid_set|sel sequences fs mode
                  |nm sel|before after sel|nm sel|nm sel]; cbn.
  - (* append_messages *)
    unfold append_messages, _get_mailbox.
    destruct (decide (nm ∈ dom (mailboxes st))) as [Hd|Hd]; [|apply effect_refl].
    apply elem_of_dom in Hd as [m Hm]. rewrite Hm.
    assert (H : ∀ sel',
      effect true (mailboxes st)
        (mailboxes
           (let '(m', h', msg_uids) :=
              foldl (append_body (permanent_flags m)) (m, selections st, []) msgs in
            let st' := mkState (<[nm := m']> (mailboxes st)) h' in
            (st', @Ok (AppendUid * option SelectedMailbox)
                      (mkAppendUid (uid_validity m') msg_uids, _get_updates st' sel'))).1)).
    { intros sel'.
      destruct (append_loop (permanent_flags m) msgs m (selections st) []) as (h' & -> & _).
      cbn. eapply effect_insert; [done|]. split; [|split; cbn; [lia|done]].
      apply (wf_app _ _ (length msgs)); cbn; [|done].
      by rewrite fmap_app, appended_uids. }
    destruct (self_mailboxes self !! nm); apply H.
  - (* copy_messages *)
    unfold copy_messages, _check_selected, _get_mailbox.
    destruct (decide (name sel ∈ dom (mailboxes st))) as [Hd|Hd]; [|apply effect_refl].
    destruct (self_mailboxes self !! name sel) as [mbx|]; [|apply effect_refl].
    apply elem_of_dom in Hd as [src Hsrc].
    destruct (decide (mailbox ∈ dom (mailboxes st))) as [Hd|Hd]; [|apply effect_refl].
    apply elem_of_dom in Hd as [dst Hdst]. rewrite Hsrc, Hdst.
    assert (H : ∀ (dest : Mailbox) (upd : option SelectedMailbox),
      effect true (mailboxes st)
        (mailboxes
           (match @Ok (Mailbox * option SelectedMailbox) (dest, upd), Some src, Some dst with
            | Ok (dest, _), Some src, Some dst =>
                let src_of d := if decide (name sel = mailbox) then d else src in
                let '(d1, results, source_uids, err) :=
                  for_each (copy_body (flags_of (selections st) sel) sequences src_of)
                           (iter_numbers src sequences) (dst, [], []) in
                match err with
                | Some e => (mkState (<[mailbox := d1]> (mailboxes st)) (selections st),
                             @Raise (option CopyUid * SelectedMailbox) e)
                | None =>
                    let '(rec, h) :=
                      foldl (copy_notify_session results) (recent d1, selections st)
                            (elements (sessions d1)) in
                    let d2 := set_recent rec d1 in
                    let dest_uids := (λ r, uid r.2) <$> results in
                    let copy_uid :=
                      match source_uids, dest_uids with
                      | _ :: _, _ :: _ => Some (mkCopyUid (uid_validity d2) source_uids dest_uids)
                      | _, _ => None
                      end in
                    (mkState (<[mailbox := d2]> (mailboxes st)) h, Ok (copy_uid, sel))
                end
            | Raise e, _, _ => (st, Raise e)
            | Ok _, _, _ => (st, Raise (MailboxNotFound mailbox))
            end).1)).
    { intros dest upd. cbv zeta.
      destruct (copy_loop (flags_of (selections st) sel) sequences
                  (λ d, if decide (name sel = mailbox) then d else src)
                  (iter_numbers src sequences) dst [] [])
        as (d' & new & srcs & err & -> & Hm & Hu & Hn & _ & _ & _ & _).
      assert (Hev : ∀ r, evolves true dst (set_recent r d')).
      { intros r. split; [|split; cbn; [lia|done]].
        apply (wf_app _ _ (length new)); cbn; [|done]. by rewrite Hm, fmap_app, Hu. }
      destruct err as [e|].
      - cbn. eapply effect_insert; [done|].
        destruct (Hev (recent d')) as (H1 & H2 & H3). split; [|done].
        intros Hwf. specialize (H1 Hwf). by destruct d'.
      - destruct (foldl _ _ _) as [rec h]. cbn. by eapply effect_insert. }
    destruct (self_mailboxes self !! mailbox); exact (H (mkMailbox true) None).
  - (* expunge_mailbox *)
    unfold expunge_mailbox, _check_selected.
    destruct (decide (name sel ∈ dom (mailboxes st))) as [Hd|Hd]; [|apply effect_refl].
    destruct (self_mailboxes self !! name sel) as [mbx|]; [|apply effect_refl].
    apply elem_of_dom in Hd as [m Hm]. rewrite Hm.
    destruct (expunge_loop_sublist (flags_of (selections st) sel)
                (expunge_candidates m uid_set) m [])
      as (m' & ex' & err & -> & Hsub & Hn & _).
    assert (Hev : evolves false m m').
    { split; [by apply wf_sublist|]. split; [lia|done]. }
    destruct err as [e|]; [|destruct ex']; cbn; by eapply effect_insert.
  - (* update_flags *)
    unfold update_flags, _check_selected.
    destruct (decide (name sel ∈ dom (mailboxes st))) as [Hd|Hd]; [|apply effect_refl].
    destruct (self_mailboxes self !! name sel) as [mbx|]; [|apply effect_refl].
    apply elem_of_dom in Hd as [m Hm]. rewrite Hm.
    destruct (update_flags_loop sel sequences fs mode (iter_numbers m sequences)
                m (selections st) []) as (m' & h' & new & err & -> & _ & Hn & Hu & _).
    assert (Hev : evolves false m m').
    { split; [by apply wf_same_uids|]. split; [lia|done]. }
    destruct err; cbn; by eapply effect_insert.
  - (* delete_mailbox *)
    unfold delete_mailbox. case_decide; cbn; [|apply effect_refl].
    intros k m' Hk. apply lookup_delete_Some in Hk as [_ Hk]. by apply effect_refl.
  - (* rename_mailbox *)
    unfold rename_mailbox.
    destruct (mailboxes st !! after) as [ma|] eqn:Ha; [apply effect_refl|].
    destruct (mailboxes st !! before) as [mb|] eqn:Hb; [|apply effect_refl].
    cbn. intros k m' Hk. apply lookup_delete_Some in Hk as [Hne Hk].
    destruct (decide (after = k)) as [<-|Hne'].
    + rewrite lookup_insert_eq in Hk. injection Hk as <-.
      exists before, mb. split; [done|]. split; [done|]. intros m1 H1. congruence.
    + rewrite lookup_insert_ne in Hk by done. by apply effect_refl.
  - (* subscribe *)
    unfold subscribe. case_decide; cbn; [|apply effect_refl].
    intros k m' Hk. apply lookup_alter_Some in Hk as [(-> & m & Hm & ->)|[_ Hk]];
      [|by apply effect_refl].
    eexists _, m. split; [done|]. split; [done|]. intros m1 H1.
    rewrite Hm in H1. injection H1 as <-. done.
  - (* unsubscribe *)
    unfold unsubscribe. case_decide; cbn; [|apply effect_refl].
    intros k m' Hk. apply lookup_alter_Some in Hk as [(-> & m & Hm & ->)|[_ Hk]];
      [|by apply effect_refl].
    eexists _, m. split; [done|]. split; [done|]. intros m1 H1.
    rewrite Hm in H1. injection H1 as <-. done.
Qed.

(** C1. Every operation of the session on the state ([append_messages],
    [copy_messages], [expunge_mailbox], [update_flags], [delete_mailbox],
    [rename_mailbox], [subscribe], [unsubscribe]), whether it returns or
    raises, keeps in every mailbox the UIDs strictly increasing with the
    index and below [next_uid]; and [next_uid] of a mailbox never goes
    down, and changes only in [append_messages] and [copy_messages]. *)
Theorem uids_increase_next_uid_never_decreases (op : Op) (self : SessionSelf) (st : State) :
  state_wf st →
  state_wf (run op self st).2
  ∧ ∀ nm m m',
      mailboxes st !! nm = Some m → mailboxes (run op self st).2 !! nm = Some m' →
      next_uid m ≤ next_uid m' ∧ (allocates op = false → next_uid m' = next_uid m).
Proof.
  intros Hwf. pose proof (run_effect op self st) as He. split.
  - intros nm m' Hm'. destruct (He nm m' Hm') as (nm0 & m & Hm & Hw & _).
    apply Hw. by apply (Hwf nm0).
  - intros nm m m' Hm Hm'. destruct (He nm m' Hm') as (nm0 & m0 & _ & _ & Hn).
    by apply Hn.
Qed.

(** The inner loop of the second loop of [copy_messages], for one
    session. *)
Lemma copy_notify_inner (results : list (nat * Message)) (rec : gset nat) (d : SelectedData) :
  ∃ d',
    foldl copy_notify_one (rec, d) results
    = (rec ∖ list_to_set ((λ r, uid r.2) <$> results), d')
    ∧ sf_recent (session_flags d')
      = sf_recent (session_flags d) ∪ (rec ∩ list_to_set ((λ r, uid r.2) <$> results))
    ∧ sf_flags (session_flags d') = sf_flags (session_flags d).
Proof.
  revert rec d. induction results as [|[s msg] results IH]; intros rec d.
  - exists d. cbn. split; [f_equal; set_solver|]. split; [set_solver|done].
  - cbn [foldl fmap list_fmap]. unfold copy_notify_one at 2. cbn [fst snd].
    destruct (decide (uid msg ∈ rec)) as [Hin|Hin].
    + match goal with |- context [foldl _ (?r1, ?d1) results] =>
        destruct (IH r1 d1) as (d' & -> & Hr & Hf) end.
      exists d'. cbn in *. split; [f_equal; set_solver|]. split; [|done].
      rewrite Hr. apply set_eq. intros x. destruct (decide (x = uid msg)); set_solver.
    + match goal with |- context [foldl _ (?r1, ?d1) results] =>
        destruct (IH r1 d1) as (d' & -> & Hr & Hf) end.
      exists d'. cbn in *. split; [f_equal; set_solver|]. split; [|done].
      rewrite Hr. set_solver.
Qed.

Lemma session_flags_eq (a b : SessionFlags) :
  sf_recent a = sf_recent b → sf_flags a = sf_flags b → a = b.
Proof. destruct a, b. cbn. by intros -> ->. Qed.

(** The sessions that come after the UIDs have been claimed. *)
Lemma copy_notify_rest (results : list (nat * Message)) (l : list nat)
    (rec : gset nat) (h : gmap nat SelectedData) :
  rec ## list_to_set ((λ r, uid r.2) <$> results) →
  ∃ h',
    foldl (copy_notify_session results) (rec, h) l = (rec, h')
    ∧ ∀ sid, session_flags <$> h' !! sid = session_flags <$> h !! sid.
Proof.
  intros Hdisj. revert h. induction l as [|s l IH]; intros h; [by exists h|].
  cbn [foldl]. unfold copy_notify_session at 2.
  destruct (h !! s) as [d|] eqn:Hs; [|apply IH].
  destruct (copy_notify_inner results rec d) as (d' & -> & Hr & Hf).
  replace (rec ∖ list_to_set ((λ r, uid r.2) <$> results)) with rec by set_solver.
  destruct (IH (<[s := updated_set d']> h)) as (h' & -> & Hh').
  exists h'. split; [done|]. intros sid. rewrite Hh'.
  destruct (decide (s = sid)) as [->|Hne].
  - rewrite lookup_insert_eq, Hs. cbn. f_equal. apply session_flags_eq; [|done].
    rewrite Hr. set_solver.
  - by rewrite lookup_insert_ne.
Qed.

(** The second loop of [copy_messages], when its first session has an
    object in the store. *)
Lemma copy_notify_first (results : list (nat * Message)) (s : nat) (l : list nat)
    (rec : gset nat) (h : gmap nat SelectedData) (d : SelectedData) :
  h !! s = Some d → s ∉ l →
  ∃ h',
    foldl (copy_notify_session results) (rec, h) (s :: l)
    = (rec ∖ list_to_set ((λ r, uid r.2) <$> results), h')
    ∧ (∃ d', h' !! s = Some d'
             ∧ sf_recent (session_flags d')
               = sf_recent (session_flags d) ∪ (rec ∩ list_to_set ((λ r, uid r.2) <$> results)))
    ∧ ∀ sid, sid ≠ s → session_flags <$> h' !! sid = session_flags <$> h !! sid.
Proof.
  intros Hs Hl. cbn [foldl]. unfold copy_notify_session at 2. rewrite Hs.
  destruct (copy_notify_inner results rec d) as (d' & -> & Hr & Hf).
  destruct (copy_notify_rest results l (rec ∖ list_to_set ((λ r, uid r.2) <$> results))
              (<[s := updated_set d']> h)) as (h' & -> & Hh'); [set_solver|].
  exists h'. split; [done|]. split.
  - specialize (Hh' s). rewrite lookup_insert_eq in Hh'. cbn in Hh'.
    destruct (h' !! s) as [d''|]; [|done]. injection Hh' as Hh'.
    exists d''. split; [done|]. by rewrite Hh'.
  - intros sid Hne. rewrite Hh'. by rewrite lookup_insert_ne.
Qed.


(** The copies of the first loop of [copy_messages], when the source is
    another mailbox than the destination. *)
Lemma copy_loop_contents (sf : SessionFlags) (sequences : SequenceSet)
    (src_of : MailboxState → MailboxState) (src : MailboxState) (ns : list nat)
    (d : MailboxState) (res : list (nat * Message)) (su : list nat) :
  (∀ d0, src_of d0 = src) →
  ∃ d' new srcs err,
    for_each (copy_body sf sequences src_of) ns (d, res, su)
    = (d', res ++ new, su ++ srcs, err)
    ∧ Forall2 (λ s c, ∃ msg, msg ∈ messages src ∧ uid msg = s
                              ∧ contents c.2 = contents msg
                              ∧ internal_date c.2 = internal_date msg) srcs new.
Proof.
  intros Hsrc. revert d res su. induction ns as [|n ns IH]; intros d res su.
  - exists d, [], [], None. cbn. by rewrite !app_nil_r.
  - cbn [for_each]. unfold copy_body at 1. rewrite Hsrc.
    destruct (iter_resolve sequences src n) as [[[s msg]|]|e] eqn:Hr.
    + cbn. apply iter_resolve_lookup in Hr.
      match goal with |- context [for_each _ ns (?d1, ?r1, ?s1)] =>
        destruct (IH d1 r1 s1) as (d' & new & srcs & err & -> & HF) end.
      eexists d', (_ :: new), (_ :: srcs), err. rewrite <- !app_assoc. cbn.
      split; [done|]. constructor; [|done]. exists msg. cbn.
      split; [by eapply list_elem_of_lookup_2|done].
    + destruct (IH d res su) as (d' & new & srcs & err & -> & H).
      by exists d', new, srcs, err.
    + exists d, [], [], (Some e). cbn. by rewrite !app_nil_r.
Qed.

(** A number that the generator resolves on a mailbox is resolved in the
    same way when messages have been added at the end. *)
Lemma iter_resolve_app (sequences : SequenceSet) (m d : MailboxState) (extra : list Message)
    (n : nat) (r : nat * Message) :
  messages d = messages m ++ extra →
  iter_resolve sequences m n = Ok (Some r) → iter_resolve sequences d n = Ok (Some r).
Proof.
  intros Hd. unfold iter_resolve, uid_to_idx. rewrite Hd.
  destruct (seq_uid sequences).
  - destruct (list_find _ (messages m)) as [[i x]|] eqn:Hf; [|done]. cbn.
    destruct (messages m !! i) as [y|] eqn:Hy; [|done]. intros [= <-].
    apply (list_find_app_l _ _ extra) in Hf. rewrite Hf. cbn.
    by rewrite (lookup_app_l_Some _ _ _ _ Hy).
  - destruct (messages m !! (n - 1)) as [y|] eqn:Hy; [|done]. intros [= <-].
    by rewrite (lookup_app_l_Some _ _ _ _ Hy).
Qed.

(** The source UIDs of the first loop of [copy_messages] are the UIDs of
    the messages that the generator yields on the source, when the
    destination is another mailbox, or when every number is resolved on
    the source as it was. *)
Lemma copy_loop_sources (sf : SessionFlags) (sequences : SequenceSet)
    (src_of : MailboxState → MailboxState) (src : MailboxState) (extra : list Message)
    (ns : list nat) (d : MailboxState) (res : list (nat * Message)) (su : list nat) :
  let it := for_each (λ n acc, match iter_resolve sequences src n with
                               | Raise e => (acc, Some e)
                               | Ok None => (acc, None)
                               | Ok (Some r) => (acc ++ [r], None)
                               end) ns [] in
  ((∀ d0, src_of d0 = src)
   ∨ ((∀ d0, src_of d0 = d0) ∧ messages d = messages src ++ extra
      ∧ Forall (λ n, ∃ r, iter_resolve sequences src n = Ok (Some r)) ns)) →
  ∃ d' results,
    for_each (copy_body sf sequences src_of) ns (d, res, su)
    = (d', results, su ++ ((λ x, uid x.2) <$> it.1), it.2).
Proof.
  intros it. unfold it. clear it.
  revert d res su extra. induction ns as [|n ns IH]; intros d res su extra Hcase.
  - exists d, res. cbn. by rewrite app_nil_r.
  - cbn [for_each]. unfold copy_body at 1.
    assert (Hr : iter_resolve sequences (src_of d) n = iter_resolve sequences src n).
    { destruct Hcase as [Hc|(Hc & Hd & Hall)]; [by rewrite Hc|].
      rewrite Hc. apply Forall_cons in Hall as [[r Hr] _].
      rewrite Hr. by apply (iter_resolve_app _ src d extra). }
    rewrite Hr.
    destruct (iter_resolve sequences src n) as [[[s msg]|]|e] eqn:H0.
    + cbn. rewrite iter_loop_app. cbn [fst snd app].
      match goal with |- context [for_each _ ns (?d1, ?r1, ?s1)] =>
        destruct (IH d1 r1 s1
                    (extra ++ [(Mailbox_update_flags
                                  (permanent_flags (_increment_next_uid d).2)
                                  (mkMessage (next_uid d) (contents msg)
                                             (internal_date msg) ∅)
                                  (get_flags sf msg) REPLACE).1]))
          as (d' & results & ->) end.
      * destruct Hcase as [Hc|(Hc & Hd & Hall)]; [by left|]. right.
        split; [done|]. split; [|by apply Forall_cons in Hall as [_ Hall]].
        cbn. rewrite Hd. by rewrite <- app_assoc.
      * exists d', results. f_equal. rewrite <- app_assoc. done.
    + destruct (IH d res su extra) as (d' & results & ->).
      * destruct Hcase as [Hc|(Hc & Hd & Hall)]; [by left|]. right.
        split; [done|]. split; [done|]. by apply Forall_cons in Hall as [_ Hall].
      * by exists d', results.
    + exists d, res. cbn. by rewrite app_nil_r.
Qed.

(** The copies of the first loop of [copy_messages], when a mailbox is
    copied into itself: every source UID is the UID of a message of the
    mailbox, whose contents and date the copy has. *)
Lemma copy_loop_contents_self (sf : SessionFlags) (sequences : SequenceSet)
    (src_of : MailboxState → MailboxState) (ns : list nat)
    (d : MailboxState) (res : list (nat * Message)) (su : list nat) :
  (∀ d0, src_of d0 = d0) →
  ∃ d' new srcs err,
    for_each (copy_body sf sequences src_of) ns (d, res, su)
    = (d', res ++ new, su ++ srcs, err)
    ∧ messages d' = messages d ++ new.*2
    ∧ Forall2 (λ s c, ∃ msg, msg ∈ messages d' ∧ uid msg = s
                              ∧ contents c.2 = contents msg
                              ∧ internal_date c.2 = internal_date msg) srcs new.
Proof.
  intros Hsrc. revert d res su. induction ns as [|n ns IH]; intros d res su.
  - exists d, [], [], None. cbn. by rewrite !app_nil_r.
  - cbn [for_each]. unfold copy_body at 1. rewrite Hsrc.
    destruct (iter_resolve sequences d n) as [[[s msg]|]|e] eqn:Hr.
    + cbn. apply iter_resolve_lookup in Hr.
      match goal with |- context [for_each _ ns (?d1, ?r1, ?s1)] =>
        destruct (IH d1 r1 s1) as (d' & new & srcs & err & -> & Hm & HF) end.
      cbn in Hm. rewrite <- app_assoc in Hm. cbn in Hm.
      eexists d', (_ :: new), (_ :: srcs), err. rewrite <- !app_assoc. cbn.
      split; [done|]. split; [done|]. constructor; [|done]. exists msg. cbn.
      split; [|done]. rewrite Hm. apply elem_of_app. left.
      by eapply list_elem_of_lookup_2.
    + destruct (IH d res su) as (d' & new & srcs & err & -> & H).
      by exists d', new, srcs, err.
    + exists d, [], [], (Some e). cbn. by rewrite !app_nil_r.
Qed.

(** C5, as the code has it. When [copy_messages] returns, the
    destination has the copies at its end, with the UIDs from its
    [next_uid] on, and the value returned is the selection with
    [CopyUid] of the validity of the destination and the two lists of
    UIDs when a message was copied, and with [None] otherwise.  Every
    source UID is the UID of a message of the selected mailbox whose
    contents and date the copy at its place has, and the source UIDs
    are those of the messages that the sequence set yields on the
    source, in order, when the destination is another mailbox or every
    number of the set is a message of the source.  A new UID is in
    [recent] of the destination exactly when no selection is registered
    there.  When selections are registered, the first one that the loop
    over them visits claims [\Recent] for all the new UIDs, and the
    overlay of every other selection is as before. *)
Theorem copy_messages_recent (self : SessionSelf) (st st' : State)
    (selected sel' : SelectedMailbox) (sequences : SequenceSet) (mailbox : string)
    (copy_uid : option CopyUid) (dst : MailboxState) :
  copy_messages self st selected sequences mailbox = (st', Ok (copy_uid, sel')) →
  mailboxes st !! mailbox = Some dst →
  (∀ sid, sid ∈ sessions dst → is_Some (selections st !! sid)) →
  ∃ (d' : MailboxState) (results : list (nat * Message)) (source_uids : list nat),
    let dest_uids := (λ r, uid r.2) <$> results in
    mailboxes st' !! mailbox = Some d'
    ∧ messages d' = messages dst ++ results.*2
    ∧ dest_uids = seq (next_uid dst) (length results)
    ∧ length source_uids = length results
    ∧ copy_uid = match results with
                 | [] => None
                 | _ => Some (mkCopyUid (uid_validity dst) source_uids dest_uids)
                 end
    ∧ sel' = selected
    ∧ (∃ src', mailboxes st' !! name selected = Some src'
         ∧ Forall2 (λ s r, ∃ msg, msg ∈ messages src' ∧ uid msg = s
                                  ∧ contents r.2 = contents msg
                                  ∧ internal_date r.2 = internal_date msg)
                   source_uids results)
    ∧ (∀ src, mailboxes st !! name selected = Some src →
         name selected ≠ mailbox
         ∨ Forall (λ n, ∃ r, iter_resolve sequences src n = Ok (Some r))
                  (iter_numbers src sequences) →
         source_uids = (λ x, uid x.2) <$> (_iter_messages src sequences).1)
    ∧ (∀ u, u ∈ dest_uids → (u ∈ recent d' ↔ sessions dst = ∅))
    ∧ (sessions dst = ∅ → selections st' = selections st)
    ∧ (∀ s rest d, elements (sessions dst) = s :: rest → selections st !! s = Some d →
         (∃ d1, selections st' !! s = Some d1
                ∧ sf_recent (session_flags d1)
                  = sf_recent (session_flags d) ∪ list_to_set dest_uids)
         ∧ ∀ s2, s2 ≠ s →
             session_flags <$> selections st' !! s2 = session_flags <$> selections st !! s2).
Proof.
  intros Hcopy Hdst Hreg. unfold copy_messages, _check_selected, _get_mailbox in Hcopy.
  destruct (decide (name selected ∈ dom (mailboxes st))) as [Hd|Hd]; [|done].
  destruct (self_mailboxes self !! name selected) as [mbx|]; [|done].
  apply elem_of_dom in Hd as [src Hsrc].
  rewrite decide_True in Hcopy by (apply elem_of_dom; eauto).
  rewrite Hsrc, Hdst in Hcopy.
  assert (Hcopy' :
    (let src_of d := if decide (name selected = mailbox) then d else src in
     let '(d1, results, source_uids, err) :=
       for_each (copy_body (flags_of (selections st) selected) sequences src_of)
                (iter_numbers src sequences) (dst, [], []) in
     match err with
     | Some e => (mkState (<[mailbox := d1]> (mailboxes st)) (selections st),
                  @Raise (option CopyUid * SelectedMailbox) e)
     | None =>
         let '(rec, h) :=
           foldl (copy_notify_session results) (recent d1, selections st)
                 (elements (sessions d1)) in
         let d2 := set_recent rec d1 in
         let dest_uids := (λ r, uid r.2) <$> results in
         let copy_uid :=
           match source_uids, dest_uids with
           | _ :: _, _ :: _ => Some (mkCopyUid (uid_validity d2) source_uids dest_uids)
           | _, _ => None
           end in
         (mkState (<[mailbox := d2]> (mailboxes st)) h, Ok (copy_uid, selected))
     end) = (st', Ok (copy_uid, sel'))).
  { by destruct (self_mailboxes self !! mailbox). }
  clear Hcopy. cbv zeta in Hcopy'.
  set (src_of := λ d : MailboxState, if decide (name selected = mailbox) then d else src) in *.
  destruct (copy_loop (flags_of (selections st) selected) sequences src_of
              (iter_numbers src sequences) dst [] [])
    as (d1 & new & srcs & err & Hloop & Hm & Hu & Hn & Hrec & Hs & Hv & Hl).
  (* every source UID is the UID of a message of the selected mailbox *)
  assert (Hsrcs : ∀ rec,
    Forall2 (λ s r, ∃ msg,
               msg ∈ messages (if decide (name selected = mailbox)
                               then set_recent rec d1 else src)
               ∧ uid msg = s ∧ contents r.2 = contents msg
               ∧ internal_date r.2 = internal_date msg) srcs new).
  { intros rec. destruct (decide (name selected = mailbox)) as [He|Hne].
    - destruct (copy_loop_contents_self (flags_of (selections st) selected) sequences
                  src_of (iter_numbers src sequences) dst [] [])
        as (d1' & new' & srcs' & err' & Hloop' & _ & HF).
      { intros d0. unfold src_of. try case_decide; done. }
      rewrite Hloop in Hloop'. cbn in Hloop'. injection Hloop' as <- <- <- <-. exact HF.
    - destruct (copy_loop_contents (flags_of (selections st) selected) sequences
                  src_of src (iter_numbers src sequences) dst [] [])
        as (d1' & new' & srcs' & err' & Hloop' & HF).
      { intros d0. unfold src_of. try case_decide; done. }
      rewrite Hloop in Hloop'. cbn in Hloop'. injection Hloop' as <- <- <- <-. exact HF. }
  (* and, on the conditions of the statement, of the messages yielded *)
  assert (Hexact : ∀ src0, mailboxes st !! name selected = Some src0 →
    name selected ≠ mailbox
    ∨ Forall (λ n, ∃ r, iter_resolve sequences src0 n = Ok (Some r))
             (iter_numbers src0 sequences) →
    srcs = (λ x, uid x.2) <$> (_iter_messages src0 sequences).1).
  { intros src0 Hsrc0 Hcase. rewrite Hsrc in Hsrc0. injection Hsrc0 as <-.
    destruct (copy_loop_sources (flags_of (selections st) selected) sequences
                src_of src [] (iter_numbers src sequences) dst [] [])
      as (d1' & res' & Hloop').
    { destruct Hcase as [Hne|Hall].
      - left. intros d0. unfold src_of. try case_decide; done.
      - destruct (decide (name selected = mailbox)) as [He|Hne].
        + right. split; [intros d0; unfold src_of; try case_decide; done|].
          split; [|done]. rewrite app_nil_r. rewrite He in Hsrc. congruence.
        + left. intros d0. unfold src_of. try case_decide; done. }
    rewrite Hloop in Hloop'. cbn [app] in Hloop'. by injection Hloop' as _ _ -> _. }
  rewrite Hloop in Hcopy'. clear Hloop. destruct err as [e|]; [done|].
  cbn [app] in Hcopy'.
  assert (Huids : (λ r : nat * Message, uid r.2) <$> new = seq (next_uid dst) (length new)).
  { rewrite <- Hu, <- list_fmap_compose. done. }
  assert (Hsel : ∀ (d2 : MailboxState) (rec : gset nat), d2 = set_recent rec d1 →
    ∃ src', <[mailbox := d2]> (mailboxes st) !! name selected = Some src'
      ∧ Forall2 (λ s r, ∃ msg, msg ∈ messages src' ∧ uid msg = s
                               ∧ contents r.2 = contents msg
                               ∧ internal_date r.2 = internal_date msg) srcs new).
  { intros d2 rec ->. specialize (Hsrcs rec).
    destruct (decide (name selected = mailbox)) as [He|Hne].
    - exists (set_recent rec d1). rewrite He, lookup_insert_eq. done.
    - exists src. rewrite lookup_insert_ne by done. done. }
  destruct (elements (sessions d1)) as [|s rest] eqn:Hel.
  - (* no session on the destination *)
    cbn in Hcopy'. injection Hcopy' as <- <- <-.
    assert (He : sessions dst = ∅).
    { rewrite <- Hs. by apply leibniz_equiv, elements_empty_inv. }
    exists (set_recent (recent d1) d1), new, srcs. cbn.
    split; [by rewrite lookup_insert_eq|]. split; [done|]. split; [done|]. split; [done|].
    split; [|split; [done|split; [by eapply Hsel|split; [exact Hexact|split; [|split]]]]].
    + rewrite Hv. destruct srcs, new; try done.
    + intros u Hu'. rewrite Hrec, <- Huids. split; [done|]. intros _.
      apply elem_of_union_r, elem_of_list_to_set. done.
    + done.
    + intros s rest d Hel'. rewrite <- Hs, Hel in Hel'. done.
  - (* the first session claims the UIDs *)
    assert (Hne : sessions dst ≠ ∅).
    { rewrite <- Hs. intros He. rewrite He, elements_empty in Hel. done. }
    assert (Hsin : s ∈ sessions dst).
    { rewrite <- Hs. apply elem_of_elements. rewrite Hel. left. }
    destruct (Hreg s Hsin) as [d Hd].
    assert (Hnd : s ∉ rest).
    { pose proof (NoDup_elements (sessions d1)) as Hnd. rewrite Hel in Hnd.
      by apply NoDup_cons in Hnd as [Hnd _]. }
    destruct (copy_notify_first new s rest (recent d1) (selections st) d Hd Hnd)
      as (h' & Hf & (d1' & Hd1' & Hr1) & Hothers).
    rewrite Hf in Hcopy'. cbn in Hcopy'. injection Hcopy' as <- <- <-.
    eexists _, new, srcs. cbn.
    split; [by rewrite lookup_insert_eq|]. cbn. split; [done|]. split; [done|]. split; [done|].
    split; [|split; [done|split; [by eapply Hsel|split; [exact Hexact|split; [|split]]]]].
    + rewrite Hv. destruct srcs, new; try done.
    + intros u Hu'. split; [|done]. intros Hin. exfalso.
      apply elem_of_difference in Hin as [_ Hin]. apply Hin.
      by apply elem_of_list_to_set.
    + done.
    + intros s0 rest0 d0 Hel0 Hd0. rewrite <- Hs, Hel in Hel0. injection Hel0 as <- <-.
      rewrite Hd in Hd0. injection Hd0 as <-. split; [|exact Hothers].
      exists d1'. split; [done|]. rewrite Hr1, Hrec, Huids. set_solver.
Qed.

Lemma positions_app C n l1 l2 :
  positions C n (l1 ++ l2) = positions C n l1 ++ positions C (n + length l1) l2.
Proof.
  revert n. induction l1 as [|x l1 IH]; intros n; cbn.
  - by rewrite Nat.add_0_r.
  - rewrite IH, <- app_assoc. do 3 f_equal. lia.
Qed.

Lemma expunged_items_app P n l1 l2 :
  expunged_items P n (l1 ++ l2)
  = expunged_items P n l1 ++ expunged_items P (n + length l1) l2.
Proof.
  revert n. induction l1 as [|x l1 IH]; intros n; cbn.
  - by rewrite Nat.add_0_r.
  - rewrite IH, <- app_assoc. do 3 f_equal. lia.
Qed.

Lemma positions_bounds C n l i : i ∈ positions C n l → n ≤ i < n + length l.
Proof.
  revert n. induction l as [|x l IH]; intros n; cbn; [by intros ?%elem_of_nil|].
  rewrite elem_of_app. intros [H|H].
  - destruct (C x); [apply list_elem_of_singleton in H; lia | by apply elem_of_nil in H].
  - apply IH in H. lia.
Qed.

Lemma positions_sorted C n l : StronglySorted lt (positions C n l).
Proof.
  revert n. induction l as [|x l IH]; intros n; cbn; [constructor|].
  destruct (C x); cbn; [|apply IH]. constructor; [apply IH|].
  apply Forall_forall. intros i Hi. apply positions_bounds in Hi. lia.
Qed.

Lemma expunged_items_bounds P n l kv : kv ∈ expunged_items P n l → n < kv.1 ≤ n + length l.
Proof.
  revert n. induction l as [|x l IH]; intros n; cbn; [by intros ?%elem_of_nil|].
  rewrite elem_of_app. intros [H|H].
  - destruct (P x); [apply list_elem_of_singleton in H; subst; cbn; lia
                    | by apply elem_of_nil in H].
  - apply IH in H. lia.
Qed.

Lemma StronglySorted_reverse {A} (R : relation A) (l : list A) :
  StronglySorted R l → StronglySorted (flip R) (reverse l).
Proof.
  induction 1 as [|x l Hl IH Hx]; [constructor|].
  rewrite reverse_cons. apply StronglySorted_app. split; [|split].
  - intros a b Ha Hb. apply list_elem_of_singleton in Hb as ->. rewrite elem_of_reverse in Ha.
    rewrite Forall_forall in Hx. unfold flip. by apply Hx.
  - exact IH.
  - repeat constructor.
Qed.

Lemma dict_set_fresh {V} (k : nat) (v : V) (d : list (nat * V)) :
  Forall (λ kv, kv.1 ≠ k) d → dict_set k v d = d ++ [(k, v)].
Proof.
  induction 1 as [|[k' v'] d Hk Hd IH]; cbn; [done|].
  cbn in Hk. rewrite decide_False by done. by rewrite IH.
Qed.

(** What the loop does not reach stays where it is. *)
Lemma expunge_loop_local (sf : SessionFlags) (cs : list nat) (p q : list Message)
    (m : MailboxState) (ex : list (nat * nat)) :
  StronglySorted (flip lt) cs → Forall (λ i, i < length p) cs →
  ∃ p' ex' err,
    for_each (expunge_body sf) cs (set_messages p m, ex) = (set_messages p' m, ex', err)
    ∧ for_each (expunge_body sf) cs (set_messages (p ++ q) m, ex)
      = (set_messages (p' ++ q) m, ex', err).
Proof.
  intros Hs. revert p ex. induction Hs as [|c cs Hs IH Hc]; intros p ex Hlt.
  - by exists p, ex, None.
  - apply Forall_cons in Hlt as [Hcp Hlt]. cbn [for_each]. unfold expunge_body at 1 3.
    cbn [messages set_messages]. rewrite lookup_app_l by done.
    destruct (p !! c) as [x|] eqn:Hx; [|by exists p, ex, (Some IndexError)].
    destruct (decide (Deleted ∈ get_flags sf x)).
    + change (set_messages (delete c (p ++ q)) (set_messages (p ++ q) m))
        with (set_messages (delete c (p ++ q)) m).
      change (set_messages (delete c p) (set_messages p m))
        with (set_messages (delete c p) m).
      assert (Hdel : delete c (p ++ q) = delete c p ++ q).
      { rewrite !delete_take_drop, take_app_le, drop_app_le, app_assoc by lia. done. }
      rewrite Hdel.
      destruct (IH (delete c p) (dict_set (c + 1) (uid x) ex)) as (p' & ex' & err & H1 & H2).
      { rewrite length_delete by eauto. unfold flip in Hc.
        rewrite Forall_forall in Hc |- *. intros i Hi. specialize (Hc i Hi). lia. }
      exists p', ex', err. split; [exact H1 | exact H2].
    + apply (IH p ex Hlt).
Qed.

(** The loop of [expunge_mailbox] over the candidates, from the highest
    index down. *)
Lemma expunge_loop_spec (sf : SessionFlags) (C : Message → bool) (msgs : list Message)
    (m : MailboxState) (ex : list (nat * nat)) :
  Forall (λ kv, length msgs < kv.1) ex →
  let P := λ x, C x && bool_decide (Deleted ∈ get_flags sf x) in
  for_each (expunge_body sf) (reverse (positions C 0 msgs)) (set_messages msgs m, ex)
  = (set_messages (filter (λ x, P x = false) msgs) m,
     ex ++ reverse (expunged_items P 0 msgs), None).
Proof.
  intros Hex P. revert ex Hex. induction msgs as [|x l IH] using rev_ind; intros ex Hex.
  - cbn. by rewrite app_nil_r.
  - rewrite length_app in Hex. cbn in Hex.
    assert (Hloc : ∀ ex0, Forall (λ kv, length l < kv.1) ex0 → ∀ q,
      for_each (expunge_body sf) (reverse (positions C 0 l)) (set_messages (l ++ q) m, ex0)
      = (set_messages (filter (λ x, P x = false) l ++ q) m,
         ex0 ++ reverse (expunged_items P 0 l), None)).
    { intros ex0 Hex0 q.
      destruct (expunge_loop_local sf (reverse (positions C 0 l)) l q m ex0)
        as (p' & ex' & err & H1 & H2).
      - apply StronglySorted_reverse, positions_sorted.
      - apply Forall_forall. intros i Hi. rewrite elem_of_reverse in Hi.
        apply positions_bounds in Hi. lia.
      - rewrite (IH ex0 Hex0) in H1. injection H1 as <- <- <-. exact H2. }
    assert (Hex' : Forall (λ kv, length l < kv.1) ex).
    { eapply Forall_impl; [exact Hex|]. cbn. intros. lia. }
    rewrite positions_app, expunged_items_app, filter_app, !reverse_app.
    assert (Hpos : positions C (0 + length l) [x] = if C x then [length l] else []).
    { cbn. by rewrite app_nil_r. }
    assert (Hit : expunged_items P (0 + length l) [x]
                  = if P x then [(S (length l), uid x)] else []).
    { cbn. by rewrite app_nil_r. }
    rewrite Hpos, Hit. clear Hpos Hit.
    destruct (P x) eqn:HP.
    + (* the last message is a candidate and is deleted *)
      unfold P in HP. apply andb_prop in HP as [HC Hd]. apply bool_decide_eq_true in Hd.
      rewrite HC. rewrite (filter_cons_False _ x []), filter_nil, app_nil_r.
      2:{ unfold P. rewrite HC, (bool_decide_eq_true_2 _ Hd). done. }
      change (reverse [length l]) with [length l].
      change (reverse [(S (length l), uid x)]) with [(S (length l), uid x)].
      cbn [app for_each]. unfold expunge_body at 1. cbn [messages set_messages].
      rewrite list_lookup_middle by done. rewrite decide_True by done.
      change (set_messages (delete (length l) (l ++ [x])) (set_messages (l ++ [x]) m))
        with (set_messages (delete (length l) (l ++ [x])) m).
      assert (Hdel : delete (length l) (l ++ [x]) = l).
      { rewrite delete_take_drop, take_app_length.
        rewrite drop_ge by (rewrite length_app; cbn; lia). by rewrite app_nil_r. }
      rewrite Hdel. rewrite dict_set_fresh.
      2:{ eapply Forall_impl; [exact Hex|]. cbn. intros. lia. }
      rewrite (IH (ex ++ [(length l + 1, uid x)])).
      2:{ apply Forall_app. split; [done|]. apply Forall_singleton. cbn. lia. }
      rewrite <- app_assoc. cbn. rewrite Nat.add_1_r. done.
    + (* the last message stays *)
      rewrite (filter_cons_True _ x []), filter_nil by done.
      change (reverse (@nil (nat * nat))) with (@nil (nat * nat)). cbn [app].
      destruct (C x) eqn:HC.
      * change (reverse [length l]) with [length l].
        cbn [app for_each]. unfold expunge_body at 1. cbn [messages set_messages].
        rewrite list_lookup_middle by done.
        rewrite decide_False.
        2:{ unfold P in HP. rewrite HC in HP. cbn in HP.
            by apply bool_decide_eq_false in HP. }
        by apply Hloc.
      * change (reverse (@nil nat)) with (@nil nat). cbn [app]. by apply Hloc.
Qed.


Lemma positions_true (n : nat) (l : list Message) :
  positions (λ _, true) n l = seq n (length l).
Proof. revert n. induction l as [|x l IH]; intros n; cbn; [done|]. by rewrite IH. Qed.

Lemma positions_elem (C : Message → bool) (n : nat) (l : list Message) (i : nat) :
  i ∈ positions C n l ↔ ∃ x, n ≤ i ∧ l !! (i - n) = Some x ∧ C x = true.
Proof.
  revert n. induction l as [|y l IH]; intros n; cbn.
  - split; [by intros ?%elem_of_nil | by intros (x & _ & ? & _)].
  - rewrite elem_of_app, IH. split.
    + intros [H|(x & Hn & Hx & HC)].
      * destruct (C y) eqn:HC; [|by apply elem_of_nil in H].
        apply list_elem_of_singleton in H as ->. exists y. by rewrite Nat.sub_diag.
      * exists x. split; [lia|]. split; [|done].
        replace (i - n) with (S (i - S n)) by lia. done.
    + intros (x & Hn & Hx & HC). destruct (decide (i = n)) as [->|Hne].
      * left. rewrite Nat.sub_diag in Hx. injection Hx as ->. rewrite HC. left.
      * right. exists x. split; [lia|]. split; [|done].
        replace (i - n) with (S (i - S n)) in Hx by lia. done.
Qed.

Lemma sorted_lookup_lt (l : list nat) (i j a b : nat) :
  StronglySorted lt l → l !! i = Some a → l !! j = Some b → i < j → a < b.
Proof.
  intros Hs. revert i j. induction Hs as [|x l Hs IH Hx]; intros i j Hi Hj Hij; [done|].
  destruct j as [|j]; [lia|]. cbn in Hj. destruct i as [|i].
  - injection Hi as ->. rewrite Forall_forall in Hx. apply Hx.
    by eapply list_elem_of_lookup_2.
  - cbn in Hi. eapply IH; eauto. lia.
Qed.

Lemma sorted_lt_NoDup (l : list nat) : StronglySorted lt l → NoDup l.
Proof.
  induction 1 as [|x l Hs IH Hx]; constructor; [|done].
  intros Hin. rewrite Forall_forall in Hx. specialize (Hx x Hin). lia.
Qed.

Lemma sorted_lt_ext (l k : list nat) :
  StronglySorted lt l → StronglySorted lt k → (∀ x, x ∈ l ↔ x ∈ k) → l = k.
Proof.
  intros Hl Hk Hext. apply (StronglySorted_unique_strong lt); [|done|done|].
  - intros x y _ _ H1 H2. lia.
  - apply NoDup_Permutation; auto using sorted_lt_NoDup.
Qed.

Lemma omap_sorted (f : nat → option nat) (l : list nat) :
  StronglySorted lt l →
  (∀ a b ia ib, a < b → f a = Some ia → f b = Some ib → ia < ib) →
  StronglySorted lt (omap f l).
Proof.
  intros Hs Hf. induction Hs as [|x l Hs IH Hx]; cbn; [constructor|].
  destruct (f x) as [ix|] eqn:Hfx; [|done]. constructor; [done|].
  apply Forall_forall. intros iy Hiy. apply list_elem_of_omap in Hiy as (y & Hy & Hfy).
  rewrite Forall_forall in Hx. eapply Hf; eauto.
Qed.

Lemma SequenceSet_iter_sorted (us : SequenceSet) (upper : nat) :
  StronglySorted lt (SequenceSet_iter us upper).
Proof.
  unfold SequenceSet_iter. destruct (upper =? 0); [constructor|].
  eapply StronglySorted_sublist; [apply sublist_filter | apply StronglySorted_seq].
Qed.

Lemma uid_to_idx_Some (m : MailboxState) (u i : nat) :
  StronglySorted lt (uid <$> messages m) →
  uid_to_idx m u = Some i ↔ ∃ x, messages m !! i = Some x ∧ uid x = u.
Proof.
  intros Hs. unfold uid_to_idx. split.
  - destruct (list_find _ _) as [[i' x]|] eqn:Hf; [|done]. cbn. intros [= ->].
    apply list_find_Some in Hf as (Hx & Hu & _). eauto.
  - intros (x & Hx & Hu).
    assert (Hf : list_find (λ msg, uid msg = u) (messages m) = Some (i, x)).
    { apply list_find_Some. split; [done|]. split; [done|].
      intros j y Hy Hji Huy.
      assert (uid y < uid x); [|lia].
      eapply (sorted_lookup_lt _ j i); eauto; rewrite list_lookup_fmap.
      - by rewrite Hy.
      - by rewrite Hx. }
    by rewrite Hf.
Qed.

(** The candidates of [expunge_mailbox] are the positions of the
    messages that the UID set has, from the highest down. *)
Lemma expunge_candidates_positions (m : MailboxState) (uid_set : option SequenceSet) :
  mailbox_wf m →
  expunge_candidates m uid_set
  = reverse (positions (λ x, match uid_set with
                             | None => true
                             | Some us => bool_decide (uid x ∈ SequenceSet_iter us (highest_uid m))
                             end) 0 (messages m)).
Proof.
  intros [Hs _]. unfold expunge_candidates. destruct uid_set as [us|].
  2:{ by rewrite positions_true. }
  f_equal. apply sorted_lt_ext.
  - apply omap_sorted; [apply SequenceSet_iter_sorted|].
    intros a b ia ib Hab Ha Hb.
    apply (uid_to_idx_Some _ _ _ Hs) in Ha as (x & Hx & <-).
    apply (uid_to_idx_Some _ _ _ Hs) in Hb as (y & Hy & <-).
    destruct (decide (ia < ib)) as [|Hge]; [done|]. exfalso.
    destruct (decide (ia = ib)) as [->|Hne].
    + rewrite Hx in Hy. injection Hy as ->. lia.
    + assert (uid y < uid x); [|lia].
      eapply (sorted_lookup_lt _ ib ia); eauto; [| |lia]; rewrite list_lookup_fmap.
      * by rewrite Hy.
      * by rewrite Hx.
  - apply positions_sorted.
  - intros i. rewrite list_elem_of_omap, positions_elem. split.
    + intros (u & Hu & Hi). apply (uid_to_idx_Some _ _ _ Hs) in Hi as (x & Hx & <-).
      exists x. rewrite Nat.sub_0_r. split; [lia|]. split; [done|].
      by apply bool_decide_eq_true.
    + intros (x & _ & Hx & HC). rewrite Nat.sub_0_r in Hx.
      apply bool_decide_eq_true in HC. exists (uid x). split; [done|].
      apply (uid_to_idx_Some _ _ _ Hs). eauto.
Qed.

Lemma insert_sorted_last (x : nat * nat) (l : list (nat * nat)) :
  Forall (λ y, y.1 < x.1) l →
  insert_sorted (λ a b, a.1 <=? b.1) x l = l ++ [x].
Proof.
  induction 1 as [|y l Hy Hl IH]; cbn; [done|].
  destruct (x.1 <=? y.1) eqn:E; [apply Nat.leb_le in E; lia|]. by rewrite IH.
Qed.

Lemma expunged_items_keys_sorted (P : Message → bool) (n : nat) (l : list Message) :
  StronglySorted (λ a b, a.1 < b.1) (expunged_items P n l).
Proof.
  revert n. induction l as [|x l IH]; intros n; cbn; [constructor|].
  destruct (P x); cbn; [|apply IH]. constructor; [apply IH|].
  apply Forall_forall. intros kv Hkv. apply expunged_items_bounds in Hkv. cbn. lia.
Qed.

(** [sorted] puts back in ascending order what was collected from the
    highest sequence number down. *)
Lemma sorted_expunged_reverse (items : list (nat * nat)) :
  StronglySorted (λ a b, a.1 < b.1) items →
  sorted_expunged (reverse items) = items.
Proof.
  unfold sorted_expunged, sorted.
  induction items as [|x l IH] using rev_ind; intros Hs; [done|].
  rewrite reverse_snoc. cbn. apply StronglySorted_app in Hs as (Hlt & Hl & _).
  rewrite (IH Hl). apply insert_sorted_last.
  apply Forall_forall. intros y Hy. apply Hlt; [done | left].
Qed.


Lemma foldl_remove_message (items : list (nat * nat)) (d : SelectedData) :
  foldl (λ d t, remove_message t.1 t.2 d) d items = enqueued (Expunge <$> items.*1) d.
Proof.
  revert d. induction items as [|[k v] items IH]; intros d; cbn; [done|].
  rewrite IH. unfold remove_message. cbn.
  destruct items as [|[k' v'] items]; cbn; [done|].
  unfold enqueue. cbn. by rewrite <- app_assoc.
Qed.

Lemma updated_set_enqueued (us : list Update) (d : SelectedData) :
  us ≠ [] → updated_set (enqueued us d) = enqueued us d.
Proof. by destruct us. Qed.

(** C3, as the code has it. [expunge_mailbox] removes the messages that
    are deleted in the view of the selection (and in the UID set, when
    there is one) from the highest sequence number down: [expunged]
    collects them in that order, each under the sequence number it has
    when it is removed, which is its sequence number before the call.
    Every registered selection then gets one [Expunge] for each of
    them, with that sequence number, in ascending order of the sequence
    numbers, and is signalled; nothing is queued when nothing is
    removed. *)
Theorem expunge_mailbox_order (self : SessionSelf) (st : State)
    (selected : SelectedMailbox) (uid_set : option SequenceSet)
    (m : MailboxState) (mbx : Mailbox) :
  mailboxes st !! name selected = Some m →
  self_mailboxes self !! name selected = Some mbx →
  mailbox_wf m →
  let sf := flags_of (selections st) selected in
  let items := expunged_items (doomed sf m uid_set) 0 (messages m) in
  let m' := set_messages (filter (λ x, doomed sf m uid_set x = false) (messages m)) m in
  StronglySorted (λ a b, a.1 < b.1) items
  ∧ for_each (expunge_body sf) (expunge_candidates m uid_set) (m, [])
    = (m', reverse items, None)
  ∧ ∃ st',
      expunge_mailbox self st selected uid_set = (st', Ok selected)
      ∧ mailboxes st' = <[name selected := m']> (mailboxes st)
      ∧ ∀ sid, selections st' !! sid
               = if decide (sid ∈ sessions m)
                 then enqueued (Expunge <$> items.*1) <$> selections st !! sid
                 else selections st !! sid.
Proof.
  intros Hm Hmbx Hwf sf items m'.
  assert (Hloop : for_each (expunge_body sf) (expunge_candidates m uid_set) (m, [])
                  = (m', reverse items, None)).
  { rewrite (expunge_candidates_positions m uid_set Hwf).
    pose proof (expunge_loop_spec sf
                  (λ x, match uid_set with
                        | None => true
                        | Some us => bool_decide (uid x ∈ SequenceSet_iter us (highest_uid m))
                        end) (messages m) m [] (Forall_nil_2 _)) as H.
    cbn zeta in H. replace (set_messages (messages m) m) with m in H by (by destruct m).
    exact H. }
  split; [apply expunged_items_keys_sorted|]. split; [exact Hloop|].
  unfold expunge_mailbox, _check_selected.
  rewrite decide_True by (apply elem_of_dom; eauto). rewrite Hmbx, Hm.
  fold sf. rewrite Hloop.
  destruct (reverse items) as [|kv rest] eqn:Hrev.
  - eexists. split; [reflexivity|]. split; [done|]. intros sid. cbn.
    assert (items = []) as ->.
    { apply (f_equal reverse) in Hrev. by rewrite reverse_involutive in Hrev. }
    cbn. case_decide; [|done]. by destruct (selections st !! sid).
  - eexists. split; [reflexivity|]. split; [done|]. intros sid. cbn.
    rewrite for_sessions_lookup. case_decide; [|done].
    destruct (selections st !! sid) as [d|]; [|done]. cbn. f_equal.
    unfold expunge_notify. rewrite <- Hrev.
    rewrite sorted_expunged_reverse by apply expunged_items_keys_sorted.
    rewrite foldl_remove_message. apply updated_set_enqueued.
    intros Hnil. apply fmap_nil_inv, fmap_nil_inv in Hnil.
    fold items in Hnil. rewrite Hnil in Hrev. done.
Qed.

End SessionFacts.


(** ** The theorems on the states of the examples *)

Lemma st0_wf : Session.state_wf Examples.st0.
Proof.
  intros nm m H. unfold Examples.st0 in H. cbn in H.
  apply lookup_singleton_Some in H as [_ <-].
  split; cbn;
    repeat first [apply SSorted_nil | apply SSorted_cons
                 | apply Forall_nil_2 | apply Forall_cons_2 | cbn; lia].
Qed.

Lemma sessions_of_inbox (sid : nat) :
  sid ∈ Session.sessions Examples.inbox ↔ sid = 1 ∨ sid = 2.
Proof. cbn. rewrite elem_of_union, !elem_of_singleton. tauto. Qed.

(** C1 on the mailbox of the examples, for an expunge. *)
Lemma uids_increase_next_uid_never_decreases_witness :
  let st' := (Session.run (Session.OpExpunge Examples.sel1 None)
                          Examples.self1 Examples.st0).2 in
  Session.state_wf st'
  ∧ ∀ nm m m',
      Session.mailboxes Examples.st0 !! nm = Some m →
      Session.mailboxes st' !! nm = Some m' →
      Session.next_uid m ≤ Session.next_uid m'
      ∧ (Session.allocates (Session.OpExpunge Examples.sel1 None) = false →
         Session.next_uid m' = Session.next_uid m).
Proof.
  exact (uids_increase_next_uid_never_decreases
           (Session.OpExpunge Examples.sel1 None) Examples.self1 Examples.st0 st0_wf).
Defined.

(** C3 on the mailbox of the examples: UIDs 101 to 104, with 102 and 104
    deleted, and the selections 1 and 2. *)
Lemma expunge_mailbox_order_witness :
  ∃ st',
    Session.expunge_mailbox Examples.self1 Examples.st0 Examples.sel1 None
    = (st', Ok Examples.sel1)
    ∧ ∀ sid, Session.selections st' !! sid
             = if decide (sid ∈ Session.sessions Examples.inbox)
               then Session.enqueued [Session.Expunge 2; Session.Expunge 4]
                      <$> Session.selections Examples.st0 !! sid
               else Session.selections Examples.st0 !! sid.
Proof.
  destruct (expunge_mailbox_order Examples.self1 Examples.st0 Examples.sel1 None
              Examples.inbox (Session.mkMailbox false) eq_refl eq_refl
              (st0_wf "INBOX"%string Examples.inbox eq_refl))
    as (_ & _ & st' & H1 & _ & H3).
  exists st'. split; [exact H1 | exact H3].
Defined.

(** C3 as it is stated fails there: the selection 2 gets [Expunge 2]
    before [Expunge 4]. *)
Lemma expunge_mailbox_order_counterexample :
  Session.pending
    <$> Session.selections
          (Session.expunge_mailbox Examples.self1 Examples.st0 Examples.sel1 None).1 !! 2
  = Some [Session.Expunge 2; Session.Expunge 4]
  ∧ Session.pending
      <$> Session.selections
            (Session.expunge_mailbox Examples.self1 Examples.st0 Examples.sel1 None).1 !! 2
    ≠ Some [Session.Expunge 4; Session.Expunge 2].
Proof.
  assert (H : Session.pending
    <$> Session.selections
          (Session.expunge_mailbox Examples.self1 Examples.st0 Examples.sel1 None).1 !! 2
    = Some [Session.Expunge 2; Session.Expunge 4]) by (vm_compute; reflexivity).
  split; [exact H|]. rewrite H. discriminate.
Qed.

(** C4 on the mailbox of the examples, with the selections 1 and 2. *)
Lemma append_messages_notifies_witness :
  ∃ st' upd,
    Session.append_messages Examples.self1 Examples.st0 "INBOX" Examples.one_message None
    = (st', Ok (Session.mkAppendUid 7 [105], upd))
    ∧ ∀ sid, sid ∈ Session.sessions Examples.inbox →
        Session.selections st' !! sid
        = Session.enqueued [Session.Exists 5; Session.Fetch 5 {[Session.Seen]}]
            <$> Session.selections Examples.st0 !! sid.
Proof.
  destruct (append_messages_notifies Examples.self1 Examples.st0 "INBOX"
              Examples.one_message None Examples.inbox eq_refl)
    as (st' & m' & upd & H1 & _ & _ & _ & H5 & _).
  exists st', upd. split; [exact H1|]. apply H5.
  intros He. assert (Hin : 1 ∈ Session.sessions Examples.inbox) by (apply sessions_of_inbox; auto).
  rewrite He in Hin. by apply not_elem_of_empty in Hin.
Defined.

(** C5 on the mailbox of the examples, copied into itself: the message
    with the UID 101 gets the UID 105, and [CopyUid] reports both. *)
Lemma copy_messages_recent_witness :
  let r := Session.copy_messages Examples.self1 Examples.st0 Examples.sel1
                                 Examples.seq_1 "INBOX" in
  ∃ (d' : Session.MailboxState) (results : list (nat * Session.Message))
    (source_uids : list nat),
    Session.mailboxes r.1 !! "INBOX"%string = Some d'
    ∧ Session.messages d' = Session.messages Examples.inbox ++ results.*2
    ∧ source_uids = [101]
    ∧ (λ x, Session.uid x.2) <$> results = [105]
    ∧ r.2 = Ok (Some (Session.mkCopyUid 7 source_uids ((λ x, Session.uid x.2) <$> results)),
                Examples.sel1)
    ∧ ∀ u, u ∈ (λ x, Session.uid x.2) <$> results →
           (u ∈ Session.recent d' ↔ Session.sessions Examples.inbox = ∅).
Proof.
  intros r.
  assert (Hcopy :
    Session.copy_messages Examples.self1 Examples.st0 Examples.sel1 Examples.seq_1 "INBOX"
    = ((Session.copy_messages Examples.self1 Examples.st0 Examples.sel1
                              Examples.seq_1 "INBOX").1,
       Ok (Some (Session.mkCopyUid 7 [101] [105]), Examples.sel1)))
    by (vm_compute; reflexivity).
  assert (Hreg : ∀ sid, sid ∈ Session.sessions Examples.inbox →
                        is_Some (Session.selections Examples.st0 !! sid)).
  { intros sid [-> | ->]%sessions_of_inbox; by eexists. }
  destruct (copy_messages_recent _ _ _ _ _ _ _ _ Examples.inbox Hcopy eq_refl Hreg)
    as (d' & results & srcs & H1 & H2 & H3 & H4 & _ & _ & _ & H8 & H9 & _).
  assert (Hs : srcs = [101]).
  { rewrite (H8 Examples.inbox eq_refl); [vm_compute; reflexivity|].
    right. vm_compute. repeat constructor. eexists. reflexivity. }
  assert (Hdest : (λ x, Session.uid x.2) <$> results = [105]).
  { rewrite H3, <- H4, Hs. reflexivity. }
  exists d', results, srcs.
  split; [exact H1|]. split; [exact H2|]. split; [exact Hs|]. split; [exact Hdest|].
  split; [|exact H9].
  unfold r. rewrite Hcopy, Hs, Hdest. reflexivity.
Defined.

(** C5 as it is stated fails there: of the two selections on the
    destination, the selection 1 does not get [\Recent] for the new
    UID 105. *)
Lemma copy_messages_recent_counterexample :
  let r := Session.copy_messages Examples.self1 Examples.st0 Examples.sel1
                                 Examples.seq_1 "INBOX" in
  r.2 = Ok (Some (Session.mkCopyUid 7 [101] [105]), Examples.sel1)
  ∧ ¬ (∀ sid d, sid ∈ Session.sessions Examples.inbox →
                Session.selections r.1 !! sid = Some d →
                105 ∈ Session.sf_recent (Session.session_flags d)).
Proof.
  intros r. split; [vm_compute; reflexivity|]. intros H.
  assert (E : (λ d, bool_decide (105 ∈ Session.sf_recent (Session.session_flags d)))
                <$> Session.selections r.1 !! 1 = Some false) by (vm_compute; reflexivity).
  destruct (Session.selections r.1 !! 1) as [d|] eqn:Hd; [|discriminate].
  cbn in E. injection E as E. apply bool_decide_eq_false in E.
  apply E, (H 1 d); [apply sessions_of_inbox; auto | done].
Qed.

(** C9 on the mailbox of the examples: the selection 1 adds [\Seen] to
    the messages 1 and 2, and the selection 2 is told of both. *)
Lemma update_flags_skips_caller_witness :
  let r := Session.update_flags Examples.self1 Examples.st0 Examples.sel1
                                Examples.seq_1_2 {[Session.Seen]} Session.ADD in
  r.2 = Ok ([(1, Examples.msg 101 {[Session.Seen]});
             (2, Examples.msg 102 {[Session.Deleted; Session.Seen]})], Examples.sel1)
  ∧ Session.selections r.1 !! 1 = Session.selections Examples.st0 !! 1
  ∧ Session.selections r.1 !! 2
    = Some (Session.mkSelectedData (Session.mkSessionFlags ∅ ∅)
              [Session.Fetch 1 {[Session.Seen]};
               Session.Fetch 2 {[Session.Deleted; Session.Seen]}] true).
Proof.
  intros r.
  destruct (update_flags_skips_caller Examples.self1 Examples.st0 Examples.sel1
              Examples.seq_1_2 {[Session.Seen]} Session.ADD) as [_ H].
  destruct (H Examples.inbox (Session.mkMailbox false) eq_refl eq_refl)
    as (H1 & H2 & _ & H4 & _).
  split; [|split; [exact H2|]].
  - unfold r. rewrite H1. vm_compute. reflexivity.
  - unfold r. rewrite (H4 2 Examples.no_data).
    + vm_compute. reflexivity.
    + apply sessions_of_inbox. right. reflexivity.
    + discriminate.
    + reflexivity.
    + intros E. vm_compute in E. discriminate E.
Defined.

(** C7 at the failing input: after [rename_mailbox('INBOX', 'Archive')]
    the messages are under [Archive] and there is no INBOX any more. *)
Lemma rename_inbox_removes_inbox :
  let r := Session.rename_mailbox Examples.st_alone "INBOX" "Archive" None in
  r.2 = Ok None
  ∧ Session.mailboxes r.1 !! "INBOX"%string = None
  ∧ Session.mailboxes r.1 !! "Archive"%string = Some Examples.inbox_alone.
Proof. vm_compute. done. Qed.

(** C8 at the failing input: with the mailboxes INBOX, A and A.B,
    [delete_mailbox('A')] returns and removes A, and A.B stays. *)
Lemma delete_mailbox_with_children :
  let r := Session.delete_mailbox Examples.self1 Examples.st_tree "A" None in
  r.2 = Ok None
  ∧ Session.mailboxes r.1.2 !! "A"%string = None
  ∧ Session.mailboxes r.1.2 !! "A.B"%string = Some Examples.target.
Proof. vm_compute. done. Qed.

(** * The STATUS attribute: what is proved *)

Section StatusAttributeFacts.

Import StatusAttribute.








Variable Space_parse : string → Result (unit * string).
Variable Atom_parse : string → Result (string * string).
Variable hash : string → Z.


End StatusAttributeFacts.


(** * The session backend: more of what is proved *)

Section MoreSessionFacts.

Import Session.

Lemma state_eq (st : State) (mb : gmap string MailboxState) (h : gmap nat SelectedData) :
  mb = mailboxes st → h = selections st → mkState mb h = st.
Proof. destruct st. cbn. by intros -> ->. Qed.

Lemma _get_updates_dom (st st' : State) (selected : option SelectedMailbox) :
  dom (mailboxes st') = dom (mailboxes st) →
  _get_updates st' selected = _get_updates st selected.
Proof. intros H. unfold _get_updates. destruct selected; [|done]. by rewrite H. Qed.

(** X1. [delete_mailbox] of a name that is not a mailbox raises
    [MailboxNotFound] and changes nothing.  Of a mailbox, it removes
    that entry, and no other, from the mailboxes of the state and from
    the mailboxes of the session, keeps the user and the selections,
    and returns the selection it was given, or [None] when that
    selection is on the deleted mailbox or on no mailbox. *)
Theorem delete_mailbox_removes_one (self : SessionSelf) (st : State) (nm : string)
    (selected : option SelectedMailbox) :
  (mailboxes st !! nm = None →
     delete_mailbox self st nm selected = (self, st, Raise (MailboxNotFound nm)))
  ∧ (is_Some (mailboxes st !! nm) →
     ∃ self' st' upd,
       delete_mailbox self st nm selected = (self', st', Ok upd)
       ∧ mailboxes st' = delete nm (mailboxes st)
       ∧ self_mailboxes self' = delete nm (self_mailboxes self)
       ∧ user self' = user self
       ∧ selections st' = selections st
       ∧ upd = match selected with
               | Some sel => if decide (name sel = nm) then None else _get_updates st selected
               | None => None
               end).
Proof.
  unfold delete_mailbox. split.
  - intros H. rewrite decide_False; [done|]. by rewrite not_elem_of_dom.
  - intros H. rewrite decide_True by (by apply elem_of_dom).
    eexists _, _, _. split; [reflexivity|]. cbn. repeat split.
    destruct selected as [sel|]; [|done]. cbn. rewrite dom_delete_L.
    destruct (decide (name sel = nm)) as [->|Hne].
    + rewrite decide_False; [done|]. set_solver.
    + destruct (decide (name sel ∈ dom (mailboxes st))).
      * rewrite decide_True; [done|]. set_solver.
      * rewrite decide_False; [done|]. set_solver.
Qed.

(** X2. [rename_mailbox] checks the new name first: when it is a
    mailbox (also when both names are the same mailbox) it raises
    [MailboxConflict] on the new name; otherwise, when the old name is
    not a mailbox, [MailboxNotFound] on the old name; in both cases the
    state is unchanged.  Otherwise the mailbox is moved as it is under
    the new name, the old name is free, no other name and no selection
    changes, and renaming back gives the first state again. *)
Theorem rename_mailbox_moves (st : State) (before_name after_name : string)
    (selected : option SelectedMailbox) :
  (is_Some (mailboxes st !! after_name) →
     rename_mailbox st before_name after_name selected
     = (st, Raise (MailboxConflict after_name)))
  ∧ (mailboxes st !! after_name = None → mailboxes st !! before_name = None →
     rename_mailbox st before_name after_name selected
     = (st, Raise (MailboxNotFound before_name)))
  ∧ (∀ m, mailboxes st !! after_name = None → mailboxes st !! before_name = Some m →
     ∃ st' upd,
       rename_mailbox st before_name after_name selected = (st', Ok upd)
       ∧ mailboxes st' !! after_name = Some m
       ∧ mailboxes st' !! before_name = None
       ∧ (∀ k, k ≠ before_name → k ≠ after_name → mailboxes st' !! k = mailboxes st !! k)
       ∧ selections st' = selections st
       ∧ (rename_mailbox st' after_name before_name None).1 = st).
Proof.
  unfold rename_mailbox. split; [|split].
  - intros [m ->]. done.
  - intros -> ->. done.
  - intros m Ha Hb. rewrite Ha, Hb.
    assert (Hne : before_name ≠ after_name) by congruence.
    eexists _, _. split; [reflexivity|]. cbn.
    split; [by rewrite lookup_delete_ne, lookup_insert_eq|].
    split; [by rewrite lookup_delete_eq|].
    split; [by intros k H1 H2; rewrite lookup_delete_ne, lookup_insert_ne|].
    split; [done|].
    rewrite lookup_delete_eq, lookup_delete_ne, lookup_insert_eq by done. cbn.
    apply state_eq; [|done]. apply map_eq. intros k.
    destruct (decide (k = after_name)) as [->|H1].
    { by rewrite lookup_delete_eq. }
    rewrite lookup_delete_ne by done.
    destruct (decide (k = before_name)) as [->|H2].
    { by rewrite lookup_insert_eq. }
    by rewrite lookup_insert_ne, lookup_delete_ne, lookup_insert_ne.
Qed.

(** X3. [subscribe] and [unsubscribe] raise [MailboxNotFound] for a
    name that is not a mailbox and change nothing.  For a mailbox they
    set its [subscribed] mark to true and to false and change nothing
    else; the last call decides: to subscribe twice is to subscribe
    once, to unsubscribe after subscribing is to unsubscribe, and to
    subscribe after unsubscribing is to subscribe. *)
Theorem subscribe_unsubscribe_compose (st : State) (nm : string)
    (selected : option SelectedMailbox) :
  (mailboxes st !! nm = None →
     subscribe st nm selected = (st, Raise (MailboxNotFound nm))
     ∧ unsubscribe st nm selected = (st, Raise (MailboxNotFound nm)))
  ∧ (∀ m, mailboxes st !! nm = Some m →
     let st1 := (subscribe st nm selected).1 in
     let st0 := (unsubscribe st nm selected).1 in
     subscribe st nm selected = (st1, Ok (_get_updates st selected))
     ∧ unsubscribe st nm selected = (st0, Ok (_get_updates st selected))
     ∧ st1 = mkState (<[nm := set_subscribed true m]> (mailboxes st)) (selections st)
     ∧ st0 = mkState (<[nm := set_subscribed false m]> (mailboxes st)) (selections st)
     ∧ (subscribe st1 nm selected).1 = st1
     ∧ (unsubscribe st1 nm selected).1 = st0
     ∧ (subscribe st0 nm selected).1 = st1).
Proof.
  split.
  - intros H. unfold subscribe, unsubscribe.
    rewrite !decide_False; [done| |]; by rewrite not_elem_of_dom.
  - intros m Hm.
    assert (Hsub : ∀ b st2 m2, mailboxes st2 !! nm = Some m2 →
              alter (set_subscribed b) nm (mailboxes st2) = <[nm := set_subscribed b m2]> (mailboxes st2)).
    { intros b st2 m2 H2. apply map_eq. intros k. destruct (decide (k = nm)) as [->|Hne].
      - by rewrite lookup_alter_eq, lookup_insert_eq, H2.
      - by rewrite lookup_alter_ne, lookup_insert_ne. }
    unfold subscribe, unsubscribe. rewrite !decide_True by (apply elem_of_dom; eauto).
    cbn. rewrite !(Hsub _ st m Hm).
    split; [f_equal; f_equal; apply _get_updates_dom; cbn;
            rewrite dom_insert_L; apply elem_of_dom_2 in Hm; set_solver|].
    split; [f_equal; f_equal; apply _get_updates_dom; cbn;
            rewrite dom_insert_L; apply elem_of_dom_2 in Hm; set_solver|].
    split; [done|]. split; [done|].
    rewrite !decide_True by (cbn; rewrite dom_insert_L; set_solver). cbn.
    unfold set_mailboxes. cbn.
    rewrite !lookup_alter_eq || idtac.
    repeat split; f_equal; apply map_eq; intros k;
      (destruct (decide (k = nm)) as [->|Hne];
       [rewrite lookup_alter_eq, !lookup_insert_eq; done
       |rewrite lookup_alter_ne, !lookup_insert_ne by done; done]).
Qed.

(** X8. After [delete_mailbox] of the mailbox of a selection, every
    method that takes the selection raises [MailboxNotFound] with the
    name of the mailbox and leaves the state as it is: [expunge_mailbox],
    [copy_messages], [update_flags], [fetch_messages] and
    [check_mailbox], which does not wait then, even with [block]. *)
Theorem deleted_mailbox_is_not_found (self : SessionSelf) (st : State)
    (selected : SelectedMailbox) (other : option SelectedMailbox)
    (sequences : SequenceSet) (uid_set : option SequenceSet)
    (mailbox : string) (flag_set : gset Flag) (mode : FlagOp)
    (attributes : gset string) (block housekeeping : bool) :
  let self' := (delete_mailbox self st (name selected) other).1.1 in
  let st' := (delete_mailbox self st (name selected) other).1.2 in
  let e := MailboxNotFound (name selected) in
  expunge_mailbox self' st' selected uid_set = (st', Raise e)
  ∧ copy_messages self' st' selected sequences mailbox = (st', Raise e)
  ∧ update_flags self' st' selected sequences flag_set mode = (st', Raise e)
  ∧ fetch_messages self' st' selected sequences attributes = Raise e
  ∧ check_mailbox self' st' selected block housekeeping = (st', Ready (Raise e)).
Proof.
  intros self' st' e.
  assert (H : name selected ∉ dom (mailboxes st')).
  { unfold st', delete_mailbox. case_decide; cbn; [|done].
    rewrite dom_delete_L. set_solver. }
  unfold expunge_mailbox, copy_messages, update_flags, fetch_messages, check_mailbox,
    _check_selected.
  rewrite !decide_False by done. done.
Qed.

Lemma insert_sorted_Permutation {A} (le : A → A → bool) (x : A) (l : list A) :
  insert_sorted le x l ≡ₚ x :: l.
Proof.
  induction l as [|y l IH]; cbn; [done|].
  destruct (le x y); [done|]. rewrite IH. apply Permutation_swap.
Qed.

Lemma sorted_Permutation {A} (le : A → A → bool) (l : list A) : sorted le l ≡ₚ l.
Proof.
  unfold sorted. induction l as [|x l IH]; cbn; [done|].
  by rewrite insert_sorted_Permutation, IH.
Qed.

Lemma insert_sorted_Sorted {A} (le : A → A → bool) (x : A) (l : list A) :
  (∀ a b, le a b = true ∨ le b a = true) →
  Sorted (λ a b, le a b = true) l → Sorted (λ a b, le a b = true) (insert_sorted le x l).
Proof.
  intros Htot. induction 1 as [|y l Hl IH Hy]; cbn; [by repeat constructor|].
  destruct (le x y) eqn:E.
  - constructor; [by constructor|]. by constructor.
  - constructor; [done|].
    assert (Hyx : le y x = true) by (destruct (Htot x y); congruence).
    destruct l as [|z l]; cbn; [by constructor|].
    destruct (le x z); constructor; [done|]. by inversion Hy.
Qed.

Lemma sorted_Sorted {A} (le : A → A → bool) (l : list A) :
  (∀ a b, le a b = true ∨ le b a = true) →
  Sorted (λ a b, le a b = true) (sorted le l).
Proof.
  intros Htot. unfold sorted. induction l as [|x l IH]; cbn; [constructor|].
  by apply insert_sorted_Sorted.
Qed.

(** X4. The names that [list_mailboxes] returns are in ascending order
    and without repetition, every entry has the separator [.] and no
    attribute, and the names are: with [subscribed], those of the
    subscribed mailboxes and INBOX, whether INBOX exists and is
    subscribed or not; without it, those of all the mailboxes.  The
    reference name and the filter are not read. *)
Theorem list_mailboxes_sorted_complete (st : State) (ref_name filter_ : string)
    (subscribed_ : bool) (selected : option SelectedMailbox) :
  let listed := (list_mailboxes st ref_name filter_ subscribed_ selected).1 in
  let names := (λ t, t.1.1) <$> listed in
  Sorted (λ a b, String.leb a b = true) names
  ∧ NoDup names
  ∧ (∀ t, t ∈ listed → t.1.2 = "."%string ∧ t.2 = [])
  ∧ (∀ nm, nm ∈ names ↔
           if subscribed_
           then (∃ m, mailboxes st !! nm = Some m ∧ subscribed m = true) ∨ nm = "INBOX"%string
           else is_Some (mailboxes st !! nm)).
Proof.
  intros listed names. unfold listed, list_mailboxes in *. cbn in names.
  set (ns := (if subscribed_
              then dom (filter (λ kv, subscribed kv.2 = true) (mailboxes st)) ∪ {["INBOX"%string]}
              else dom (mailboxes st)) : gset string) in *.
  assert (Hn : names = sorted String.leb (elements ns)).
  { unfold names. cbn. rewrite <- list_fmap_compose. apply list_fmap_id. }
  rewrite Hn. split; [apply sorted_Sorted, String.leb_total|].
  split; [rewrite sorted_Permutation; apply NoDup_elements|].
  split.
  - cbn. intros t Ht. apply list_elem_of_fmap in Ht as (nm & -> & _). done.
  - intros nm. rewrite sorted_Permutation, elem_of_elements. unfold ns.
    destruct subscribed_.
    + rewrite elem_of_union, elem_of_singleton, elem_of_dom. split.
      * intros [[m Hm]|H]; [|by right]. left.
        apply map_lookup_filter_Some in Hm as [Hm Hs]. eauto.
      * intros [(m & Hm & Hs)|H]; [|by right]. left. exists m.
        by apply map_lookup_filter_Some.
    + by rewrite elem_of_dom.
Qed.

End MoreSessionFacts.

Section MoreSessionFacts2.

Import Session.

(** The loop of [append_messages] does not depend on the UIDs it has
    collected so far. *)
Lemma append_loop_uids (perm : gset Flag) (msgs : list AppendMessage)
    (m : MailboxState) (h : gmap nat SelectedData) (us : list nat) :
  foldl (append_body perm) (m, h, us) msgs
  = ((foldl (append_body perm) (m, h, []) msgs).1.1,
     (foldl (append_body perm) (m, h, []) msgs).1.2,
     us ++ seq (next_uid m) (length msgs)).
Proof.
  destruct (append_loop perm msgs m h us) as (h1 & -> & H1).
  destruct (append_loop perm msgs m h []) as (h2 & -> & H2). cbn.
  f_equal. f_equal. apply map_eq. intros sid. by rewrite H1, H2.
Qed.

(** X5. To append two batches of messages one after the other leaves
    the same state as to append them in one call, and the UIDs are the
    consecutive numbers from the next UID of the mailbox on: the first
    batch gets [next_uid .. next_uid + n1 - 1], the second the [n2]
    numbers after them, and the single call the two lists in a row,
    all with the UID validity of the mailbox. *)
Theorem append_messages_batches (self : SessionSelf) (st : State) (nm : string)
    (msgs1 msgs2 : list AppendMessage) (selected : option SelectedMailbox)
    (m : MailboxState) :
  mailboxes st !! nm = Some m →
  let r1 := append_messages self st nm msgs1 selected in
  let r2 := append_messages self r1.1 nm msgs2 selected in
  let r := append_messages self st nm (msgs1 ++ msgs2) selected in
  r.1 = r2.1
  ∧ ∃ upd1 upd2 upd,
      r1.2 = Ok (mkAppendUid (uid_validity m) (seq (next_uid m) (length msgs1)), upd1)
      ∧ r2.2 = Ok (mkAppendUid (uid_validity m)
                     (seq (next_uid m + length msgs1) (length msgs2)), upd2)
      ∧ r.2 = Ok (mkAppendUid (uid_validity m)
                    (seq (next_uid m) (length msgs1) ++
                     seq (next_uid m + length msgs1) (length msgs2)), upd).
Proof.
  intros Hm.
  assert (Hcall : ∀ st0 m0 msgs, mailboxes st0 !! nm = Some m0 →
    append_messages self st0 nm msgs selected
    = (let '(m', h', msg_uids) :=
         foldl (append_body (permanent_flags m0)) (m0, selections st0, []) msgs in
       let st' := mkState (<[nm := m']> (mailboxes st0)) h' in
       (st', Ok (mkAppendUid (uid_validity m') msg_uids,
                 _get_updates st' (_get_updates st0 selected))))).
  { intros st0 m0 msgs H0. unfold append_messages, _get_mailbox.
    rewrite decide_True by (apply elem_of_dom; eauto). rewrite H0.
    by destruct (self_mailboxes self !! nm). }
  cbn zeta. rewrite (Hcall st m (msgs1 ++ msgs2) Hm), (Hcall st m msgs1 Hm).
  rewrite foldl_app.
  destruct (append_loop (permanent_flags m) msgs1 m (selections st) []) as (h1 & E1 & _).
  rewrite E1. cbn [fst snd].
  set (m1 := mkMailboxState _ _ _ _ _ _ _) in *.
  rewrite (Hcall _ m1 msgs2) by (cbn; by rewrite lookup_insert_eq).
  cbn [mailboxes selections]. rewrite (append_loop_uids _ msgs2 m1 h1).
  change (permanent_flags m1) with (permanent_flags m).
  destruct (append_loop (permanent_flags m) msgs2 m1 h1 []) as (h2 & E2 & _).
  rewrite E2. cbn. rewrite insert_insert_eq. split; [done|].
  eexists _, _, _. repeat split.
Qed.


Lemma expunged_items_none (P : Message → bool) (n : nat) (l : list Message) :
  Forall (λ x, P x = false) l → expunged_items P n l = [].
Proof.
  intros H. revert n. induction H as [|x l Hx Hl IH]; intros n; cbn; [done|].
  by rewrite Hx, IH.
Qed.

Lemma flags_of_for_sessions (ss : gset nat) (us : list Update)
    (h : gmap nat SelectedData) (selected : SelectedMailbox) :
  flags_of (for_sessions ss (λ _ d, enqueued us d) h) selected = flags_of h selected.
Proof.
  unfold flags_of. rewrite for_sessions_lookup. case_decide; [|done].
  destruct (h !! sel_id selected) as [d|]; [|done]. cbn. by destruct us.
Qed.

(** [expunge_mailbox] on a well-formed mailbox, in closed form. *)
Lemma expunge_mailbox_closed (self : SessionSelf) (st : State)
    (selected : SelectedMailbox) (uid_set : option SequenceSet)
    (m : MailboxState) (mbx : Mailbox) :
  mailboxes st !! name selected = Some m →
  self_mailboxes self !! name selected = Some mbx →
  mailbox_wf m →
  let sf := flags_of (selections st) selected in
  let items := expunged_items (doomed sf m uid_set) 0 (messages m) in
  let m' := set_messages (filter (λ x, doomed sf m uid_set x = false) (messages m)) m in
  expunge_mailbox self st selected uid_set
  = (mkState (<[name selected := m']> (mailboxes st))
             (for_sessions (sessions m) (λ _ d, enqueued (Expunge <$> items.*1) d)
                           (selections st)),
     Ok selected).
Proof.
  intros Hm Hmbx Hwf sf items m'.
  assert (Hloop : for_each (expunge_body sf) (expunge_candidates m uid_set) (m, [])
                  = (m', reverse items, None)).
  { rewrite (expunge_candidates_positions m uid_set Hwf).
    pose proof (expunge_loop_spec sf
                  (λ x, match uid_set with
                        | None => true
                        | Some us => bool_decide (uid x ∈ SequenceSet_iter us (highest_uid m))
                        end) (messages m) m [] (Forall_nil_2 _)) as H.
    cbn zeta in H. replace (set_messages (messages m) m) with m in H by (by destruct m).
    exact H. }
  unfold expunge_mailbox, _check_selected.
  rewrite decide_True by (apply elem_of_dom; eauto). rewrite Hmbx, Hm.
  fold sf. rewrite Hloop.
  destruct (reverse items) as [|kv rest] eqn:Hrev.
  - assert (items = []) as ->.
    { apply (f_equal reverse) in Hrev. by rewrite reverse_involutive in Hrev. }
    f_equal. f_equal. apply map_eq. intros sid. rewrite for_sessions_lookup.
    case_decide; [|done]. by destruct (selections st !! sid).
  - f_equal. f_equal. apply map_eq. intros sid. rewrite !for_sessions_lookup.
    change (sessions m') with (sessions m).
    destruct (decide (sid ∈ sessions m)); [|done].
    destruct (selections st !! sid) as [d|]; [|done]. cbn. f_equal.
    unfold expunge_notify. rewrite <- Hrev.
    rewrite sorted_expunged_reverse by apply expunged_items_keys_sorted.
    rewrite foldl_remove_message. apply updated_set_enqueued.
    intros Hnil. apply fmap_nil_inv, fmap_nil_inv in Hnil.
    fold items in Hnil. rewrite Hnil in Hrev. done.
Qed.

(** X6. On a mailbox with increasing UIDs, [expunge_mailbox] leaves
    the messages that were not to be expunged, in their order, and
    changes neither the next UID nor the UID validity; a second
    [expunge_mailbox] with the same arguments returns the selection and
    changes nothing, no update is queued again. *)
Theorem expunge_mailbox_twice (self : SessionSelf) (st : State)
    (selected : SelectedMailbox) (uid_set : option SequenceSet)
    (m : MailboxState) (mbx : Mailbox) :
  mailboxes st !! name selected = Some m →
  self_mailboxes self !! name selected = Some mbx →
  mailbox_wf m →
  let st1 := (expunge_mailbox self st selected uid_set).1 in
  expunge_mailbox self st1 selected uid_set = (st1, Ok selected)
  ∧ ∃ m1, mailboxes st1 !! name selected = Some m1
          ∧ messages m1
            = filter (λ x, doomed (flags_of (selections st) selected) m uid_set x = false)
                     (messages m)
          ∧ next_uid m1 = next_uid m
          ∧ uid_validity m1 = uid_validity m.
Proof.
  intros Hm Hmbx Hwf st1.
  pose proof (expunge_mailbox_closed self st selected uid_set m mbx Hm Hmbx Hwf) as H1.
  cbn zeta in H1. unfold st1. rewrite H1. cbn [fst].
  set (sf := flags_of (selections st) selected) in *.
  set (m1 := set_messages (filter (λ x, doomed sf m uid_set x = false) (messages m)) m) in *.
  set (items := expunged_items (doomed sf m uid_set) 0 (messages m)) in *.
  assert (Hwf1 : mailbox_wf m1).
  { apply (wf_sublist m); [apply sublist_filter | done | done]. }
  split.
  - rewrite (expunge_mailbox_closed self _ selected uid_set m1 mbx);
      [|cbn; by rewrite lookup_insert_eq|done|done].
    cbn [mailboxes selections]. rewrite flags_of_for_sessions. fold sf.
    assert (Hd : ∀ x, doomed sf m1 uid_set x = doomed sf m uid_set x) by done.
    assert (Hf : filter (λ x, doomed sf m1 uid_set x = false) (messages m1) = messages m1).
    { cbn. rewrite list_filter_filter. apply list_filter_iff. intros x. rewrite Hd. tauto. }
    rewrite Hf.
    assert (Hi : expunged_items (doomed sf m1 uid_set) 0 (messages m1) = []).
    { apply expunged_items_none. cbn. apply Forall_forall. intros x Hx.
      by apply list_elem_of_filter in Hx as [Hx _]. }
    rewrite Hi. cbn [fmap list_fmap].
    f_equal. f_equal.
    + rewrite insert_insert_eq. done.
    + apply map_eq. intros sid. rewrite for_sessions_lookup. case_decide; [|done].
      by destruct (for_sessions _ _ _ !! sid).
  - exists m1. cbn. split; [by rewrite lookup_insert_eq|]. done.
Qed.



(** X7. [copy_messages] into a name that is not a mailbox raises
    [MailboxNotFound] with that name and changes nothing.  When it
    copies into another mailbox than the selected one, the selected
    mailbox is unchanged, the destination gets the copies after its
    messages, every copy has the contents and the internal date of the
    message of the source whose UID is reported for it, and the result
    is [None] when nothing was copied and otherwise the UID validity of
    the destination with the UIDs of the sources and of the copies. *)
Theorem copy_messages_copies_contents (self : SessionSelf) (st : State)
    (selected : SelectedMailbox) (sequences : SequenceSet) (mailbox : string)
    (src : MailboxState) (mbx : Mailbox) :
  mailboxes st !! name selected = Some src →
  self_mailboxes self !! name selected = Some mbx →
  (mailboxes st !! mailbox = None →
     copy_messages self st selected sequences mailbox
     = (st, Raise (MailboxNotFound mailbox)))
  ∧ (∀ dst st' copy_uid sel',
       mailboxes st !! mailbox = Some dst → name selected ≠ mailbox →
       copy_messages self st selected sequences mailbox = (st', Ok (copy_uid, sel')) →
       sel' = selected
       ∧ mailboxes st' !! name selected = Some src
       ∧ ∃ (d' : MailboxState) (copies : list Message) (source_uids : list nat),
           mailboxes st' !! mailbox = Some d'
           ∧ messages d' = messages dst ++ copies
           ∧ Forall2 (λ s c, ∃ msg, msg ∈ messages src ∧ uid msg = s
                                    ∧ contents c = contents msg
                                    ∧ internal_date c = internal_date msg)
                     source_uids copies
           ∧ copy_uid = match copies with
                        | [] => None
                        | _ => Some (mkCopyUid (uid_validity dst) source_uids (uid <$> copies))
                        end).
Proof.
  intros Hsrc Hmbx. split.
  - intros Hd. unfold copy_messages, _check_selected, _get_mailbox.
    rewrite decide_True by (apply elem_of_dom; eauto). rewrite Hmbx.
    rewrite decide_False by (by apply not_elem_of_dom). done.
  - intros dst st' copy_uid sel' Hdst Hne Hcopy.
    unfold copy_messages, _check_selected, _get_mailbox in Hcopy.
    rewrite decide_True in Hcopy by (apply elem_of_dom; eauto). rewrite Hmbx in Hcopy.
    rewrite decide_True in Hcopy by (apply elem_of_dom; eauto).
    rewrite Hsrc, Hdst in Hcopy.
    assert (Hcopy' :
      (let src_of d := if decide (name selected = mailbox) then d else src in
       let '(d1, results, source_uids, err) :=
         for_each (copy_body (flags_of (selections st) selected) sequences src_of)
                  (iter_numbers src sequences) (dst, [], []) in
       match err with
       | Some e => (mkState (<[mailbox := d1]> (mailboxes st)) (selections st),
                    @Raise (option CopyUid * SelectedMailbox) e)
       | None =>
           let '(rec, h) :=
             foldl (copy_notify_session results) (recent d1, selections st)
                   (elements (sessions d1)) in
           let d2 := set_recent rec d1 in
           let dest_uids := (λ r, uid r.2) <$> results in
           let copy_uid :=
             match source_uids, dest_uids with
             | _ :: _, _ :: _ => Some (mkCopyUid (uid_validity d2) source_uids dest_uids)
             | _, _ => None
             end in
           (mkState (<[mailbox := d2]> (mailboxes st)) h, Ok (copy_uid, selected))
       end) = (st', Ok (copy_uid, sel'))).
    { by destruct (self_mailboxes self !! mailbox). }
    clear Hcopy. cbv zeta in Hcopy'.
    pose proof (copy_loop (flags_of (selections st) selected) sequences
                  (λ d, if decide (name selected = mailbox) then d else src)
                  (iter_numbers src sequences) dst [] [])
      as (d1 & new & srcs & err & Hloop & Hm & Hu & Hn & Hrec & Hs & Hv & Hl).
    pose proof (copy_loop_contents (flags_of (selections st) selected) sequences
                  (λ d, if decide (name selected = mailbox) then d else src) src
                  (iter_numbers src sequences) dst [] []
                  (λ d0, decide_False _ _ Hne))
      as (d1' & new' & srcs' & err' & Hloop' & HF).
    rewrite Hloop in Hloop'. cbn in Hloop'. injection Hloop' as <- <- <- <-.
    rewrite Hloop in Hcopy'. clear Hloop. destruct err as [e|]; [done|].
    cbn [app] in Hcopy'.
    destruct (foldl _ _ _) as [rec h]. injection Hcopy' as <- <- <-.
    split; [done|]. cbn. split; [by rewrite lookup_insert_ne|].
    exists (set_recent rec d1), new.*2, srcs. cbn.
    split; [by rewrite lookup_insert_eq|]. split; [done|]. split.
    + clear -HF. induction HF as [|s c srcs new H HF IH]; cbn; constructor; done.
    + rewrite Hv, <- list_fmap_compose. apply Forall2_length in HF.
      destruct srcs, new; cbn in *; done.
Qed.

End MoreSessionFacts2.

Section FetchFacts.

Import Session.

Lemma numbered_cons n x l : numbered n (x :: l) = (n + 1, x) :: numbered (S n) l.
Proof.
  unfold numbered. cbn. rewrite Nat.add_0_r. f_equal. apply imap_ext.
  intros i y _. cbn. f_equal. lia.
Qed.

Lemma SequenceSet_iter_elem (s : SequenceSet) (upper n : nat) :
  n ∈ SequenceSet_iter s upper ↔
  upper ≠ 0 ∧ 1 ≤ n ∧ existsb (in_range upper n) (seq_ranges s) = true.
Proof.
  unfold SequenceSet_iter. destruct (upper =? 0) eqn:E.
  - apply Nat.eqb_eq in E. split; [by intros ?%elem_of_nil | intros (? & _); done].
  - apply Nat.eqb_neq in E. rewrite list_elem_of_filter, elem_of_seq. split.
    + intros (Hr & H1 & _). done.
    + intros (_ & H1 & Hr). split; [done|]. split; [done|].
      apply existsb_exists in Hr as (r & Hin & Hr).
      assert (n ≤ ranges_top upper (seq_ranges s)); [|lia].
      clear -Hin Hr. unfold ranges_top.
      induction (seq_ranges s) as [|r' rs IH]; [done|].
      cbn [foldr]. destruct Hin as [->|Hin].
      * unfold in_range in Hr. cbv zeta in Hr. apply andb_prop in Hr as [_ Hr].
        apply Nat.leb_le in Hr. lia.
      * specialize (IH Hin). lia.
Qed.

Lemma iter_resolve_uid (sequences : SequenceSet) (m : MailboxState) (n : nat) :
  seq_uid sequences = true →
  iter_resolve sequences m n
  = Ok (match uid_to_idx m n with
        | Some i => (λ msg, (i + 1, msg)) <$> messages m !! i
        | None => None
        end).
Proof.
  intros Hu. unfold iter_resolve. rewrite Hu. unfold uid_to_idx.
  destruct (list_find (λ msg, uid msg = n) (messages m)) as [[i x]|] eqn:Hf; cbn; [|done].
  apply list_find_Some in Hf as (Hx & _). by rewrite Hx.
Qed.

(** In the UID mode the generator skips and never raises. *)
Lemma _iter_messages_uid (m : MailboxState) (sequences : SequenceSet) :
  seq_uid sequences = true →
  _iter_messages m sequences
  = (omap (λ u, match uid_to_idx m u with
                | Some i => (λ msg, (i + 1, msg)) <$> messages m !! i
                | None => None
                end) (iter_numbers m sequences), None).
Proof.
  intros Hu. unfold _iter_messages.
  set (f := λ u, match uid_to_idx m u with
                 | Some i => (λ msg, (i + 1, msg)) <$> messages m !! i
                 | None => None
                 end).
  assert (H : ∀ ns acc,
    for_each (λ n acc,
                match iter_resolve sequences m n with
                | Raise e => (acc, Some e)
                | Ok None => (acc, None)
                | Ok (Some r) => (acc ++ [r], None)
                end) ns acc
    = (acc ++ omap f ns, None)).
  { induction ns as [|n ns IH]; intros acc; [cbn; by rewrite app_nil_r|].
    cbn [for_each]. rewrite (iter_resolve_uid sequences m n Hu). fold (f n).
    change (omap f (n :: ns)) with (match f n with Some y => y :: omap f ns | None => omap f ns end).
    destruct (f n) as [r|].
    - rewrite IH, <- app_assoc. done.
    - apply IH. }
  apply (H _ []).
Qed.

Lemma positions_numbered (C : Message → bool) (n : nat) (l : list Message) :
  omap (λ i, (λ msg, (i + 1, msg)) <$> l !! (i - n)) (positions C n l)
  = filter (λ r, C r.2 = true) (numbered n l).
Proof.
  revert n. induction l as [|x l IH]; intros n; [done|].
  rewrite numbered_cons. cbn [positions]. rewrite filter_cons. cbn [snd].
  assert (Hshift : ∀ k, Forall (λ i, S n ≤ i) k →
            omap (λ i, (λ msg, (i + 1, msg)) <$> (x :: l) !! (i - n)) k
            = omap (λ i, (λ msg, (i + 1, msg)) <$> l !! (i - S n)) k).
  { induction 1 as [|i k Hi Hk IHk]; [done|]. cbn.
    replace (i - n) with (S (i - S n)) by lia. cbn. by rewrite IHk. }
  assert (Ht : omap (λ i, (λ msg, (i + 1, msg)) <$> (x :: l) !! (i - n)) (positions C (S n) l)
               = filter (λ r, C r.2 = true) (numbered (S n) l)).
  { rewrite <- IH. apply Hshift. apply Forall_forall. intros i Hi.
    apply positions_bounds in Hi. lia. }
  destruct (C x) eqn:HC.
  - cbn [app omap list_omap]. rewrite Nat.sub_diag. cbn [lookup list_lookup fmap option_fmap option_map].
    rewrite decide_True by done. f_equal. exact Ht.
  - cbn [app]. rewrite decide_False by congruence. exact Ht.
Qed.

(** [fetch_messages] by UID, in closed form. *)
Lemma fetch_messages_uid_closed (self : SessionSelf) (st : State)
    (selected : SelectedMailbox) (sequences : SequenceSet) (attributes : gset string)
    (m : MailboxState) (mbx : Mailbox) :
  mailboxes st !! name selected = Some m →
  self_mailboxes self !! name selected = Some mbx →
  seq_uid sequences = true →
  mailbox_wf m →
  fetch_messages self st selected sequences attributes
  = Ok (filter (λ r, uid_in (SequenceSet_iter sequences (highest_uid m)) r.2 = true)
               (numbered 0 (messages m)),
        selected).
Proof.
  intros Hm Hmbx Hu Hwf. unfold fetch_messages, _check_selected.
  rewrite decide_True by (apply elem_of_dom; eauto). rewrite Hmbx, Hm.
  rewrite (_iter_messages_uid m sequences Hu). f_equal. f_equal.
  unfold iter_numbers. rewrite Hu. destruct (messages m) as [|x l] eqn:Hl; [done|].
  rewrite <- Hl. clear x l Hl.
  rewrite <- (positions_numbered (uid_in (SequenceSet_iter sequences (highest_uid m)))).
  change (uid_in (SequenceSet_iter sequences (highest_uid m)))
    with (λ x, bool_decide (uid x ∈ SequenceSet_iter sequences (highest_uid m))).
  pose proof (expunge_candidates_positions m (Some sequences) Hwf) as Hc.
  unfold expunge_candidates in Hc. apply (f_equal reverse) in Hc.
  rewrite !reverse_involutive in Hc. rewrite <- Hc.
  set (S := SequenceSet_iter sequences (highest_uid m)). clearbody S.
  induction S as [|u S IH]; [done|]. cbn.
  destruct (uid_to_idx m u) as [i|] eqn:Hi; [|done]. cbn.
  rewrite Nat.sub_0_r. destruct (messages m !! i); cbn; by rewrite IH.
Qed.

(** X9. [fetch_messages] with a UID set never raises for a selected
    mailbox: a UID of the set that no message has is skipped.  On a
    mailbox with increasing UIDs it returns the messages whose UID is
    in the set, each once, with their sequence numbers, in the order of
    the mailbox. *)
Theorem fetch_messages_by_uid (self : SessionSelf) (st : State)
    (selected : SelectedMailbox) (sequences : SequenceSet) (attributes : gset string)
    (m : MailboxState) (mbx : Mailbox) :
  mailboxes st !! name selected = Some m →
  self_mailboxes self !! name selected = Some mbx →
  seq_uid sequences = true →
  (∃ msgs, fetch_messages self st selected sequences attributes = Ok (msgs, selected))
  ∧ (mailbox_wf m →
     fetch_messages self st selected sequences attributes
     = Ok (filter (λ r, uid_in (SequenceSet_iter sequences (highest_uid m)) r.2 = true)
                  (numbered 0 (messages m)),
           selected)).
Proof.
  intros Hm Hmbx Hu. split; [|by apply (fetch_messages_uid_closed _ _ _ _ _ m mbx)].
  unfold fetch_messages, _check_selected.
  rewrite decide_True by (apply elem_of_dom; eauto). rewrite Hmbx, Hm.
  rewrite (_iter_messages_uid m sequences Hu). eauto.
Qed.


(** The generator by sequence numbers: every number is looked up. *)
Lemma _iter_messages_seq (m : MailboxState) (sequences : SequenceSet) (ns : list nat)
    (acc : list (nat * Message)) :
  seq_uid sequences = false →
  Forall (λ n, 1 ≤ n ≤ exists_ m) ns →
  ∃ msgs,
    for_each (λ n acc,
                match iter_resolve sequences m n with
                | Raise e => (acc, Some e)
                | Ok None => (acc, None)
                | Ok (Some r) => (acc ++ [r], None)
                end) ns acc = (acc ++ msgs, None)
    ∧ msgs.*1 = ns
    ∧ Forall (λ r, messages m !! (r.1 - 1) = Some r.2) msgs.
Proof.
  intros Hu.
  assert (Hres : ∀ n, iter_resolve sequences m n
                      = match messages m !! (n - 1) with
                        | Some msg => Ok (Some (n, msg))
                        | None => Raise IndexError
                        end).
  { intros n. unfold iter_resolve. by rewrite Hu. }
  intros Hall. revert acc. induction Hall as [|n ns Hn Hall IH]; intros acc.
  - exists []. cbn. by rewrite app_nil_r.
  - cbn [for_each]. rewrite Hres.
    destruct (messages m !! (n - 1)) as [msg|] eqn:Hl.
    + destruct (IH (acc ++ [(n, msg)])) as (msgs & -> & H1 & H2).
      exists ((n, msg) :: msgs). rewrite <- app_assoc. cbn.
      split; [done|]. split; [by rewrite H1|]. by constructor.
    + apply lookup_ge_None in Hl. unfold exists_ in Hn. lia.
Qed.

(** X10. [fetch_messages] with a set of sequence numbers: when every
    number that the set yields is at most the number of messages, it
    returns the selection and, for every number of the set, in the
    order of the set, that number with the message at that place. *)
Theorem fetch_messages_by_sequence (self : SessionSelf) (st : State)
    (selected : SelectedMailbox) (sequences : SequenceSet) (attributes : gset string)
    (m : MailboxState) (mbx : Mailbox) :
  mailboxes st !! name selected = Some m →
  self_mailboxes self !! name selected = Some mbx →
  seq_uid sequences = false →
  let ns := SequenceSet_iter sequences (exists_ m) in
  Forall (λ n, n ≤ exists_ m) ns →
  ∃ msgs,
    fetch_messages self st selected sequences attributes = Ok (msgs, selected)
    ∧ msgs.*1 = ns
    ∧ Forall (λ r, messages m !! (r.1 - 1) = Some r.2) msgs.
Proof.
  intros Hm Hmbx Hu ns Hall. unfold fetch_messages, _check_selected, _iter_messages.
  rewrite decide_True by (apply elem_of_dom; eauto). rewrite Hmbx, Hm.
  assert (Hns : iter_numbers m sequences = ns).
  { unfold iter_numbers, ns. rewrite Hu. destruct (messages m) eqn:E; [|done].
    unfold exists_. rewrite E. done. }
  rewrite Hns.
  destruct (_iter_messages_seq m sequences ns [] Hu) as (msgs & -> & H1 & H2).
  - apply Forall_forall. intros n Hn. split.
    + apply SequenceSet_iter_elem in Hn. lia.
    + rewrite Forall_forall in Hall. by apply Hall.
  - exists msgs. done.
Qed.

Lemma SequenceSet_iter_single (b : bool) (u : nat) :
  0 < u → SequenceSet_iter (mkSequenceSet b [(SeqNum u, SeqNum u)]) u = [u].
Proof.
  intros Hu. apply sorted_lt_ext.
  - apply SequenceSet_iter_sorted.
  - repeat constructor.
  - intros n. rewrite SequenceSet_iter_elem, list_elem_of_singleton. cbn.
    unfold in_range. cbn. rewrite orb_false_r, andb_true_iff, !Nat.leb_le. lia.
Qed.

Lemma numbered_app (n : nat) (l1 l2 : list Message) :
  numbered n (l1 ++ l2) = numbered n l1 ++ numbered (n + length l1) l2.
Proof.
  revert n. induction l1 as [|x l1 IH]; intros n.
  - cbn. by rewrite Nat.add_0_r.
  - cbn [app]. rewrite !numbered_cons, IH. cbn. do 3 f_equal. lia.
Qed.

(** X11. A message that [append_messages] has appended is found by
    [fetch_messages] under the UID that the append returned: the fetch
    of this UID gives one message, with the last sequence number, the
    appended text and date, and the flags of the append that are
    permanent flags of the mailbox. *)
Theorem append_then_fetch_by_uid (self : SessionSelf) (st : State)
    (selected : SelectedMailbox) (other : option SelectedMailbox)
    (am : AppendMessage) (attributes : gset string) (b : bool)
    (m : MailboxState) (mbx : Mailbox) :
  mailboxes st !! name selected = Some m →
  self_mailboxes self !! name selected = Some mbx →
  mailbox_wf m →
  0 < next_uid m →
  let r := append_messages self st (name selected) [am] other in
  ∃ upd,
    r.2 = Ok (mkAppendUid (uid_validity m) [next_uid m], upd)
    ∧ fetch_messages self r.1 selected
        (mkSequenceSet true [(SeqNum (next_uid m), SeqNum (next_uid m))]) attributes
      = Ok ([(exists_ m + 1,
              mkMessage (next_uid m) (am_message am) (am_when am)
                        (am_flag_set am ∩ permanent_flags m))], selected).
Proof.
  intros Hm Hmbx Hwf Hpos r.
  assert (Hr : r = (let '(m', h', msg_uids) :=
                      foldl (append_body (permanent_flags m)) (m, selections st, []) [am] in
                    let st' := mkState (<[name selected := m']> (mailboxes st)) h' in
                    (st', Ok (mkAppendUid (uid_validity m') msg_uids,
                              _get_updates st' (_get_updates st other))))).
  { unfold r, append_messages, _get_mailbox.
    rewrite decide_True by (apply elem_of_dom; eauto). by rewrite Hmbx, Hm. }
  destruct (append_loop (permanent_flags m) [am] m (selections st) []) as (h' & E & _).
  rewrite E in Hr. cbn in Hr. rewrite Hr. cbn [fst snd].
  eexists. split; [reflexivity|].
  set (new := Message_parse (next_uid m) (am_message am)
                            (am_flag_set am ∩ permanent_flags m) (am_when am)) in *.
  set (m1 := mkMailboxState _ _ _ _ _ _ _).
  assert (Hwf1 : mailbox_wf m1).
  { apply (wf_app m m1 1); [by cbn; rewrite fmap_app | done | done]. }
  rewrite (fetch_messages_uid_closed _ _ _ _ _ m1 mbx);
    [|cbn; by rewrite lookup_insert_eq|done|done|done].
  f_equal. f_equal.
  assert (Hh : highest_uid m1 = next_uid m) by (unfold highest_uid; cbn; lia).
  rewrite Hh, (SequenceSet_iter_single true _ Hpos).
  change (messages m1) with (messages m ++ [new]).
  rewrite numbered_app, filter_app. cbn [numbered imap].
  rewrite filter_cons_True by (cbn; unfold uid_in; apply bool_decide_eq_true; cbn; left).
  rewrite filter_nil.
  assert (Hold : filter (λ r0, uid_in [next_uid m] r0.2 = true) (numbered 0 (messages m)) = []).
  { destruct Hwf as [_ Hlt]. clear -Hlt.
    generalize 0 as n. induction Hlt as [|x l Hx Hl IH]; intros n; [done|].
    rewrite numbered_cons, filter_cons_False; [apply IH|].
    cbn. unfold uid_in. rewrite bool_decide_eq_false_2; [done|].
    rewrite list_elem_of_singleton. lia. }
  rewrite Hold. cbn. unfold exists_. do 2 f_equal. lia.
Qed.

(** X12. After [append_messages] into the mailbox of a registered
    selection, [check_mailbox] with [block] does not wait: it returns
    the selection, clears the signal and keeps the queue, which holds
    the updates of the append after those that were there, and changes
    no mailbox.  A second blocking check waits; a check without [block]
    returns at once and changes nothing. *)
Theorem check_mailbox_after_append (self : SessionSelf) (st : State)
    (selected : SelectedMailbox) (other : option SelectedMailbox)
    (am : AppendMessage) (msgs : list AppendMessage) (housekeeping : bool)
    (m : MailboxState) (mbx : Mailbox) (d : SelectedData) :
  mailboxes st !! name selected = Some m →
  self_mailboxes self !! name selected = Some mbx →
  sel_id selected ∈ sessions m →
  selections st !! sel_id selected = Some d →
  let st1 := (append_messages self st (name selected) (am :: msgs) other).1 in
  let r := check_mailbox self st1 selected true housekeeping in
  r.2 = Ready (Ok selected)
  ∧ selections r.1 !! sel_id selected
    = Some (mkSelectedData (session_flags d)
              (pending d ++ append_updates (exists_ m) (am :: msgs)) false)
  ∧ mailboxes r.1 = mailboxes st1
  ∧ (check_mailbox self r.1 selected true housekeeping).2 = Waiting
  ∧ (check_mailbox self r.1 selected false housekeeping) = (r.1, Ready (Ok selected)).
Proof.
  intros Hm Hmbx Hin Hd st1 r.
  assert (H1 : st1 = (let '(m', h', msg_uids) :=
                        foldl (append_body (permanent_flags m)) (m, selections st, [])
                              (am :: msgs) in
                      mkState (<[name selected := m']> (mailboxes st)) h')).
  { unfold st1, append_messages, _get_mailbox.
    rewrite decide_True by (apply elem_of_dom; eauto). rewrite Hmbx, Hm.
    by destruct (foldl _ _ _) as [[? ?] ?]. }
  destruct (append_loop (permanent_flags m) (am :: msgs) m (selections st) [])
    as (h' & E & Hh').
  rewrite E in H1. clear E.
  specialize (Hh' (sel_id selected)). rewrite decide_True, Hd in Hh' by done.
  cbn in Hh'.
  assert (Hdom : name selected ∈ dom (mailboxes st1)).
  { rewrite H1. cbn. rewrite dom_insert_L. set_solver. }
  assert (Hsel : selections st1 = h') by (by rewrite H1).
  set (d1 := mkSelectedData (session_flags d)
                (pending d ++ Exists (S (length (messages m)))
                   :: Fetch (S (length (messages m))) (am_flag_set am)
                   :: append_updates (S (length (messages m))) msgs) true) in *.
  assert (Hr : r = (set_selections
                      (<[sel_id selected := mkSelectedData (session_flags d1) (pending d1) false]>
                         h') st1, Ready (Ok selected))).
  { unfold r, check_mailbox, _check_selected.
    rewrite decide_True by done. by rewrite Hmbx, Hsel, Hh'. }
  rewrite Hr. cbn [fst snd]. split; [done|].
  split; [cbn; by rewrite lookup_insert_eq|]. split; [done|].
  unfold check_mailbox, _check_selected. cbn [mailboxes set_selections selections].
  rewrite !decide_True by done. rewrite Hmbx. rewrite lookup_insert_eq. done.
Qed.

End FetchFacts.

Section SearchFacts.

Import Session.

Context {SearchKey : Type}.
Variable matches : SearchKey → State → SelectedMailbox → nat → nat → nat → Message → bool.

(** X13. [search_mailbox] on a selected mailbox returns exactly the
    messages of the mailbox that the criteria match, each with its
    sequence number (the place in the mailbox, from 1), in ascending
    order of the sequence numbers; the criteria are asked with the
    number of messages as the greatest sequence number and the next UID
    less one as the greatest UID. *)
Theorem search_mailbox_results (self : SessionSelf) (st : State)
    (selected : SelectedMailbox) (keys : SearchKey) (m : MailboxState) (mbx : Mailbox) :
  mailboxes st !! name selected = Some m →
  self_mailboxes self !! name selected = Some mbx →
  ∃ matching,
    search_mailbox matches self st selected keys = Ok (matching, selected)
    ∧ StronglySorted lt matching.*1
    ∧ ∀ msg_seq msg,
        (msg_seq, msg) ∈ matching ↔
        1 ≤ msg_seq ∧ messages m !! (msg_seq - 1) = Some msg
        ∧ matches keys st selected (length (messages m)) (next_uid m - 1) msg_seq msg = true.
Proof.
  intros Hm Hmbx. unfold search_mailbox, _check_selected.
  rewrite decide_True by (apply elem_of_dom; eauto). rewrite Hmbx, Hm.
  eexists. split; [reflexivity|]. split.
  - eapply StronglySorted_sublist; [apply fmap_sublist, sublist_filter|].
    rewrite fmap_imap.
    assert (H : ∀ (l : list Message) n,
              imap (λ i, fst ∘ (λ msg : Message, (n + i + 1, msg))) l = seq (n + 1) (length l)).
    { induction l as [|x l IH]; intros n; [done|]. cbn. rewrite Nat.add_0_r. f_equal.
      replace (S (n + 1)) with (S n + 1) by lia.
      rewrite <- (IH (S n)). apply imap_ext. intros i y _. cbn. lia. }
    rewrite (imap_ext _ (λ i, fst ∘ (λ msg : Message, (0 + i + 1, msg)))) by done.
    rewrite H. apply StronglySorted_seq.
  - intros msg_seq msg. rewrite list_elem_of_filter. cbn. unfold exists_, highest_uid.
    rewrite elem_of_lookup_imap. split.
    + intros (Hmat & i & x & [= -> ->] & Hi). rewrite Nat.add_sub. split; [lia|done].
    + intros (H1 & Hl & Hmat). split; [done|]. exists (msg_seq - 1), msg.
      split; [f_equal; lia | done].
Qed.

End SearchFacts.

Section CreateFacts.

Import Session.

Variable new_mailbox : string → MailboxState.

(** X14. [create_mailbox] of a name that is a mailbox raises
    [MailboxConflict] and changes nothing.  Of a new name, it adds the
    mailbox that the factory makes for the name and changes no other
    mailbox and no selection; to create it again raises
    [MailboxConflict], and [delete_mailbox] of it gives the first state
    again. *)
Theorem create_mailbox_then_delete (self : SessionSelf) (st : State) (nm : string)
    (selected : option SelectedMailbox) :
  (is_Some (mailboxes st !! nm) →
     create_mailbox new_mailbox st nm selected = (st, Raise (MailboxConflict nm)))
  ∧ (mailboxes st !! nm = None →
     let st1 := (create_mailbox new_mailbox st nm selected).1 in
     (create_mailbox new_mailbox st nm selected).2 = Ok (_get_updates st1 selected)
     ∧ mailboxes st1 !! nm = Some (new_mailbox nm)
     ∧ (∀ k, k ≠ nm → mailboxes st1 !! k = mailboxes st !! k)
     ∧ selections st1 = selections st
     ∧ create_mailbox new_mailbox st1 nm selected = (st1, Raise (MailboxConflict nm))
     ∧ (delete_mailbox self st1 nm selected).1.2 = st).
Proof.
  unfold create_mailbox. split.
  - intros H. by rewrite decide_True by (by apply elem_of_dom).
  - intros H. rewrite decide_False by (by apply not_elem_of_dom). cbn.
    split; [done|]. split; [by rewrite lookup_insert_eq|].
    split; [by intros k Hk; rewrite lookup_insert_ne|]. split; [done|].
    rewrite decide_True by (rewrite dom_insert_L; set_solver). split; [done|].
    unfold delete_mailbox. cbn. rewrite decide_True by (rewrite dom_insert_L; set_solver).
    cbn. unfold set_mailboxes. cbn. rewrite delete_insert_eq, delete_id by done.
    by destruct st.
Qed.

End CreateFacts.

(** * The handlers of the connection state: more of what is proved *)

Section HandlerFacts.

Import ConnState Handlers.

Context {Sess Mbx Creds : Type}.

(** X15. [_check_mailbox_updates] adds the updates of [poll()] after
    the data that the response has, in a fixed order: EXISTS, RECENT,
    the EXPUNGE responses in the order of [poll()], then the FETCH
    responses in the order of [poll()].  With [no_expunge_response] on
    the command the EXPUNGE responses are left out and nothing else is.
    The tag, the condition and the text of the response and the session
    are unchanged, and the mailbox stays selected. *)
Theorem _check_mailbox_updates_order (poll : Mbx → Updates * Mbx) (cmd : Command)
    (resp : Response) (cs : @ConnectionState Sess Mbx) (mbx : Mbx) :
  selected cs = Some mbx →
  _check_mailbox_updates poll cmd resp cs
  = (mkConnectionState (session cs) (Some (poll mbx).2),
     mkResponse (r_tag resp) (r_condition resp) (r_text resp)
       (r_data resp ++ updates_data (negb (no_expunge_response cmd)) (poll mbx).1)).
Proof.
  intros Hsel. unfold _check_mailbox_updates, updates_data. rewrite Hsel.
  destruct (poll mbx) as [[ex rc xp ft] mbx']. simpl. f_equal.
  destruct resp as [t c x d]. 
  destruct ex as [n|], rc as [k|], xp as [seqs|], ft as [msgs|],
    (no_expunge_response cmd); simpl;
    rewrite ?foldl_add_data; unfold add_data; simpl;
    rewrite ?foldl_add_data; simpl; rewrite <- ?app_assoc, ?app_nil_r; try done.
Qed.

(** X16. [do_command] polls the mailbox only when one was selected
    before the handler ran and the handler returned with the same
    mailbox selected.  When none was selected before, or when the
    handler raises, closes the connection, deselects or selects another
    mailbox, the result does not depend on [poll()]. *)
Theorem do_command_polls_kept_selection (mbx_id : Mbx → nat)
    (poll1 poll2 : Mbx → Updates * Mbx)
    (handlers : string → option (@Handler Sess Mbx)) (cmd : Command)
    (cs : @ConnectionState Sess Mbx) :
  (selected cs = None
   ∨ (∀ func, handlers ("do_" +:+ lower (command cmd))%string = Some func →
        match func cmd cs with
        | (cs', Returned _) =>
            match selected cs', selected cs with
            | Some now, Some pre => mbx_id now ≠ mbx_id pre
            | _, _ => True
            end
        | _ => True
        end)) →
  do_command mbx_id poll1 handlers cmd cs = do_command mbx_id poll2 handlers cmd cs.
Proof.
  intros H. unfold do_command.
  repeat (match goal with |- context [if ?b then _ else _] => destruct b eqn:? end; try done).
  - destruct (handlers _) as [func|] eqn:Hf; [|done].
    destruct H as [H|H].
    + rewrite H. destruct (func cmd cs) as [cs' [r|e|r]]; try done;
        try (by destruct (selected cs')).
    + specialize (H func eq_refl).
      destruct (func cmd cs) as [cs' [r|e|r]]; try done.
      destruct (selected cs') as [now|]; [|done].
      destruct (selected cs) as [pre|]; [|done].
      apply Nat.eqb_neq in H. by rewrite H.
Qed.

(** X17. [do_authenticate] stores what the backend returns as the
    session, also when it returns nothing, and keeps the selection.
    When the backend returns nothing the answer is NO and every Auth
    command is then refused by [do_command] with [Must authenticate
    first.]; when it returns a session the answer is OK and every
    NonAuth command is then refused with [Already authenticated.]. *)
Theorem do_authenticate_then_command (backend : Creds → option Sess)
    (mbx_id : Mbx → nat) (poll : Mbx → Updates * Mbx)
    (handlers : string → option (@Handler Sess Mbx))
    (acmd : Command) (result : Creds) (cs : @ConnectionState Sess Mbx) :
  let cs' := (do_authenticate backend acmd result cs).1 in
  session cs' = backend result
  ∧ selected cs' = selected cs
  ∧ (backend result = None →
       (do_authenticate backend acmd result cs).2
       = Returned (ResponseNo (tag acmd) "Invalid authentication credentials.")
       ∧ ∀ cmd, cmd_class cmd = CommandAuth →
           do_command mbx_id poll handlers cmd cs'
           = (cs', Returned (ResponseBad (tag cmd)
                               (command cmd +:+ ": Must authenticate first.")), []))
  ∧ (is_Some (backend result) →
       (do_authenticate backend acmd result cs).2
       = Returned (ResponseOk (tag acmd) "Authentication successful.")
       ∧ ∀ cmd, cmd_class cmd = CommandNonAuth →
           do_command mbx_id poll handlers cmd cs'
           = (cs', Returned (ResponseBad (tag cmd)
                               (command cmd +:+ ": Already authenticated.")), [])).
Proof.
  unfold do_authenticate. simpl. repeat split.
  - by rewrite H.
  - intros cmd Hc. unfold do_command, isinstance. simpl. rewrite H, Hc.
    rewrite (bool_decide_eq_false_2 (is_Some None)); [|by intros [??]]. done.
  - destruct H as [s ->]. done.
  - intros cmd Hc. destruct H as [s Hs]. unfold do_command, isinstance. simpl. rewrite Hs, Hc.
    rewrite (bool_decide_eq_true_2 (is_Some (Some s))); [|by eexists]. done.
Qed.

Variable create_mailbox : Sess → PyString → option BackendError.
Variable delete_mailbox : Sess → PyString → option BackendError.
Variable rename_mailbox : Sess → PyString → PyString → option BackendError.

Lemma py_eq_true (a b : PyString) : py_eq a b = true ↔ a = b.
Proof.
  destruct a, b; simpl; rewrite ?bool_decide_eq_true; split; try congruence; done.
Qed.

(** X18. The guards on INBOX of the three handlers: [do_create] and
    [do_delete] compare the name with the [str] [INBOX], [do_rename]
    compares the new name with the [bytes] [INBOX].  On a connection
    with a session, these names are refused with NO without a call of
    the session; every other name, in particular INBOX in other letter
    case and INBOX of the other string type, is passed to the session,
    whose [MailboxConflict], [MailboxNotFound] and [MailboxHasChildren]
    become NO as each handler catches them, and whose other exceptions
    are not caught. *)
Theorem inbox_guards (tag_ : string) (cs : @ConnectionState Sess Mbx) (s : Sess) :
  session cs = Some s →
  do_create create_mailbox tag_ (Str "INBOX") cs = Sent (ResponseNo tag_ "Cannot create INBOX.")
  ∧ do_delete delete_mailbox tag_ (Str "INBOX") cs = Sent (ResponseNo tag_ "Cannot delete INBOX.")
  ∧ (∀ from_mailbox,
       do_rename rename_mailbox tag_ from_mailbox (Bytes "INBOX") cs
       = Sent (ResponseNo tag_ "Cannot rename to INBOX."))
  ∧ (∀ mailbox, mailbox ≠ Str "INBOX" →
       do_create create_mailbox tag_ mailbox cs
       = match create_mailbox s mailbox with
         | None => Sent (ResponseOk tag_ "Mailbox created successfully.")
         | Some Conflict => Sent (ResponseNo tag_ "Mailbox already exists.")
         | Some e => Failed e
         end)
  ∧ (∀ mailbox, mailbox ≠ Str "INBOX" →
       do_delete delete_mailbox tag_ mailbox cs
       = match delete_mailbox s mailbox with
         | None => Sent (ResponseOk tag_ "Mailbox deleted successfully.")
         | Some NotFound => Sent (ResponseNo tag_ "Mailbox not found.")
         | Some HasChildren =>
             Sent (ResponseNo tag_ "Mailbox has inferior hierarchical names.")
         | Some e => Failed e
         end)
  ∧ (∀ from_mailbox to_mailbox, to_mailbox ≠ Bytes "INBOX" →
       do_rename rename_mailbox tag_ from_mailbox to_mailbox cs
       = match rename_mailbox s from_mailbox to_mailbox with
         | None => Sent (ResponseOk tag_ "Mailbox renamed successfully.")
         | Some NotFound => Sent (ResponseNo tag_ "Mailbox not found.")
         | Some Conflict => Sent (ResponseNo tag_ "Mailbox already exists.")
         | Some e => Failed e
         end).
Proof.
  intros Hs. unfold do_create, do_delete, do_rename. rewrite Hs.
  repeat split; try done.
  - intros mailbox Hm. destruct (py_eq mailbox (Str "INBOX")) eqn:He.
    + by apply py_eq_true in He.
    + by destruct (create_mailbox s mailbox) as [[]|].
  - intros mailbox Hm. destruct (py_eq mailbox (Str "INBOX")) eqn:He.
    + by apply py_eq_true in He.
    + by destruct (delete_mailbox s mailbox) as [[]|].
  - intros f t Hm. destruct (py_eq t (Bytes "INBOX")) eqn:He.
    + by apply py_eq_true in He.
    + by destruct (rename_mailbox s f t) as [[]|].
Qed.

(** X19. The list that [do_status] builds has, for status attributes
    that the constructor of [StatusAttribute] has made, every attribute
    of the command in its order, each followed at once by its number:
    the number of messages for MESSAGES, of recent ones for RECENT, of
    unseen ones for UNSEEN, the next UID for UIDNEXT and the UID
    validity for UIDVALIDITY. *)
Theorem status_list_of_numbers (mbx : MailboxStatus)
    (status_list : list StatusAttribute.StatusAttribute) :
  Forall (λ a, ∃ s, StatusAttribute.__init__ s = Ok a) status_list →
  ∃ numbers,
    Forall2 (status_number mbx) status_list numbers
    ∧ status_list_of mbx status_list
      = mjoin (zip_with (λ a n, [ItemAttribute a; ItemNumber n]) status_list numbers).
Proof.
  unfold status_list_of.
  set (f := λ value status_item, _).
  assert (Hgen : ∀ l acc,
    Forall (λ a, ∃ s, StatusAttribute.__init__ s = Ok a) l →
    ∃ numbers, Forall2 (status_number mbx) l numbers
      ∧ foldl f acc l
        = acc ++ mjoin (zip_with (λ a n, [ItemAttribute a; ItemNumber n]) l numbers)).
  { induction l as [|a l IH]; intros acc Hall.
    - exists []. split; [constructor|]. simpl. by rewrite app_nil_r.
    - apply Forall_cons in Hall as [[s Hs] Hall].
      assert (Hv : StatusAttribute.value a ∈ StatusAttribute.valid_statuses).
      { unfold StatusAttribute.__init__ in Hs. case_decide; [|done].
        injection Hs as <-. done. }
      assert (∃ n, status_number mbx a n
                   ∧ f acc a = acc ++ [ItemAttribute a; ItemNumber n]) as (n & Hn & Hf).
      { unfold f, status_number.
        unfold StatusAttribute.valid_statuses in Hv.
        rewrite !elem_of_union, !elem_of_singleton in Hv.
        repeat case_decide; rewrite <- ?app_assoc; simpl.
        - eexists; split; [left; done | done].
        - eexists; split; [right; left; done | done].
        - eexists; split; [right; right; left; done | done].
        - eexists; split; [right; right; right; left; done | done].
        - eexists; split; [right; right; right; right; done | done].
        - exfalso. tauto. }
      destruct (IH (f acc a) Hall) as (ns & Hns & Hfold).
      exists (n :: ns). split; [by constructor|].
      simpl. rewrite Hfold, Hf. by rewrite <- app_assoc. }
  intros Hall. destruct (Hgen status_list [] Hall) as (ns & Hns & Hfold).
  exists ns. split; [done|]. by rewrite Hfold.
Qed.

Variable expunge : Mbx → Expunged.

(** X20. CLOSE through [do_command], on a connection with a session
    and a selected mailbox: when [expunge()] returns or raises
    [MailboxReadOnly], the answer is OK [CLOSE completed.] with no
    data, no mailbox is selected afterwards, the session is kept, and
    the mailbox is not polled. *)
Theorem do_close_deselects (mbx_id : Mbx → nat) (poll : Mbx → Updates * Mbx)
    (handlers : string → option (@Handler Sess Mbx)) (cmd : Command)
    (cs : @ConnectionState Sess Mbx) (s : Sess) (mbx : Mbx) :
  handlers "do_close"%string = Some (do_close expunge) →
  command cmd = "CLOSE"%string →
  cmd_class cmd = CommandSelect →
  session cs = Some s →
  selected cs = Some mbx →
  (∀ e, expunge mbx ≠ ExpungeRaised e) →
  do_command mbx_id poll handlers cmd cs
  = (mkConnectionState (Some s) None,
     Returned (ResponseOk (tag cmd) "CLOSE completed."), ["do_close"%string]).
Proof.
  intros Hh Hc Hcl Hs Hsel He. unfold do_command, isinstance. rewrite Hs, Hsel, Hcl, Hc. simpl.
  change ("do_" +:+ lower "CLOSE")%string with "do_close"%string.
  rewrite Hh. unfold do_close. rewrite Hsel, Hs.
  destruct (expunge mbx) as [seqs| |e] eqn:Hx; try done. by destruct (He e).
Qed.

End HandlerFacts.

Section StatusAttributeBytes.

Import StatusAttribute.

(** X21. The bytes of a [StatusAttribute] are the name in upper case,
    and the constructor gives the same attribute back for them; the
    attribute is equal to the bytes it was made from only when these
    are in upper case, and [__eq__] with an object that is neither a
    [StatusAttribute] nor [bytes] is [NotImplemented]. *)
Theorem status_attribute_bytes_round_trip (s : string) (a : StatusAttribute) :
  __init__ s = Ok a →
  __bytes__ a = upper s
  ∧ __init__ (__bytes__ a) = Ok a
  ∧ (__eq__ a (OtherBytes s) = Some true ↔ upper s = s)
  ∧ __eq__ a OtherObject = None.
Proof.
  unfold __init__. case_decide as Hv; [|done]. intros [= <-].
  unfold __bytes__, __eq__, value. simpl.
  assert (Hu : upper (upper s) = upper s).
  { unfold valid_statuses in Hv. rewrite !elem_of_union, !elem_of_singleton in Hv.
    destruct Hv as [[[[->| ->]| ->]| ->]| ->]; reflexivity. }
  repeat split.
  - rewrite Hu. by rewrite decide_True.
  - intros [= H]. by apply bool_decide_eq_true in H.
  - intros H. f_equal. by apply bool_decide_eq_true.
Qed.

End StatusAttributeBytes.

(** ** The further theorems on the states of the examples *)

(** X1 on the mailboxes INBOX, A and A.B: [Missing] is not found, and
    A is removed. *)
Lemma delete_mailbox_removes_one_witness :
  Session.delete_mailbox Examples.self1 Examples.st_tree "Missing" None
  = (Examples.self1, Examples.st_tree, Raise (MailboxNotFound "Missing"))
  ∧ ∃ self' st' upd,
      Session.delete_mailbox Examples.self1 Examples.st_tree "A" None = (self', st', Ok upd)
      ∧ Session.mailboxes st' = delete "A"%string (Session.mailboxes Examples.st_tree).
Proof.
  split.
  - apply (delete_mailbox_removes_one Examples.self1 Examples.st_tree "Missing" None).
    reflexivity.
  - destruct (delete_mailbox_removes_one Examples.self1 Examples.st_tree "A" None)
      as [_ H].
    destruct H as (self' & st' & upd & H1 & H2 & _).
    { exists Examples.target. reflexivity. }
    exists self', st', upd. split; [exact H1 | exact H2].
Defined.

(** X2 on the same mailboxes: A is renamed to [Archive] and back, and
    cannot be renamed to INBOX. *)
Lemma rename_mailbox_moves_witness :
  Session.rename_mailbox Examples.st_tree "A" "INBOX" None
  = (Examples.st_tree, Raise (MailboxConflict "INBOX"))
  ∧ ∃ st' upd,
      Session.rename_mailbox Examples.st_tree "A" "Archive" None = (st', Ok upd)
      ∧ Session.mailboxes st' !! "Archive"%string = Some Examples.target
      ∧ (Session.rename_mailbox st' "Archive" "A" None).1 = Examples.st_tree.
Proof.
  split.
  - apply (rename_mailbox_moves Examples.st_tree "A" "INBOX" None).
    exists Examples.inbox_alone. reflexivity.
  - destruct (rename_mailbox_moves Examples.st_tree "A" "Archive" None) as (_ & _ & H).
    destruct (H Examples.target eq_refl eq_refl) as (st' & upd & H1 & H2 & _ & _ & _ & H6).
    exists st', upd. split; [exact H1|]. split; [exact H2 | exact H6].
Defined.

(** X3 on the same mailboxes, for A. *)
Lemma subscribe_unsubscribe_compose_witness :
  let st1 := (Session.subscribe Examples.st_tree "A" None).1 in
  Session.subscribe Examples.st_tree "Missing" None
  = (Examples.st_tree, Raise (MailboxNotFound "Missing"))
  ∧ (Session.subscribe st1 "A" None).1 = st1
  ∧ (Session.unsubscribe st1 "A" None).1 = (Session.unsubscribe Examples.st_tree "A" None).1.
Proof.
  intros st1.
  destruct (subscribe_unsubscribe_compose Examples.st_tree "Missing" None) as [H _].
  destruct (subscribe_unsubscribe_compose Examples.st_tree "A" None) as [_ H'].
  destruct (H eq_refl) as [H1 _].
  destruct (H' Examples.target eq_refl) as (_ & _ & _ & _ & H5 & H6 & _).
  split; [exact H1|]. split; [exact H5 | exact H6].
Defined.

(** X5 on the mailbox of the examples: two appends of one message, and
    one append of the two. *)
Lemma append_messages_batches_witness :
  let r1 := Session.append_messages Examples.self1 Examples.st0 "INBOX"
              Examples.one_message None in
  let r2 := Session.append_messages Examples.self1 r1.1 "INBOX" Examples.one_message None in
  let r := Session.append_messages Examples.self1 Examples.st0 "INBOX"
             (Examples.one_message ++ Examples.one_message) None in
  r.1 = r2.1
  ∧ ∃ upd1 upd2 upd,
      r1.2 = Ok (Session.mkAppendUid 7 [105], upd1)
      ∧ r2.2 = Ok (Session.mkAppendUid 7 [106], upd2)
      ∧ r.2 = Ok (Session.mkAppendUid 7 [105; 106], upd).
Proof.
  exact (append_messages_batches Examples.self1 Examples.st0 "INBOX"
           Examples.one_message Examples.one_message None Examples.inbox eq_refl).
Defined.

(** X6 on the mailbox of the examples: the UIDs 101 and 103 stay. *)
Lemma expunge_mailbox_twice_witness :
  let st1 := (Session.expunge_mailbox Examples.self1 Examples.st0 Examples.sel1 None).1 in
  Session.expunge_mailbox Examples.self1 st1 Examples.sel1 None = (st1, Ok Examples.sel1)
  ∧ ∃ m1, Session.mailboxes st1 !! "INBOX"%string = Some m1
          ∧ Session.messages m1 = [Examples.msg 101 ∅; Examples.msg 103 ∅]
          ∧ Session.next_uid m1 = 105.
Proof.
  intros st1.
  destruct (expunge_mailbox_twice Examples.self1 Examples.st0 Examples.sel1 None
              Examples.inbox (Session.mkMailbox false) eq_refl eq_refl
              (st0_wf "INBOX"%string Examples.inbox eq_refl))
    as (H1 & m1 & H2 & H3 & H4 & _).
  split; [exact H1|]. exists m1. split; [exact H2|].
  split; [|exact H4]. rewrite H3. vm_compute. reflexivity.
Defined.

(** X7 on the mailboxes INBOX and [Target]: the first message of INBOX
    is copied into [Target], and a copy into [Missing] is refused. *)
Lemma copy_messages_copies_contents_witness :
  Session.copy_messages Examples.self1 Examples.st_two Examples.sel1 Examples.seq_1 "Missing"
  = (Examples.st_two, Raise (MailboxNotFound "Missing"))
  ∧ ∃ d' copies,
      Session.mailboxes
        (Session.copy_messages Examples.self1 Examples.st_two Examples.sel1
                               Examples.seq_1 "Target").1 !! "Target"%string = Some d'
      ∧ Session.messages d' = copies
      ∧ Forall2 (λ s c, ∃ m, m ∈ Session.messages Examples.inbox ∧ Session.uid m = s
                             ∧ Session.contents c = Session.contents m
                             ∧ Session.internal_date c = Session.internal_date m)
                [101] copies.
Proof.
  destruct (copy_messages_copies_contents Examples.self1 Examples.st_two Examples.sel1
              Examples.seq_1 "Missing" Examples.inbox (Session.mkMailbox false)
              eq_refl eq_refl) as [H1 _].
  split; [exact (H1 eq_refl)|].
  assert (Hcopy :
    Session.copy_messages Examples.self1 Examples.st_two Examples.sel1 Examples.seq_1 "Target"
    = ((Session.copy_messages Examples.self1 Examples.st_two Examples.sel1
                              Examples.seq_1 "Target").1,
       Ok (Some (Session.mkCopyUid 9 [101] [10]), Examples.sel1)))
    by (vm_compute; reflexivity).
  destruct (copy_messages_copies_contents Examples.self1 Examples.st_two Examples.sel1
              Examples.seq_1 "Target" Examples.inbox (Session.mkMailbox false)
              eq_refl eq_refl) as [_ H2].
  destruct (H2 Examples.target _ _ _ eq_refl ltac:(discriminate) Hcopy)
    as (_ & _ & d' & copies & srcs & Hd & Hm & Hall & Hc).
  exists d', copies. split; [exact Hd|]. split; [exact Hm|].
  destruct copies as [|c copies]; [discriminate Hc|].
  injection Hc as Hs _. rewrite Hs. exact Hall.
Defined.

(** X9 on the mailbox of the examples: the UIDs from 102 on. *)
Lemma fetch_messages_by_uid_witness :
  Session.fetch_messages Examples.self1 Examples.st0 Examples.sel1 Examples.uid_102_up ∅
  = Ok ([(2, Examples.msg 102 {[Session.Deleted]}); (3, Examples.msg 103 ∅);
         (4, Examples.msg 104 {[Session.Deleted]})], Examples.sel1).
Proof.
  destruct (fetch_messages_by_uid Examples.self1 Examples.st0 Examples.sel1
              Examples.uid_102_up ∅ Examples.inbox (Session.mkMailbox false)
              eq_refl eq_refl eq_refl) as [_ H].
  rewrite (H (st0_wf "INBOX"%string Examples.inbox eq_refl)). vm_compute. reflexivity.
Defined.

(** X10 on the mailbox of the examples, which has four messages: the
    numbers 1 and 2 are fetched. *)
Lemma fetch_messages_by_sequence_witness :
  ∃ msgs,
    Session.fetch_messages Examples.self1 Examples.st0 Examples.sel1 Examples.seq_1_2 ∅
    = Ok (msgs, Examples.sel1)
    ∧ msgs.*1 = [1; 2]
    ∧ Forall (λ r, Session.messages Examples.inbox !! (r.1 - 1) = Some r.2) msgs.
Proof.
  apply (fetch_messages_by_sequence Examples.self1 Examples.st0 Examples.sel1
           Examples.seq_1_2 ∅ Examples.inbox (Session.mkMailbox false)
           eq_refl eq_refl eq_refl).
  vm_compute. repeat constructor.
Defined.

(** X11 on the mailbox of the examples: the appended message gets the
    UID 105 and the sequence number 5. *)
Lemma append_then_fetch_by_uid_witness :
  let r := Session.append_messages Examples.self1 Examples.st0 "INBOX"
             Examples.one_message None in
  ∃ upd,
    r.2 = Ok (Session.mkAppendUid 7 [105], upd)
    ∧ Session.fetch_messages Examples.self1 r.1 Examples.sel1
        (Session.mkSequenceSet true [(Session.SeqNum 105, Session.SeqNum 105)]) ∅
      = Ok ([(5, Session.mkMessage 105 "test message" 3
                   ({[Session.Seen]} ∩ {[Session.Deleted; Session.Seen]}))],
            Examples.sel1).
Proof.
  exact (append_then_fetch_by_uid Examples.self1 Examples.st0 Examples.sel1 None
           (Session.mkAppendMessage "test message" {[Session.Seen]} 3) ∅ true
           Examples.inbox (Session.mkMailbox false) eq_refl eq_refl
           (st0_wf "INBOX"%string Examples.inbox eq_refl) ltac:(vm_compute; lia)).
Defined.

(** X12 on the mailbox of the examples, for the selection 1. *)
Lemma check_mailbox_after_append_witness :
  let st1 := (Session.append_messages Examples.self1 Examples.st0 "INBOX"
                Examples.one_message None).1 in
  let r := Session.check_mailbox Examples.self1 st1 Examples.sel1 true false in
  r.2 = Session.Ready (Ok Examples.sel1)
  ∧ (Session.check_mailbox Examples.self1 r.1 Examples.sel1 true false).2 = Session.Waiting.
Proof.
  intros st1 r.
  destruct (check_mailbox_after_append Examples.self1 Examples.st0 Examples.sel1 None
              (Session.mkAppendMessage "test message" {[Session.Seen]} 3) [] false
              Examples.inbox (Session.mkMailbox false) Examples.no_data
              eq_refl eq_refl) as (H1 & _ & _ & H4 & _).
  { apply sessions_of_inbox. left. reflexivity. }
  { reflexivity. }
  split; [exact H1 | exact H4].
Defined.

(** X13 on the mailbox of the examples: the search for the UID 103. *)
Lemma search_mailbox_results_witness :
  ∃ matching,
    Session.search_mailbox Examples.the_matches Examples.self1 Examples.st0 Examples.sel1 103
    = Ok (matching, Examples.sel1)
    ∧ ∀ msg_seq m,
        (msg_seq, m) ∈ matching ↔
        1 ≤ msg_seq ∧ Session.messages Examples.inbox !! (msg_seq - 1) = Some m
        ∧ Examples.the_matches 103 Examples.st0 Examples.sel1 4 104 msg_seq m = true.
Proof.
  destruct (search_mailbox_results Examples.the_matches Examples.self1 Examples.st0
              Examples.sel1 103 Examples.inbox (Session.mkMailbox false) eq_refl eq_refl)
    as (matching & H1 & _ & H3).
  exists matching. split; [exact H1 | exact H3].
Defined.

(** X14 on the mailboxes INBOX, A and A.B: A is there, [New] is made
    and deleted again. *)
Lemma create_mailbox_then_delete_witness :
  let st1 := (Session.create_mailbox Examples.the_new_mailbox Examples.st_tree "New" None).1 in
  Session.create_mailbox Examples.the_new_mailbox Examples.st_tree "A" None
  = (Examples.st_tree, Raise (MailboxConflict "A"))
  ∧ Session.mailboxes st1 !! "New"%string = Some (Examples.the_new_mailbox "New")
  ∧ (Session.delete_mailbox Examples.self1 st1 "New" None).1.2 = Examples.st_tree.
Proof.
  intros st1.
  destruct (create_mailbox_then_delete Examples.the_new_mailbox Examples.self1
              Examples.st_tree "A" None) as [H _].
  destruct (create_mailbox_then_delete Examples.the_new_mailbox Examples.self1
              Examples.st_tree "New" None) as [_ H'].
  destruct (H' eq_refl) as (_ & H2 & _ & _ & _ & H6).
  split; [apply H; exists Examples.target; reflexivity|].
  split; [exact H2 | exact H6].
Defined.

(** X15 on a mailbox object with updates pending, for a response with
    no data. *)
Lemma _check_mailbox_updates_order_witness :
  (ConnState._check_mailbox_updates Examples.busy_poll Examples.fetch_cmd
     (ConnState.ResponseOk "a2" "FETCH completed.") Examples.selected_connection).2
  = ConnState.mkResponse "a2" ConnState.OK "FETCH completed."
      [ConnState.ExistsResponse 5; ConnState.RecentResponse 1;
       ConnState.ExpungeResponse 2; ConnState.ExpungeResponse 4;
       ConnState.FetchResponse 1 "FLAGS (\Seen)"].
Proof.
  rewrite (_check_mailbox_updates_order Examples.busy_poll Examples.fetch_cmd
             (ConnState.ResponseOk "a2" "FETCH completed.") Examples.selected_connection
             1 eq_refl).
  reflexivity.
Defined.

(** X16 on a connection with no mailbox selected: LIST gives the same
    with updates pending and without. *)
Lemma do_command_polls_kept_selection_witness :
  ConnState.do_command id Examples.the_poll Examples.the_handlers Examples.list_cmd
    Examples.authenticated
  = ConnState.do_command id Examples.busy_poll Examples.the_handlers Examples.list_cmd
      Examples.authenticated.
Proof.
  apply (do_command_polls_kept_selection id Examples.the_poll Examples.busy_poll
           Examples.the_handlers Examples.list_cmd Examples.authenticated).
  left. reflexivity.
Defined.

(** X17 with the backend of the examples: a wrong secret on a
    connection that has a session leaves it without one, and CREATE is
    refused then. *)
Lemma do_authenticate_then_command_witness :
  let cs' := (Handlers.do_authenticate Examples.the_backend Examples.login_cmd
                "wrong"%string Examples.authenticated).1 in
  ConnState.session cs' = None
  ∧ ConnState.do_command id Examples.the_poll Examples.the_handlers Examples.create_cmd cs'
    = (cs', ConnState.Returned
              (ConnState.ResponseBad "a1" "CREATE: Must authenticate first."), []).
Proof.
  intros cs'.
  destruct (do_authenticate_then_command Examples.the_backend id Examples.the_poll
              Examples.the_handlers Examples.login_cmd "wrong"%string
              Examples.authenticated) as (H1 & _ & H3 & _).
  split; [exact H1|].
  destruct (H3 eq_refl) as [_ H]. exact (H Examples.create_cmd eq_refl).
Defined.

(** X18 with the backend of the examples: the rename to the [str]
    INBOX is made, the rename to the [bytes] INBOX is refused, and the
    [bytes] INBOX is created. *)
Lemma inbox_guards_witness :
  Handlers.do_rename Examples.the_rename "a1" (Handlers.Str "Sent") (Handlers.Str "INBOX")
    Examples.authenticated
  = Handlers.Sent (ConnState.ResponseOk "a1" "Mailbox renamed successfully.")
  ∧ Handlers.do_rename Examples.the_rename "a1" (Handlers.Str "Sent") (Handlers.Bytes "INBOX")
      Examples.authenticated
    = Handlers.Sent (ConnState.ResponseNo "a1" "Cannot rename to INBOX.")
  ∧ Handlers.do_create Examples.the_create "a1" (Handlers.Bytes "INBOX")
      Examples.authenticated
    = Handlers.Sent (ConnState.ResponseOk "a1" "Mailbox created successfully.").
Proof.
  destruct (inbox_guards Examples.the_create Examples.the_delete Examples.the_rename
              "a1" Examples.authenticated () eq_refl) as (_ & _ & H3 & H4 & _ & H6).
  split; [|split].
  - rewrite (H6 (Handlers.Str "Sent") (Handlers.Str "INBOX")); [reflexivity | discriminate].
  - exact (H3 (Handlers.Str "Sent")).
  - rewrite (H4 (Handlers.Bytes "INBOX")); [reflexivity | discriminate].
Defined.

(** X19 on the status of the examples, for MESSAGES and UIDNEXT. *)
Lemma status_list_of_numbers_witness :
  ∃ numbers,
    Forall2 (Handlers.status_number Examples.the_status)
      [StatusAttribute.mkStatusAttribute "MESSAGES"; StatusAttribute.mkStatusAttribute "UIDNEXT"]
      numbers
    ∧ Handlers.status_list_of Examples.the_status
        [StatusAttribute.mkStatusAttribute "MESSAGES"; StatusAttribute.mkStatusAttribute "UIDNEXT"]
      = mjoin (zip_with (λ a n, [Handlers.ItemAttribute a; Handlers.ItemNumber n])
                 [StatusAttribute.mkStatusAttribute "MESSAGES";
                  StatusAttribute.mkStatusAttribute "UIDNEXT"] numbers).
Proof.
  apply (status_list_of_numbers Examples.the_status).
  repeat constructor.
  - exists "messages"%string. vm_compute. reflexivity.
  - exists "uidnext"%string. vm_compute. reflexivity.
Defined.

(** X20 with a read-only mailbox selected. *)
Lemma do_close_deselects_witness :
  ConnState.do_command id Examples.busy_poll Examples.close_handlers Examples.close_cmd
    Examples.selected_connection
  = (ConnState.mkConnectionState (Some ()) None,
     ConnState.Returned (ConnState.ResponseOk "a3" "CLOSE completed."), ["do_close"%string]).
Proof.
  apply (do_close_deselects Examples.the_expunge id Examples.busy_poll
           Examples.close_handlers Examples.close_cmd Examples.selected_connection () 1);
    try reflexivity.
  intros e. discriminate.
Defined.

(** X21 for the bytes [messages]. *)
Lemma status_attribute_bytes_round_trip_witness :
  StatusAttribute.__bytes__ (StatusAttribute.mkStatusAttribute "MESSAGES") = "MESSAGES"%string
  ∧ StatusAttribute.__init__ "MESSAGES" = Ok (StatusAttribute.mkStatusAttribute "MESSAGES")
  ∧ StatusAttribute.__eq__ (StatusAttribute.mkStatusAttribute "MESSAGES")
      (StatusAttribute.OtherBytes "messages") ≠ Some true.
Proof.
  destruct (status_attribute_bytes_round_trip "messages"
              (StatusAttribute.mkStatusAttribute "MESSAGES"))
    as (H1 & H2 & H3 & _).
  { vm_compute. reflexivity. }
  split; [exact H1|]. split; [exact H2|].
  intros H. apply H3 in H. discriminate H.
Defined.
